(** * The byte-buffer engine of unhexed (package buffer)

    A shallow embedding of the Go package [buffer]: the [Buffer] aggregate,
    its accessors, the three primitive edits, [ReplaceBytes], the undo/redo
    log, literal search, and the persistence calls.

    Conventions of the embedding.
    - [int] and [int64] are 64-bit: a value is a [Z], and every arithmetic
      site that can leave the range on some input is written with
      [add64]/[sub64].
    - A [[]byte] is a [list byte]; [nil] and the empty slice are both [[]].
      Go never holds a slice of more than [maxAlloc] elements; that bound
      is the predicate [fits].
    - A call runs in the monad [go]: it returns, or it stops with a run-time
      panic.  Loops that the source bounds by a comparison carry a budget
      and end in [Spin] when it is spent; the properties show that the
      budget each caller passes is never spent. *)

From Stdlib Require Import ZArith Strings.Byte Strings.Ascii.
From stdpp Require Import base decidable option numbers list strings vector.

#[local] Open Scope Z_scope.

(** ** The Go run time *)

Inductive runtime_error : Set :=
| IndexOutOfRange
| SliceBoundsOutOfRange
| MakesliceLenOutOfRange.

Inductive go (A : Type) : Type :=
| Ret (a : A)
| Panic (e : runtime_error)
| Spin.

Arguments Ret {A} a.
Arguments Panic {A} e.
Arguments Spin {A}.

#[global] Instance go_ret : MRet go := @Ret.
#[global] Instance go_bind : MBind go := λ A B f m,
  match m with
  | Ret a => f a
  | Panic e => Panic e
  | Spin => Spin
  end.

#[global] Instance byte_eq_dec : EqDecision byte := Byte.byte_eq_dec.

Definition MaxInt64 : Z := 2 ^ 63 - 1.
Definition MinInt64 : Z := - 2 ^ 63.

(** Two's-complement reduction of a mathematical integer to 64 bits. *)
Definition wrap64 (z : Z) : Z := (z + 2 ^ 63) `mod` 2 ^ 64 - 2 ^ 63.
Definition add64 (a b : Z) : Z := wrap64 (a + b).
Definition sub64 (a b : Z) : Z := wrap64 (a - b).

Definition int64_range (z : Z) : Prop := MinInt64 ≤ z ≤ MaxInt64.

(** The allocator's limit on a 64-bit target ([runtime.maxAlloc]). *)
Definition maxAlloc : Z := 2 ^ 48.

Definition len {A} (s : list A) : Z := Z.of_nat (length s).

Definition fits {A} (s : list A) : Prop := len s ≤ maxAlloc.

(** [make([]byte, n)] *)
Definition make (n : Z) : go (list byte) :=
  if bool_decide (0 ≤ n ≤ maxAlloc)
  then Ret (replicate (Z.to_nat n) x00)
  else Panic MakesliceLenOutOfRange.

(** [s[i]] *)
Definition index {A} (s : list A) (i : Z) : go A :=
  if bool_decide (0 ≤ i)
  then match s !! Z.to_nat i with
       | Some x => Ret x
       | None => Panic IndexOutOfRange
       end
  else Panic IndexOutOfRange.

(** [s[i] = v] *)
Definition store {A} (s : list A) (i : Z) (v : A) : go (list A) :=
  if bool_decide (0 ≤ i < len s)
  then Ret (<[Z.to_nat i := v]> s)
  else Panic IndexOutOfRange.

(** [s[lo:]], [s[:hi]] and [s[lo:hi]].  An upper bound is checked against
    the length: wherever this package gives one, it is at most the length
    unless an allocation before it has already panicked, so the capacity
    never decides. *)
Definition slice_lo {A} (s : list A) (lo : Z) : go (list A) :=
  if bool_decide (0 ≤ lo ≤ len s)
  then Ret (drop (Z.to_nat lo) s)
  else Panic SliceBoundsOutOfRange.

Definition slice_hi {A} (s : list A) (hi : Z) : go (list A) :=
  if bool_decide (0 ≤ hi ≤ len s)
  then Ret (take (Z.to_nat hi) s)
  else Panic SliceBoundsOutOfRange.

Definition slice {A} (s : list A) (lo hi : Z) : go (list A) :=
  if bool_decide (0 ≤ lo ≤ hi ∧ hi ≤ len s)
  then Ret (take (Z.to_nat (hi - lo)) (drop (Z.to_nat lo) s))
  else Panic SliceBoundsOutOfRange.

(** [copy(dst, src)]: the first [min (len dst) (len src)] elements of [dst]
    are overwritten; the value is [dst] afterwards. *)
Definition copy {A} (dst src : list A) : list A :=
  take (length dst) src ++ drop (length src) dst.

(** [copy(dst[lo:], src)], seen from [dst]; [src] is the source
    expression, evaluated after [dst[lo:]]. *)
Definition copy_at {A} (dst : list A) (lo : Z) (src : go (list A)) : go (list A) :=
  tail ← slice_lo dst lo;
  from ← src;
  Ret (take (Z.to_nat lo) dst ++ copy tail from).

(** ** Data model *)

Inductive OpType : Set := OpInsert | OpDelete | OpReplace.

Record Operation : Set := mkOperation {
  Type_ : OpType;
  Offset : Z;
  OldData : list byte;
  NewData : list byte;
}.

Record Buffer : Set := mkBuffer {
  filename : string;
  data : list byte;
  originalHash : string;
  modified : bool;
  undoStack : list Operation;
  redoStack : list Operation;
  isNew : bool;
}.

#[global] Instance OpType_eq_dec : EqDecision OpType.
Proof. solve_decision. Defined.
#[global] Instance Operation_eq_dec : EqDecision Operation.
Proof. solve_decision. Defined.
#[global] Instance Buffer_eq_dec : EqDecision Buffer.
Proof. solve_decision. Defined.

Definition New : Buffer :=
  {| filename := ""; data := []; originalHash := ""; modified := false;
     undoStack := []; redoStack := []; isNew := true |}.

Definition Filename (b : Buffer) : string := filename b.

Definition SetFilename (name : string) (b : Buffer) : Buffer :=
  {| filename := name; data := data b; originalHash := originalHash b;
     modified := modified b; undoStack := undoStack b;
     redoStack := redoStack b; isNew := false |}.

Definition IsNew (b : Buffer) : bool := isNew b.
Definition IsModified (b : Buffer) : bool := modified b.
Definition Size (b : Buffer) : Z := len (data b).
Definition CanUndo (b : Buffer) : bool := bool_decide (0 < len (undoStack b)).
Definition CanRedo (b : Buffer) : bool := bool_decide (0 < len (redoStack b)).

Definition GetByte (offset : Z) (b : Buffer) : go (byte * bool) :=
  if bool_decide (offset < 0 ∨ len (data b) ≤ offset)
  then Ret (x00, false)
  else v ← index (data b) offset; Ret (v, true).

Definition GetBytes (offset count : Z) (b : Buffer) : go (list byte) :=
  if bool_decide (offset < 0 ∨ len (data b) ≤ offset)
  then Ret []
  else
    let end_ := add64 offset count in
    let end_ := if bool_decide (len (data b) < end_) then len (data b) else end_ in
    result ← make (sub64 end_ offset);
    src ← slice (data b) offset end_;
    Ret (copy result src).

(** ** Content Store mutation *)

Definition Insert (offset : Z) (data' : list byte) (b : Buffer) : go Buffer :=
  let offset := if bool_decide (offset < 0) then 0 else offset in
  let offset := if bool_decide (len (data b) < offset) then len (data b) else offset in
  opNew ← make (len data');
  let op := {| Type_ := OpInsert; Offset := offset;
               OldData := []; NewData := copy opNew data' |} in
  let undo := undoStack b ++ [op] in
  newData ← make (add64 (len (data b)) (len data'));
  head ← slice_hi (data b) offset;
  let newData := copy newData head in
  newData ← copy_at newData offset (Ret data');
  newData ← copy_at newData (add64 offset (len data')) (slice_lo (data b) offset);
  Ret {| filename := filename b; data := newData;
         originalHash := originalHash b; modified := true;
         undoStack := undo; redoStack := []; isNew := isNew b |}.

Definition Delete (offset count : Z) (b : Buffer) : go Buffer :=
  if bool_decide (offset < 0 ∨ len (data b) ≤ offset ∨ count ≤ 0)
  then Ret b
  else
    let count := if bool_decide (len (data b) < add64 offset count)
                 then sub64 (len (data b)) offset else count in
    opOld ← make count;
    removed ← slice (data b) offset (add64 offset count);
    let op := {| Type_ := OpDelete; Offset := offset;
                 OldData := copy opOld removed; NewData := [] |} in
    let undo := undoStack b ++ [op] in
    newData ← make (sub64 (len (data b)) count);
    head ← slice_hi (data b) offset;
    let newData := copy newData head in
    newData ← copy_at newData offset (slice_lo (data b) (add64 offset count));
    Ret {| filename := filename b; data := newData;
           originalHash := originalHash b; modified := true;
           undoStack := undo; redoStack := []; isNew := isNew b |}.

Definition Replace (offset : Z) (newByte : byte) (b : Buffer) : go Buffer :=
  if bool_decide (offset < 0 ∨ len (data b) ≤ offset)
  then Ret b
  else
    old ← index (data b) offset;
    let op := {| Type_ := OpReplace; Offset := offset;
                 OldData := [old]; NewData := [newByte] |} in
    let undo := undoStack b ++ [op] in
    newData ← store (data b) offset newByte;
    Ret {| filename := filename b; data := newData;
           originalHash := originalHash b; modified := true;
           undoStack := undo; redoStack := []; isNew := isNew b |}.

(** One turn of the loop of [ReplaceBytes], for the byte [d] at index [i]. *)
Definition ReplaceBytes_body (offset i : Z) (d : byte) (b : Buffer) : go Buffer :=
  let pos := add64 offset i in
  if bool_decide (len (data b) ≤ pos)
  then Insert (len (data b)) [d] b
  else Replace pos d b.

(** [for i, d := range data]: [i] counts the bytes already handled. *)
Fixpoint ReplaceBytes_from (i : Z) (offset : Z) (data' : list byte)
    (b : Buffer) : go Buffer :=
  match data' with
  | [] => Ret b
  | d :: rest =>
      b' ← ReplaceBytes_body offset i d b;
      ReplaceBytes_from (i + 1) offset rest b'
  end.

Definition ReplaceBytes (offset : Z) (data' : list byte) (b : Buffer) : go Buffer :=
  ReplaceBytes_from 0 offset data' b.

(** ** Operation Log *)

(** The [switch op.Type] of [Undo], as a function of the content. *)
Definition Undo_switch (op : Operation) (data' : list byte) : go (list byte) :=
  match Type_ op with
  | OpInsert =>
      newData ← make (sub64 (len data') (len (NewData op)));
      head ← slice_hi data' (Offset op);
      let newData := copy newData head in
      newData ← copy_at newData (Offset op)
                  (slice_lo data' (add64 (Offset op) (len (NewData op))));
      Ret newData
  | OpDelete =>
      newData ← make (add64 (len data') (len (OldData op)));
      head ← slice_hi data' (Offset op);
      let newData := copy newData head in
      newData ← copy_at newData (Offset op) (Ret (OldData op));
      newData ← copy_at newData (add64 (Offset op) (len (OldData op)))
                  (slice_lo data' (Offset op));
      Ret newData
  | OpReplace =>
      old ← index (OldData op) 0;
      store data' (Offset op) old
  end.

Definition Undo (b : Buffer) : go (bool * Buffer) :=
  if bool_decide (len (undoStack b) = 0)
  then Ret (false, b)
  else
    op ← index (undoStack b) (len (undoStack b) - 1);
    undo ← slice_hi (undoStack b) (len (undoStack b) - 1);
    newData ← Undo_switch op (data b);
    let redo := redoStack b ++ [op] in
    Ret (true, {| filename := filename b; data := newData;
                  originalHash := originalHash b;
                  modified := bool_decide (0 < len undo);
                  undoStack := undo; redoStack := redo; isNew := isNew b |}).

(** The [switch op.Type] of [Redo]. *)
Definition Redo_switch (op : Operation) (data' : list byte) : go (list byte) :=
  match Type_ op with
  | OpInsert =>
      newData ← make (add64 (len data') (len (NewData op)));
      head ← slice_hi data' (Offset op);
      let newData := copy newData head in
      newData ← copy_at newData (Offset op) (Ret (NewData op));
      newData ← copy_at newData (add64 (Offset op) (len (NewData op)))
                  (slice_lo data' (Offset op));
      Ret newData
  | OpDelete =>
      newData ← make (sub64 (len data') (len (OldData op)));
      head ← slice_hi data' (Offset op);
      let newData := copy newData head in
      newData ← copy_at newData (Offset op)
                  (slice_lo data' (add64 (Offset op) (len (OldData op))));
      Ret newData
  | OpReplace =>
      new ← index (NewData op) 0;
      store data' (Offset op) new
  end.

Definition Redo (b : Buffer) : go (bool * Buffer) :=
  if bool_decide (len (redoStack b) = 0)
  then Ret (false, b)
  else
    op ← index (redoStack b) (len (redoStack b) - 1);
    redo ← slice_hi (redoStack b) (len (redoStack b) - 1);
    newData ← Redo_switch op (data b);
    let undo := undoStack b ++ [op] in
    Ret (true, {| filename := filename b; data := newData;
                  originalHash := originalHash b; modified := true;
                  undoStack := undo; redoStack := redo; isNew := isNew b |}).

(** ** Search Engine *)

(** The inner loop [for j := 0; j < len(pattern); j++]: [pattern] is what
    is left of the pattern from index [j] on.  [Ret true] is [match] still
    set at the end, [Ret false] the [break]. *)
Fixpoint match_from (data' : list byte) (i j : Z) (pattern : list byte) : go bool :=
  match pattern with
  | [] => Ret true
  | p :: rest =>
      d ← index data' (add64 i j);
      if bool_decide (d ≠ p) then Ret false
      else match_from data' i (j + 1) rest
  end.

(** [for i := startOffset; i <= len(data)-len(pattern); i++] *)
Fixpoint Find_forward (budget : nat) (data' pattern : list byte) (i : Z) : go Z :=
  if bool_decide (i ≤ sub64 (len data') (len pattern))
  then match budget with
       | O => Spin
       | S budget' =>
           m ← match_from data' i 0 pattern;
           if m : bool then Ret i
           else Find_forward budget' data' pattern (add64 i 1)
       end
  else Ret (-1).

(** [for i := start; i >= 0; i--] *)
Fixpoint Find_backward (budget : nat) (data' pattern : list byte) (i : Z) : go Z :=
  if bool_decide (0 ≤ i)
  then match budget with
       | O => Spin
       | S budget' =>
           m ← match_from data' i 0 pattern;
           if m : bool then Ret i
           else Find_backward budget' data' pattern (sub64 i 1)
       end
  else Ret (-1).

Definition Find (pattern : list byte) (startOffset : Z) (forward : bool)
    (b : Buffer) : go Z :=
  if bool_decide (len pattern = 0 ∨ len (data b) = 0)
  then Ret (-1)
  else if forward
  then Find_forward (length (data b)) (data b) pattern startOffset
  else
    let start := sub64 startOffset 1 in
    let start := if bool_decide (sub64 (len (data b)) (len pattern) < start)
                 then sub64 (len (data b)) (len pattern) else start in
    Find_backward (length (data b)) (data b) pattern start.

(** [for i := int64(0); i <= len(data)-len(pattern); i++] with the running
    [count]. *)
Fixpoint CountMatches_from (budget : nat) (data' pattern : list byte)
    (i count : Z) : go Z :=
  if bool_decide (i ≤ sub64 (len data') (len pattern))
  then match budget with
       | O => Spin
       | S budget' =>
           m ← match_from data' i 0 pattern;
           CountMatches_from budget' data' pattern (add64 i 1)
             (if m : bool then add64 count 1 else count)
       end
  else Ret count.

Definition CountMatches (pattern : list byte) (b : Buffer) : go Z :=
  if bool_decide (len pattern = 0 ∨ len (data b) = 0)
  then Ret 0
  else CountMatches_from (length (data b)) (data b) pattern 0 0.

(** ** Persistence Guard *)

(** The operating system and the libraries [os], [io], [encoding/hex] and
    [crypto/sha256] are not code of this package.  A [Disk] answers the two
    calls the package makes; [hex_EncodeToString] is the library's
    lower-case encoding; the digest itself is a parameter. *)

Inductive os_error : Set := ENOENT | EACCES | EISDIR | ENOSPC | EIO.

Inductive error : Set :=
| ErrNoFilename                 (* fmt.Errorf("no filename set") *)
| ErrOS (e : os_error).

(** An open file: what [io.ReadAll] yields on it. *)
Record File : Set := { ReadAll : os_error + list byte }.

Inductive write_outcome : Set :=
| Written
| WriteFailed (e : os_error) (residue : os_error + File).

Record Disk : Type := mkDisk {
  os_Open : string → os_error + File;
  writes : string → list byte → write_outcome;
}.

(** [os.WriteFile(name, data, 0644)]: on success the path holds [data]; on
    failure it holds whatever the failed write left there. *)
Definition os_WriteFile (disk : Disk) (name : string) (data' : list byte)
    : Disk * option os_error :=
  match writes disk name data' with
  | Written =>
      ({| os_Open := λ n, if decide (n = name)
                          then inr {| ReadAll := inr data' |}
                          else os_Open disk n;
          writes := writes disk |}, None)
  | WriteFailed e residue =>
      ({| os_Open := λ n, if decide (n = name) then residue else os_Open disk n;
          writes := writes disk |}, Some e)
  end.

Definition hextable : list ascii := String.list_ascii_of_string "0123456789abcdef".

Definition hex_digit (n : N) : ascii := nth (N.to_nat n) hextable "0"%char.

Fixpoint hex_EncodeToString (src : list byte) : string :=
  match src with
  | [] => ""
  | v :: rest =>
      String (hex_digit (N.shiftr (Byte.to_N v) 4))
        (String (hex_digit (N.land (Byte.to_N v) 15))
           (hex_EncodeToString rest))
  end.

Section Persistence.

(** [sha256.Sum256], of type [func([]byte) [32]byte]. *)
Variable Sum256 : list byte → vec byte 32.

(** The content fingerprint the package stores and compares. *)
Definition fingerprint (data' : list byte) : string :=
  hex_EncodeToString (vec_to_list (Sum256 data')).

Definition Open (disk : Disk) (filename : string) : option Buffer * option error :=
  match os_Open disk filename with
  | inl err => (None, Some (ErrOS err))
  | inr f =>
      match ReadAll f with
      | inl err => (None, Some (ErrOS err))
      | inr data' =>
          let hash := Sum256 data' in
          (Some {| filename := filename; data := data';
                   originalHash := hex_EncodeToString (vec_to_list hash);
                   modified := false; undoStack := []; redoStack := [];
                   isNew := false |}, None)
      end
  end.

Definition HasChangedOnDisk (disk : Disk) (b : Buffer) : bool * option error :=
  if bool_decide (isNew b = true ∨ filename b = "")
  then (false, None)
  else
    match os_Open disk (filename b) with
    | inl err => (false, Some (ErrOS err))
    | inr f =>
        match ReadAll f with
        | inl err => (false, Some (ErrOS err))
        | inr data' =>
            let hash := Sum256 data' in
            let currentHash := hex_EncodeToString (vec_to_list hash) in
            (bool_decide (currentHash ≠ originalHash b), None)
        end
    end.

Definition Save (disk : Disk) (b : Buffer) : Disk * Buffer * option error :=
  if bool_decide (filename b = "")
  then (disk, b, Some ErrNoFilename)
  else
    match os_WriteFile disk (filename b) (data b) with
    | (disk', Some err) => (disk', b, Some (ErrOS err))
    | (disk', None) =>
        let hash := Sum256 (data b) in
        (disk',
         {| filename := filename b; data := data b;
            originalHash := hex_EncodeToString (vec_to_list hash);
            modified := false; undoStack := []; redoStack := [];
            isNew := false |},
         None)
    end.

Definition SaveAs (disk : Disk) (filename' : string) (b : Buffer)
    : Disk * Buffer * option error :=
  let b := {| filename := filename'; data := data b;
              originalHash := originalHash b; modified := modified b;
              undoStack := undoStack b; redoStack := redoStack b;
              isNew := isNew b |} in
  Save disk b.



(** ** Reachable buffers

    The states a buffer goes through when it is driven through the methods
    of the package.  Each state comes with a record of things the program
    does not keep: for every Operation on the undo stack the content it was
    applied to, and the content as it was at the last [Open] or successful
    [Save], if there was one. *)

Record Ghost : Set := mkGhost {
  priors : list (list byte);
  synced : option (list byte);
}.

(** [priors] follows the undo stack: a call that pushes an Operation records
    the content the Operation was applied to; a call that shortens the stack
    shortens the record with it. *)
Definition shadow (b b' : Buffer) (ps : list (list byte)) : list (list byte) :=
  if bool_decide (length (undoStack b) < length (undoStack b'))%nat
  then ps ++ [data b]
  else take (length (undoStack b')) ps.

Definition after (b b' : Buffer) (g : Ghost) : Ghost :=
  {| priors := shadow b b' (priors g); synced := synced g |}.

Definition after_save (b b' : Buffer) (err : option error) (g : Ghost) : Ghost :=
  {| priors := shadow b b' (priors g);
     synced := match err with None => Some (data b) | Some _ => synced g end |}.

(** [ReplaceBytes] has no constructor of its own: it is a sequence of
    [Insert] and [Replace] calls. *)
Inductive Reach : Buffer → Ghost → Prop :=
| Reach_New :
    Reach New {| priors := []; synced := None |}
| Reach_Open disk name b :
    Open disk name = (Some b, None) → fits (data b) →
    Reach b {| priors := []; synced := Some (data b) |}
| Reach_SetFilename b g name :
    Reach b g → Reach (SetFilename name b) g
| Reach_Insert b g offset data' b' :
    Reach b g → int64_range offset → Insert offset data' b = Ret b' →
    Reach b' (after b b' g)
| Reach_Delete b g offset count b' :
    Reach b g → int64_range offset → int64_range count →
    Delete offset count b = Ret b' →
    Reach b' (after b b' g)
| Reach_Replace b g offset newByte b' :
    Reach b g → int64_range offset → Replace offset newByte b = Ret b' →
    Reach b' (after b b' g)
| Reach_Undo b g r b' :
    Reach b g → Undo b = Ret (r, b') → Reach b' (after b b' g)
| Reach_Redo b g r b' :
    Reach b g → Redo b = Ret (r, b') → Reach b' (after b b' g)
| Reach_Save b g disk disk' b' err :
    Reach b g → Save disk b = (disk', b', err) →
    Reach b' (after_save b b' err g)
| Reach_SaveAs b g disk name disk' b' err :
    Reach b g → SaveAs disk name b = (disk', b', err) →
    Reach b' (after_save b b' err g).

End Persistence.

(** ** Vocabulary of the statements *)

(** The three-copy splice of [Insert], of undoing a Delete and of redoing an
    Insert, once its allocations and slice bounds are known to be in range. *)
Definition spliced (off : Z) (new d : list byte) : list byte :=
  take (Z.to_nat off) d ++ new ++ drop (Z.to_nat off) d.

(** The two-copy cut of [Delete], of undoing an Insert and of redoing a
    Delete. *)
Definition cut (off n : Z) (d : list byte) : list byte :=
  take (Z.to_nat off) d ++ drop (Z.to_nat (off + n)) d.

(** The offset [Insert] works with after its two clamping tests. *)
Definition clamped (offset : Z) (b : Buffer) : Z :=
  Z.min (len (data b)) (Z.max 0 offset).

(** The buffer after an edit that was applied: new content [d], [op] on top
    of the undo stack, no redo stack, [modified] set. *)
Definition edited (b : Buffer) (d : list byte) (op : Operation) : Buffer :=
  {| filename := filename b; data := d; originalHash := originalHash b;
     modified := true; undoStack := undoStack b ++ [op]; redoStack := [];
     isNew := isNew b |}.

(** The number of bytes [Delete] removes. *)
Definition deleted (offset count : Z) (b : Buffer) : Z :=
  Z.min count (len (data b) - offset).

(** What the spec says reverse-applying an Operation does to the content:
    Insert removes [newData] at [offset], Delete reinserts [oldData] at
    [offset], Replace restores the [oldData] byte at [offset]. *)
Definition reverse_applied (op : Operation) (d : list byte) : list byte :=
  match Type_ op with
  | OpInsert => cut (Offset op) (len (NewData op)) d
  | OpDelete => spliced (Offset op) (OldData op) d
  | OpReplace =>
      match OldData op with
      | old :: _ => <[Z.to_nat (Offset op) := old]> d
      | [] => d
      end
  end.

(** [op] leads from content [X] to content [Y] and back: [Redo]'s switch
    maps [X] to [Y], [Undo]'s switch maps [Y] to [X], and that way back is
    the reverse application of the spec. *)
Definition links (op : Operation) (X Y : list byte) : Prop :=
  fits X ∧ fits Y ∧ Redo_switch op X = Ret Y ∧ Undo_switch op Y = Ret X ∧
  reverse_applied op Y = X.

(** The undo stack [ops], the contents [ps] its Operations were applied to,
    and the present content: each Operation links the content before it to
    the one after it. *)
Inductive History : list Operation → list (list byte) → list byte → Prop :=
| History_nil cur :
    History [] [] cur
| History_snoc ops ps prev op cur :
    History ops ps prev → links op prev cur →
    History (ops ++ [op]) (ps ++ [prev]) cur.

(** The redo stack can be replayed from the present content, top first. *)
Inductive Future : list Operation → list byte → Prop :=
| Future_nil cur :
    Future [] cur
| Future_snoc ops op cur next :
    links op cur next → Future ops next →
    Future (ops ++ [op]) cur.

(** The buffer after a successful [Undo] that popped [op] off [ops ++ [op]]
    and restored the content [d]. *)
Definition undone (b : Buffer) (ops : list Operation) (op : Operation)
    (d : list byte) : Buffer :=
  {| filename := filename b; data := d; originalHash := originalHash b;
     modified := bool_decide (0 < len ops); undoStack := ops;
     redoStack := redoStack b ++ [op]; isNew := isNew b |}.

(** [pattern] occurs in [d] at index [i], byte for byte. *)
Definition occurs_at (pattern d : list byte) (i : Z) : Prop :=
  0 ≤ i ∧ take (length pattern) (drop (Z.to_nat i) d) = pattern.

(** The Operations [ReplaceBytes] records: one Replace per overwritten
    position from [off] on, then one single-byte Insert per appended byte,
    the first of them at [size]. *)
Definition replace_ops (off : Z) (olds news : list byte) : list Operation :=
  imap (λ i '(old, new), mkOperation OpReplace (off + Z.of_nat i) [old] [new])
    (zip olds news).

Definition append_ops (size : Z) (news : list byte) : list Operation :=
  imap (λ i new, mkOperation OpInsert (size + Z.of_nat i) [] [new]) news.

(** How many of the bytes of [data'] land on existing positions. *)
Definition overwritten (offset : Z) (data' : list byte) (b : Buffer) : Z :=
  Z.min (len data') (Z.max 0 (len (data b) - offset)).

(** The buffer after [ReplaceBytes(offset, data')] with [data'] not empty:
    the first [k] bytes overwrite positions [offset .. offset+k-1], the
    others are appended. *)
Definition pasted (offset : Z) (data' : list byte) (b : Buffer) : Buffer :=
  let k := Z.to_nat (overwritten offset data' b) in
  let o := Z.to_nat offset in
  {| filename := filename b;
     data := take o (data b) ++ take k data' ++ drop (o + k) (data b)
               ++ drop k data';
     originalHash := originalHash b; modified := true;
     undoStack := undoStack b
                    ++ replace_ops offset (take k (drop o (data b))) (take k data')
                    ++ append_ops (len (data b)) (drop k data');
     redoStack := []; isNew := isNew b |}.

(** The buffer after a successful [Redo] that popped [op] off [ops ++ [op]]
    and produced the content [d]. *)
Definition redone (b : Buffer) (ops : list Operation) (op : Operation)
    (d : list byte) : Buffer :=
  {| filename := filename b; data := d; originalHash := originalHash b;
     modified := true; undoStack := undoStack b ++ [op];
     redoStack := ops; isNew := isNew b |}.

(** What holds of every reachable buffer and its record. *)
Definition consistent (Sum256 : list byte → vec byte 32) (b : Buffer) (g : Ghost) : Prop :=
  fits (data b) ∧
  History (undoStack b) (priors g) (data b) ∧
  Future (redoStack b) (data b) ∧
  originalHash b = match synced g with
                   | Some d => fingerprint Sum256 d
                   | None => ""
                   end.

(** ** Sample values *)

Definition bytes_of (s : string) : list byte := String.list_byte_of_string s.

(** A stand-in digest: 32 copies of the first byte. *)
Definition first_byte_digest (d : list byte) : vec byte 32 :=
  vreplicate 32 (hd x00 d).

Definition buffer_of (s : string) : Buffer :=
  {| filename := ""; data := bytes_of s; originalHash := ""; modified := false;
     undoStack := []; redoStack := []; isNew := true |}.

(** A new buffer after [Insert(0, "ab")], [Insert(2, "c")] and [Undo]:
    content "ab", the second Insert on the redo stack. *)
Definition undone_sample : Buffer :=
  {| filename := ""; data := bytes_of "ab"; originalHash := ""; modified := true;
     undoStack := [mkOperation OpInsert 0 [] (bytes_of "ab")];
     redoStack := [mkOperation OpInsert 2 [] (bytes_of "c")];
     isNew := true |}.

(** The buffer after [Insert(0, "ab")] on a new buffer, and its record. *)
Definition inserted_sample : Buffer :=
  edited New (bytes_of "ab") (mkOperation OpInsert 0 [] (bytes_of "ab")).

Definition inserted_ghost : Ghost :=
  after New inserted_sample {| priors := []; synced := None |}.

(** The buffer [Open] makes of the file "f" of [sample_disk], under the
    stand-in digest, and its record. *)
Definition opened_sample : Buffer :=
  {| filename := "f"; data := bytes_of "abc";
     originalHash := fingerprint first_byte_digest (bytes_of "abc");
     modified := false; undoStack := []; redoStack := []; isNew := false |}.

Definition opened_ghost : Ghost :=
  {| priors := []; synced := Some (bytes_of "abc") |}.

(** A disk with one readable file "f" holding "abc"; every write succeeds. *)
Definition sample_disk : Disk :=
  {| os_Open := λ n, if decide (n = "f") then inr {| ReadAll := inr (bytes_of "abc") |}
                     else inl ENOENT;
     writes := λ _ _, Written |}.

(** ** Further vocabulary *)

(** The content as it was at the last [Open] or successful [Save]; empty for
    a buffer that was never opened nor saved. *)
Definition base (g : Ghost) : list byte := default [] (synced g).

#[global] Instance occurs_at_dec pattern d i : Decision (occurs_at pattern d i).
Proof. unfold occurs_at. apply _. Defined.

(** How often [pattern] occurs in [d] at the [n] indices from [lo] on. *)
Definition occurrences (pattern d : list byte) (lo : Z) (n : Z) : Z :=
  len (filter (occurs_at pattern d) (seqZ lo n)).


(** What [GetByte] answers where there is no byte, and where there is one. *)
Definition byte_at (d : list byte) (i : Z) : byte * bool :=
  if bool_decide (0 ≤ i)
  then match d !! Z.to_nat i with
       | Some v => (v, true)
       | None => (x00, false)
       end
  else (x00, false).

(** The buffer [Open] returns for a file [name] holding [d], which is also
    the buffer a successful [Save] of content [d] under [name] leaves. *)
Definition in_sync (Sum256 : list byte → vec byte 32) (name : string)
    (d : list byte) : Buffer :=
  {| filename := name; data := d; originalHash := fingerprint Sum256 d;
     modified := false; undoStack := []; redoStack := []; isNew := false |}.

(** [b] with another filename and nothing else changed: what [SaveAs] leaves
    when the write fails. *)
Definition renamed (name : string) (b : Buffer) : Buffer :=
  {| filename := name; data := data b; originalHash := originalHash b;
     modified := modified b; undoStack := undoStack b;
     redoStack := redoStack b; isNew := isNew b |}.

(** [inserted_sample] after [Insert(2, "c")], and the record of
    [undone_sample], which is that buffer after [Undo]. *)
Definition appended_sample : Buffer :=
  edited inserted_sample (bytes_of "abc") (mkOperation OpInsert 2 [] (bytes_of "c")).

Definition undone_ghost : Ghost :=
  after appended_sample undone_sample
    (after inserted_sample appended_sample inserted_ghost).

(** * The editor (package editor)

    The methods of [Model] that work on the tabs, the cursor, the selection,
    the clipboard and the find pattern.  A Go [string] that the code indexes
    or slices is the [list byte] of its bytes; a string that is only stored
    or compared is a [string].  The fields of [Model] that belong to the
    file browser, the configuration view and the styles, which none of
    these methods reads or writes, are left out. *)

(** ** Bytes as numbers *)

Definition b2z (v : byte) : Z := Z.of_N (Byte.to_N v).

(** The conversion [byte(z)]: the low eight bits. *)
Definition z2b (z : Z) : byte :=
  default x00 (Byte.of_N (Z.to_N (z `mod` 256))).

(** Reduction of a mathematical integer to a [uint64]. *)
Definition wrapU64 (z : Z) : Z := z `mod` 2 ^ 64.

(** ** Library functions

    Modelled from the behaviour of the Go standard library. *)

(** [strings.ReplaceAll(s, " ", "")] *)
Definition strings_ReplaceAll_space (s : list byte) : list byte :=
  filter (λ c, c ≠ " "%byte) s.

(** The loop of [strconv.ParseUint] for a base in [2, 36] and a bit size in
    [1, 64]: [None] is a syntax error, [Some (n, false)] a range error after
    which the result is the largest value of the bit size. *)
Fixpoint ParseUint_digits (base maxVal : Z) (s : list byte) (n : Z)
    : option (Z * bool) :=
  match s with
  | [] => Some (n, true)
  | c :: rest =>
      let lower := Z.lor (b2z c) 32 in
      let d := if bool_decide (b2z "0" ≤ b2z c ≤ b2z "9") then Some (b2z c - b2z "0")
               else if bool_decide (b2z "a" ≤ lower ≤ b2z "z")
                    then Some (lower - b2z "a" + 10)
                    else None in
      match d with
      | None => None
      | Some d =>
          if bool_decide (base ≤ d) then None
          else if bool_decide ((2 ^ 64 - 1) `div` base + 1 ≤ n) then Some (maxVal, false)
          else
            let n := n * base in
            let n1 := wrapU64 (n + d) in
            if bool_decide (n1 < n ∨ maxVal < n1) then Some (maxVal, false)
            else ParseUint_digits base maxVal rest n1
      end
  end.

(** The first result of [strconv.ParseUint(s, base, bitSize)]: 0 on a
    syntax error, the largest value on a range error. *)
Definition strconv_ParseUint (s : list byte) (base bitSize : Z) : Z :=
  match s with
  | [] => 0
  | _ =>
      match ParseUint_digits base (2 ^ bitSize - 1) s 0 with
      | Some (n, _) => n
      | None => 0
      end
  end.

Module editor.

Inductive EditMode : Set := ModeNormal | ModeInsert | ModeReplace.

#[global] Instance EditMode_eq_dec : EqDecision EditMode.
Proof. solve_decision. Defined.

Inductive View : Set :=
| ViewMain | ViewHelp | ViewConfig | ViewFind | ViewGoto | ViewOpen
| ViewSaveAs | ViewConfirmQuit | ViewConfirmClose | ViewFileSavePrompt
| ViewFileChangedPrompt.

Record TabSelection : Set := mkSelection {
  Active : bool;
  Start : Z;
  End_ : Z;
}.

Record Tab : Set := mkTab {
  Buffer_ : Buffer;
  Cursor : Z;
  ScrollY : Z;
  Selection : TabSelection;
}.

Record Model : Set := mkModel {
  tabs : list Tab;
  activeTab : Z;
  mode : EditMode;
  view : View;
  bigEndian : bool;
  clipboard : list byte;
  hexNibble : Z;
  width : Z;
  height : Z;
  newFileCount : Z;
  findInput : list byte;
  findMode : string;
  findWidth : Z;
  findMatches : Z;
  gotoInput : list byte;
  saveAsInput : list byte;
  confirmAction : string;
  statusMsg : string;
}.

Definition bytesPerRow : Z := 16.

(** *** Assignments to single fields *)

Definition set_Buffer (b : Buffer) (t : Tab) : Tab :=
  {| Buffer_ := b; Cursor := Cursor t; ScrollY := ScrollY t;
     Selection := Selection t |}.
Definition set_Cursor (c : Z) (t : Tab) : Tab :=
  {| Buffer_ := Buffer_ t; Cursor := c; ScrollY := ScrollY t;
     Selection := Selection t |}.
Definition set_ScrollY (y : Z) (t : Tab) : Tab :=
  {| Buffer_ := Buffer_ t; Cursor := Cursor t; ScrollY := y;
     Selection := Selection t |}.
Definition set_Selection (s : TabSelection) (t : Tab) : Tab :=
  {| Buffer_ := Buffer_ t; Cursor := Cursor t; ScrollY := ScrollY t;
     Selection := s |}.
Definition set_Active (a : bool) (t : Tab) : Tab :=
  set_Selection {| Active := a; Start := Start (Selection t);
                   End_ := End_ (Selection t) |} t.
Definition set_End (e : Z) (t : Tab) : Tab :=
  set_Selection {| Active := Active (Selection t); Start := Start (Selection t);
                   End_ := e |} t.

Definition set_tabs (ts : list Tab) (m : Model) : Model :=
  {| tabs := ts; activeTab := activeTab m; mode := mode m; view := view m;
     bigEndian := bigEndian m; clipboard := clipboard m; hexNibble := hexNibble m;
     width := width m; height := height m; newFileCount := newFileCount m;
     findInput := findInput m; findMode := findMode m; findWidth := findWidth m;
     findMatches := findMatches m; gotoInput := gotoInput m;
     saveAsInput := saveAsInput m; confirmAction := confirmAction m;
     statusMsg := statusMsg m |}.
Definition set_activeTab (i : Z) (m : Model) : Model :=
  {| tabs := tabs m; activeTab := i; mode := mode m; view := view m;
     bigEndian := bigEndian m; clipboard := clipboard m; hexNibble := hexNibble m;
     width := width m; height := height m; newFileCount := newFileCount m;
     findInput := findInput m; findMode := findMode m; findWidth := findWidth m;
     findMatches := findMatches m; gotoInput := gotoInput m;
     saveAsInput := saveAsInput m; confirmAction := confirmAction m;
     statusMsg := statusMsg m |}.
Definition set_clipboard (c : list byte) (m : Model) : Model :=
  {| tabs := tabs m; activeTab := activeTab m; mode := mode m; view := view m;
     bigEndian := bigEndian m; clipboard := c; hexNibble := hexNibble m;
     width := width m; height := height m; newFileCount := newFileCount m;
     findInput := findInput m; findMode := findMode m; findWidth := findWidth m;
     findMatches := findMatches m; gotoInput := gotoInput m;
     saveAsInput := saveAsInput m; confirmAction := confirmAction m;
     statusMsg := statusMsg m |}.
Definition set_hexNibble (h : Z) (m : Model) : Model :=
  {| tabs := tabs m; activeTab := activeTab m; mode := mode m; view := view m;
     bigEndian := bigEndian m; clipboard := clipboard m; hexNibble := h;
     width := width m; height := height m; newFileCount := newFileCount m;
     findInput := findInput m; findMode := findMode m; findWidth := findWidth m;
     findMatches := findMatches m; gotoInput := gotoInput m;
     saveAsInput := saveAsInput m; confirmAction := confirmAction m;
     statusMsg := statusMsg m |}.

(** *** The current tab *)

Definition currentTab (m : Model) : option Tab :=
  if bool_decide (len (tabs m) = 0 ∨ activeTab m < 0 ∨ len (tabs m) ≤ activeTab m)
  then None
  else tabs m !! Z.to_nat (activeTab m).

(** A statement that writes through the pointer [currentTab] returned:
    the tab at [activeTab] becomes [f] of what it is at that moment. *)
Definition on_tab (f : Tab → Tab) (m : Model) : Model :=
  match currentTab m with
  | Some tab => set_tabs (<[Z.to_nat (activeTab m) := f tab]> (tabs m)) m
  | None => m
  end.

(** The same for a statement that calls a method of the buffer. *)
Definition on_tab_go (f : Tab → go Tab) (m : Model) : go Model :=
  match currentTab m with
  | Some tab =>
      tab' ← f tab;
      Ret (set_tabs (<[Z.to_nat (activeTab m) := tab']> (tabs m)) m)
  | None => Ret m
  end.

(** *** Cursor and selection *)

Definition clearSelection (m : Model) : Model :=
  on_tab (set_Active false) m.

Definition visibleRows (m : Model) : Z :=
  let rows := sub64 (height m) 10 in
  if bool_decide (rows < 1) then 1 else rows.

Definition ensureCursorVisible (m : Model) : Model :=
  match currentTab m with
  | None => m
  | Some tab =>
      let visRows := visibleRows m in
      let cursorRow := Cursor tab `quot` bytesPerRow in
      if bool_decide (cursorRow < ScrollY tab)
      then on_tab (set_ScrollY cursorRow) m
      else if bool_decide (add64 (ScrollY tab) visRows ≤ cursorRow)
      then on_tab (set_ScrollY (add64 (sub64 cursorRow visRows) 1)) m
      else m
  end.

(** The three clamping steps [moveCursor], [setCursor] and [selectMove]
    share: not below 0, not above [max(size-1, 0)]. *)
Definition clampPos (pos : Z) (tab : Tab) : Z :=
  let pos := if bool_decide (pos < 0) then 0 else pos in
  let maxPos := sub64 (Size (Buffer_ tab)) 1 in
  let maxPos := if bool_decide (maxPos < 0) then 0 else maxPos in
  if bool_decide (maxPos < pos) then maxPos else pos.

Definition moveCursor (delta : Z) (clearSel : bool) (m : Model) : Model :=
  match currentTab m with
  | None => m
  | Some tab =>
      let m := if clearSel || negb (Active (Selection tab))
               then clearSelection m else m in
      let m := on_tab (λ tab, set_Cursor (clampPos (add64 (Cursor tab) delta) tab) tab) m in
      ensureCursorVisible m
  end.

Definition setCursor (pos : Z) (m : Model) : Model :=
  match currentTab m with
  | None => m
  | Some _ =>
      let m := clearSelection m in
      let m := on_tab (λ tab, set_Cursor (clampPos pos tab) tab) m in
      ensureCursorVisible m
  end.

Definition selectMove (delta : Z) (m : Model) : Model :=
  match currentTab m with
  | None => m
  | Some tab =>
      let m := if negb (Active (Selection tab))
               then on_tab (λ tab,
                      set_Selection {| Active := true; Start := Cursor tab;
                                       End_ := Cursor tab |} tab) m
               else m in
      let m := on_tab (λ tab,
                 let newPos := clampPos (add64 (Cursor tab) delta) tab in
                 set_End newPos (set_Cursor newPos tab)) m in
      ensureCursorVisible m
  end.

Definition getSelectedRange (m : Model) : Z * Z :=
  match currentTab m with
  | None => (-1, -1)
  | Some tab =>
      if negb (Active (Selection tab)) then (-1, -1)
      else
        let start := Start (Selection tab) in
        let end_ := End_ (Selection tab) in
        if bool_decide (end_ < start) then (end_, start) else (start, end_)
  end.

(** *** Tabs *)

Definition nextTab (m : Model) : Model :=
  if bool_decide (1 < len (tabs m))
  then set_activeTab (add64 (activeTab m) 1 `rem` len (tabs m)) m
  else m.

Definition prevTab (m : Model) : Model :=
  if bool_decide (1 < len (tabs m))
  then set_activeTab
         (add64 (sub64 (activeTab m) 1) (len (tabs m)) `rem` len (tabs m)) m
  else m.

(** *** Clipboard *)

Definition copy (m : Model) : go Model :=
  match currentTab m with
  | None => Ret m
  | Some tab =>
      if Active (Selection tab)
      then
        let '(start, end_) := getSelectedRange m in
        clip ← GetBytes start (add64 (sub64 end_ start) 1) (Buffer_ tab);
        Ret (set_clipboard clip m)
      else
        '(b, ok) ← GetByte (Cursor tab) (Buffer_ tab);
        if ok : bool then Ret (set_clipboard [b] m) else Ret m
  end.

Definition delete (backspace : bool) (m : Model) : go Model :=
  match currentTab m with
  | None => Ret m
  | Some tab =>
      if bool_decide (mode m ≠ ModeNormal) then Ret m
      else
        m ← (if Active (Selection tab)
             then
               let '(start, end_) := getSelectedRange m in
               m ← on_tab_go (λ tab,
                      b ← Delete start (add64 (sub64 end_ start) 1) (Buffer_ tab);
                      Ret (set_Cursor start (set_Buffer b tab))) m;
               Ret (clearSelection m)
             else if backspace
             then
               if bool_decide (0 < Cursor tab)
               then on_tab_go (λ tab,
                      b ← Delete (sub64 (Cursor tab) 1) 1 (Buffer_ tab);
                      Ret (set_Cursor (sub64 (Cursor tab) 1) (set_Buffer b tab))) m
               else Ret m
             else
               if bool_decide (Cursor tab < Size (Buffer_ tab))
               then on_tab_go (λ tab,
                      b ← Delete (Cursor tab) 1 (Buffer_ tab);
                      Ret (set_Buffer b tab)) m
               else Ret m);
        let m := on_tab (λ tab,
                   if bool_decide (Size (Buffer_ tab) ≤ Cursor tab
                                   ∧ 0 < Size (Buffer_ tab))
                   then set_Cursor (sub64 (Size (Buffer_ tab)) 1) tab
                   else tab) m in
        let m := on_tab (λ tab,
                   if bool_decide (Cursor tab < 0) then set_Cursor 0 tab else tab) m in
        Ret m
  end.

Definition cut (m : Model) : go Model :=
  m ← copy m;
  delete false m.


(** *** Hex input *)

Definition isHexChar (s : list byte) : bool :=
  match s with
  | [c] =>
      bool_decide ((b2z "0" ≤ b2z c ∧ b2z c ≤ b2z "9")
                   ∨ (b2z "a" ≤ b2z c ∧ b2z c ≤ b2z "f")
                   ∨ (b2z "A" ≤ b2z c ∧ b2z c ≤ b2z "F"))
  | _ => false
  end.

Definition hexCharToNibble (s : list byte) : go byte :=
  c ← index s 0;
  if bool_decide (b2z "0" ≤ b2z c ∧ b2z c ≤ b2z "9")
  then Ret (z2b (b2z c - b2z "0"))
  else if bool_decide (b2z "a" ≤ b2z c ∧ b2z c ≤ b2z "f")
  then Ret (z2b (b2z c - b2z "a" + 10))
  else if bool_decide (b2z "A" ≤ b2z c ∧ b2z c ≤ b2z "F")
  then Ret (z2b (b2z c - b2z "A" + 10))
  else Ret x00.

(** [if b, ok := tab.Buffer.GetByte(tab.Cursor); ok { tab.Buffer.Replace(tab.Cursor, f(b)) }] *)
Definition replace_at_cursor (f : byte → byte) (tab : Tab) : go Tab :=
  '(b, ok) ← GetByte (Cursor tab) (Buffer_ tab);
  if ok : bool
  then b' ← Replace (Cursor tab) (f b) (Buffer_ tab); Ret (set_Buffer b' tab)
  else Ret tab.

Definition handleHexInput (char : list byte) (m : Model) : go Model :=
  match currentTab m with
  | None => Ret m
  | Some tab =>
      nibble ← hexCharToNibble char;
      m ← (if bool_decide (mode m = ModeInsert)
           then
             if bool_decide (hexNibble m = 0)
             then
               m ← on_tab_go (λ tab,
                      b ← Insert (Cursor tab) [z2b (Z.shiftl (b2z nibble) 4)] (Buffer_ tab);
                      Ret (set_Buffer b tab)) m;
               Ret (set_hexNibble 1 m)
             else
               m ← on_tab_go (replace_at_cursor (λ b,
                      z2b (Z.lor (Z.land (b2z b) 240) (b2z nibble)))) m;
               let m := set_hexNibble 0 m in
               let m := on_tab (λ tab, set_Cursor (add64 (Cursor tab) 1) tab) m in
               Ret (on_tab (λ tab,
                      if bool_decide (Size (Buffer_ tab) < Cursor tab)
                      then set_Cursor (Size (Buffer_ tab)) tab else tab) m)
           else if bool_decide (mode m = ModeReplace)
           then
             if bool_decide (Size (Buffer_ tab) ≤ Cursor tab)
             then
               m ← on_tab_go (λ tab,
                      b ← Insert (Size (Buffer_ tab))
                            [z2b (Z.shiftl (b2z nibble) 4)] (Buffer_ tab);
                      Ret (set_Buffer b tab)) m;
               Ret (set_hexNibble 1 m)
             else
               if bool_decide (hexNibble m = 0)
               then
                 m ← on_tab_go (replace_at_cursor (λ b,
                        z2b (Z.lor (Z.shiftl (b2z nibble) 4) (Z.land (b2z b) 15)))) m;
                 Ret (set_hexNibble 1 m)
               else
                 m ← on_tab_go (replace_at_cursor (λ b,
                        z2b (Z.lor (Z.land (b2z b) 240) (b2z nibble)))) m;
                 let m := set_hexNibble 0 m in
                 let m := on_tab (λ tab, set_Cursor (add64 (Cursor tab) 1) tab) m in
                 Ret (on_tab (λ tab,
                        if bool_decide (Size (Buffer_ tab) ≤ Cursor tab)
                        then
                          let tab := set_Cursor (sub64 (Size (Buffer_ tab)) 1) tab in
                          if bool_decide (Cursor tab < 0) then set_Cursor 0 tab else tab
                        else tab) m)
           else Ret m);
      Ret (clearSelection m)
  end.

(** *** The find pattern *)

(** [for i := 0; i < len(s); i += 2] of the hex mode. *)
Fixpoint hex_pattern_loop (budget : nat) (s : list byte) (i : Z)
    (result : list byte) : go (list byte) :=
  if bool_decide (i < len s)
  then match budget with
       | O => Spin
       | S budget' =>
           chunk ← slice s i (add64 i 2);
           let b := strconv_ParseUint chunk 16 8 in
           result ← store result (i `quot` 2) (z2b b);
           hex_pattern_loop budget' s (add64 i 2) result
       end
  else Ret result.

(** [for len(s)%8 != 0 { s = "0" + s }] *)
Fixpoint pad_to_bytes (budget : nat) (s : list byte) : go (list byte) :=
  if bool_decide (len s `rem` 8 ≠ 0)
  then match budget with
       | O => Spin
       | S budget' => pad_to_bytes budget' ("0"%byte :: s)
       end
  else Ret s.

(** [for j := 0; j < 8; j++] of the bits mode, with [left] turns to go and
    the byte [b] built so far. *)
Fixpoint bits_of_byte (left : nat) (s : list byte) (i j : Z) (b : byte) : go byte :=
  match left with
  | O => Ret b
  | S left' =>
      c ← index s (add64 i j);
      let b := if bool_decide (c = "1"%byte)
               then z2b (Z.lor (b2z b) (Z.shiftl 1 (7 - j))) else b in
      bits_of_byte left' s i (j + 1) b
  end.

(** [for i := 0; i < len(s); i += 8] of the bits mode. *)
Fixpoint bits_pattern_loop (budget : nat) (s : list byte) (i : Z)
    (result : list byte) : go (list byte) :=
  if bool_decide (i < len s)
  then match budget with
       | O => Spin
       | S budget' =>
           b ← bits_of_byte 8 s i 0 x00;
           result ← store result (i `quot` 8) b;
           bits_pattern_loop budget' s (add64 i 8) result
       end
  else Ret result.

(** [for i := 0; i < m.findWidth; i++] of the decimal mode.  [i] stays
    below the length of an allocated slice, so [i * 8] is in range; a shift
    of a [uint64] by 64 or more gives 0. *)
Fixpoint decimal_pattern_loop (budget : nat) (bigEndian : bool) (findWidth n : Z)
    (i : Z) (result : list byte) : go (list byte) :=
  if bool_decide (i < findWidth)
  then match budget with
       | O => Spin
       | S budget' =>
           let v := z2b (Z.shiftr n (i * 8)) in
           result ← (if bigEndian
                     then store result (sub64 (sub64 findWidth 1) i) v
                     else store result i v);
           decimal_pattern_loop budget' bigEndian findWidth n (add64 i 1) result
       end
  else Ret result.

Definition getFindPattern (m : Model) : go (list byte) :=
  if bool_decide (findMode m = "hex")
  then
    let s := strings_ReplaceAll_space (findInput m) in
    let s := if bool_decide (len s `rem` 2 ≠ 0) then "0"%byte :: s else s in
    result ← make (len s `quot` 2);
    hex_pattern_loop (length s) s 0 result
  else if bool_decide (findMode m = "bits")
  then
    let s := strings_ReplaceAll_space (findInput m) in
    s ← pad_to_bytes 8 s;
    result ← make (len s `quot` 8);
    bits_pattern_loop (length s) s 0 result
  else if bool_decide (findMode m = "decimal")
  then
    let n := strconv_ParseUint (findInput m) 10 64 in
    result ← make (findWidth m);
    decimal_pattern_loop (Z.to_nat (findWidth m)) (bigEndian m) (findWidth m) n 0 result
  else Ret (findInput m).

Definition doFind (forward : bool) (m : Model) : go Model :=
  match currentTab m with
  | None => Ret m
  | Some tab =>
      if bool_decide (findInput m = []) then Ret m
      else
        pattern ← getFindPattern m;
        let start := Cursor tab in
        let start := if forward then add64 start 1 else start in
        pos ← Find pattern start forward (Buffer_ tab);
        if bool_decide (0 ≤ pos)
        then Ret (ensureCursorVisible (on_tab (set_Cursor pos) m))
        else Ret m
  end.

(** *** The decoder panel *)

(** [for i, b := range bytes { result[len(bytes)-1-i] = b }] *)
Fixpoint reverse_into (bytes : list byte) (i n : Z) (result : list byte)
    : go (list byte) :=
  match bytes with
  | [] => Ret result
  | b :: rest =>
      result ← store result (sub64 (sub64 n 1) i) b;
      reverse_into rest (i + 1) n result
  end.

Definition getDecoderBytes (count : Z) (m : Model) : go (list byte) :=
  match currentTab m with
  | None => Ret []
  | Some tab =>
      if bigEndian m then GetBytes (Cursor tab) count (Buffer_ tab)
      else
        let start := add64 (sub64 (Cursor tab) count) 1 in
        let start := if bool_decide (start < 0) then 0 else start in
        bytes ← GetBytes start (add64 (sub64 (Cursor tab) start) 1) (Buffer_ tab);
        result ← make (len bytes);
        reverse_into bytes 0 (len bytes) result
  end.

End editor.

(** ** Vocabulary for the editor *)

(** The model with [t] in the place of the current tab. *)
Definition put (t : editor.Tab) (m : editor.Model) : editor.Model :=
  editor.set_tabs (<[Z.to_nat (editor.activeTab m) := t]> (editor.tabs m)) m.

(** The bounds [moveCursor], [setCursor] and [selectMove] keep the cursor
    in. *)
Definition cursor_in_range (t : editor.Tab) : Prop :=
  0 ≤ editor.Cursor t ≤ Z.max 0 (Size (editor.Buffer_ t) - 1).

(** The row of the cursor lies in the window of [visibleRows] rows that
    starts at row [ScrollY]. *)
Definition cursor_visible (m : editor.Model) (t : editor.Tab) : Prop :=
  editor.ScrollY t ≤ editor.Cursor t `quot` editor.bytesPerRow
                   < editor.ScrollY t + editor.visibleRows m.

(** What [ensureCursorVisible] needs to compute without overflow. *)
Definition scroll_in_range (m : editor.Model) (t : editor.Tab) : Prop :=
  int64_range (editor.Cursor t) ∧ - 2 ^ 62 ≤ editor.ScrollY t ≤ 2 ^ 62 ∧
  - 2 ^ 62 ≤ editor.height m ≤ 2 ^ 62.

(** Two hex digits at a time, as the hex mode of [getFindPattern] reads
    them. *)
Fixpoint hex_pairs (s : list byte) : list byte :=
  match s with
  | a :: b :: rest => z2b (strconv_ParseUint [a; b] 16 8) :: hex_pairs rest
  | _ => []
  end.

(** *** Sample models *)

Definition sample_tab (s : string) (c : Z) : editor.Tab :=
  {| editor.Buffer_ := buffer_of s; editor.Cursor := c; editor.ScrollY := 0;
     editor.Selection := {| editor.Active := false; editor.Start := 0;
                            editor.End_ := 0 |} |}.

(** One tab holding [s] with the cursor at [c], in the given mode, with the
    given clipboard and find input. *)
Definition sample_model (s : string) (c : Z) (md : editor.EditMode)
    (clip : list byte) (fmode : string) (finput : list byte) (be : bool)
    : editor.Model :=
  {| editor.tabs := [sample_tab s c]; editor.activeTab := 0; editor.mode := md;
     editor.view := editor.ViewMain; editor.bigEndian := be;
     editor.clipboard := clip; editor.hexNibble := 0; editor.width := 80;
     editor.height := 24; editor.newFileCount := 0; editor.findInput := finput;
     editor.findMode := fmode; editor.findWidth := 2; editor.findMatches := 0;
     editor.gotoInput := []; editor.saveAsInput := [];
     editor.confirmAction := ""; editor.statusMsg := "" |}.

(** Two tabs, the second one current. *)
Definition two_tabs : editor.Model :=
  editor.set_activeTab 1
    (editor.set_tabs [sample_tab "abc" 0; sample_tab "xyz" 1]
       (sample_model "abc" 0 editor.ModeNormal [] "ascii" [] true)).

(** * Properties *)

(** ** Machine integers and slices *)

Lemma maxAlloc_eq : maxAlloc = 281474976710656.
Proof. reflexivity. Qed.

Lemma wrap64_id z : -9223372036854775808 ≤ z ≤ 9223372036854775807 → wrap64 z = z.
Proof.
  intros H. unfold wrap64.
  change (2 ^ 63) with 9223372036854775808.
  change (2 ^ 64) with 18446744073709551616.
  rewrite Z.mod_small; lia.
Qed.

Lemma add64_id a b :
  -9223372036854775808 ≤ a + b ≤ 9223372036854775807 → add64 a b = a + b.
Proof. apply wrap64_id. Qed.

Lemma sub64_id a b :
  -9223372036854775808 ≤ a - b ≤ 9223372036854775807 → sub64 a b = a - b.
Proof. apply wrap64_id. Qed.

Lemma len_nonneg {A} (s : list A) : 0 ≤ len s.
Proof. unfold len. lia. Qed.

Lemma len_nil {A} : len (@nil A) = 0.
Proof. reflexivity. Qed.

Lemma len_cons {A} (x : A) s : len (x :: s) = len s + 1.
Proof. unfold len. cbn [length]. lia. Qed.

Lemma len_app {A} (s t : list A) : len (s ++ t) = len s + len t.
Proof. unfold len. rewrite length_app. lia. Qed.

Lemma length_copy {A} (dst src : list A) : length (copy dst src) = length dst.
Proof. unfold copy. rewrite length_app, length_take, length_drop. lia. Qed.

Lemma copy_replicate {A} (n : nat) (x : A) src :
  (length src ≤ n)%nat → copy (replicate n x) src = src ++ replicate (n - length src) x.
Proof.
  intros H. unfold copy.
  rewrite length_replicate, take_ge by lia.
  by rewrite drop_replicate.
Qed.

Lemma copy_exact {A} (dst src : list A) : length dst = length src → copy dst src = src.
Proof.
  intros H. unfold copy.
  rewrite take_ge, drop_ge by lia. apply app_nil_r.
Qed.

Lemma make_Ret n :
  0 ≤ n ≤ maxAlloc → make n = Ret (replicate (Z.to_nat n) x00).
Proof. intros H. unfold make. by rewrite bool_decide_eq_true_2. Qed.

Lemma slice_hi_Ret {A} (s : list A) hi :
  0 ≤ hi ≤ len s → slice_hi s hi = Ret (take (Z.to_nat hi) s).
Proof. intros H. unfold slice_hi. by rewrite bool_decide_eq_true_2. Qed.

Lemma slice_lo_Ret {A} (s : list A) lo :
  0 ≤ lo ≤ len s → slice_lo s lo = Ret (drop (Z.to_nat lo) s).
Proof. intros H. unfold slice_lo. by rewrite bool_decide_eq_true_2. Qed.

Lemma slice_Ret {A} (s : list A) lo hi :
  0 ≤ lo ≤ hi → hi ≤ len s →
  slice s lo hi = Ret (take (Z.to_nat (hi - lo)) (drop (Z.to_nat lo) s)).
Proof. intros H1 H2. unfold slice. by rewrite bool_decide_eq_true_2. Qed.

Lemma index_Ret {A} (s : list A) i x :
  0 ≤ i → s !! Z.to_nat i = Some x → index s i = Ret x.
Proof.
  intros H1 H2. unfold index. rewrite bool_decide_eq_true_2 by done. by rewrite H2.
Qed.

Lemma store_Ret {A} (s : list A) i v :
  0 ≤ i < len s → store s i v = Ret (<[Z.to_nat i := v]> s).
Proof. intros H. unfold store. by rewrite bool_decide_eq_true_2. Qed.

Ltac len_solve :=
  unfold fits, len in *;
  rewrite ?length_app, ?length_copy, ?length_take, ?length_drop,
    ?length_replicate, ?length_insert;
  cbn [length] in *; lia.

(** Writing [src] behind an already written prefix [pre]. *)
Lemma copy_at_app {A} (pre tl : list A) lo src :
  lo = len pre →
  copy_at (pre ++ tl) lo (Ret src) = Ret (pre ++ copy tl src).
Proof.
  intros ->. unfold copy_at, len.
  rewrite slice_lo_Ret by (unfold len; rewrite length_app; lia).
  cbn. rewrite Nat2Z.id, take_app_length, drop_app_length. done.
Qed.

Lemma splice_code {B} d off new (k : list byte → go B) :
  0 ≤ off ≤ len d → len d + len new ≤ maxAlloc →
  (newData ← make (add64 (len d) (len new));
   head ← slice_hi d off;
   let newData := copy newData head in
   newData ← copy_at newData off (Ret new);
   newData ← copy_at newData (add64 off (len new)) (slice_lo d off);
   k newData)
  = k (spliced off new d).
Proof.
  intros Hoff Hfit. pose proof maxAlloc_eq as HM.
  pose proof (len_nonneg new) as Hn.
  rewrite !add64_id by lia.
  rewrite make_Ret by lia. cbn [mbind go_bind].
  rewrite slice_hi_Ret by lia. cbn [mbind go_bind].
  rewrite copy_replicate by len_solve.
  rewrite copy_at_app by len_solve.
  cbn [mbind go_bind].
  rewrite copy_replicate by len_solve.
  rewrite (app_assoc _ new).
  unfold copy_at.
  rewrite !slice_lo_Ret by len_solve. cbn [mbind go_bind].
  f_equal. unfold spliced.
  rewrite take_app_length', drop_app_length' by len_solve.
  rewrite copy_exact; [by rewrite <- app_assoc|].
  len_solve.
Qed.

Lemma cut_code {B} d off n (k : list byte → go B) :
  0 ≤ off → 0 ≤ n → off + n ≤ len d → len d ≤ maxAlloc →
  (newData ← make (sub64 (len d) n);
   head ← slice_hi d off;
   let newData := copy newData head in
   newData ← copy_at newData off (slice_lo d (add64 off n));
   k newData)
  = k (cut off n d).
Proof.
  intros Hoff Hn Hle Hfit. pose proof maxAlloc_eq as HM.
  rewrite add64_id, sub64_id by lia.
  rewrite make_Ret by lia. cbn [mbind go_bind].
  rewrite slice_hi_Ret by lia. cbn [mbind go_bind].
  rewrite copy_replicate by len_solve.
  unfold copy_at.
  rewrite !slice_lo_Ret by len_solve. cbn [mbind go_bind].
  f_equal. unfold cut.
  rewrite take_app_length', drop_app_length' by len_solve.
  rewrite copy_exact; [done|].
  len_solve.
Qed.

(** ** Closed forms of the three edits *)

Lemma Insert_Ret offset new b :
  len (data b) + len new ≤ maxAlloc →
  Insert offset new b =
  Ret (edited b (spliced (clamped offset b) new (data b))
         (mkOperation OpInsert (clamped offset b) [] new)).
Proof.
  intros Hfit. unfold Insert.
  pose proof (len_nonneg (data b)) as Hd. pose proof (len_nonneg new) as Hn.
  set (c := if bool_decide (len (data b) < _) then _ else _).
  assert (c = clamped offset b) as ->.
  { subst c. unfold clamped. repeat case_bool_decide; lia. }
  assert (0 ≤ clamped offset b ≤ len (data b)) by (unfold clamped; lia).
  pose proof maxAlloc_eq as HM.
  rewrite (make_Ret (len new)) by lia. cbn [mbind go_bind].
  rewrite copy_exact by len_solve.
  by rewrite splice_code by lia.
Qed.

Lemma Delete_noop offset count b :
  offset < 0 ∨ len (data b) ≤ offset ∨ count ≤ 0 → Delete offset count b = Ret b.
Proof. intros H. unfold Delete. by rewrite bool_decide_eq_true_2. Qed.

Lemma Delete_Ret offset count b :
  fits (data b) → 0 ≤ offset < len (data b) → 0 < count →
  offset + count ≤ MaxInt64 →
  Delete offset count b =
  Ret (edited b (cut offset (deleted offset count b) (data b))
         (mkOperation OpDelete offset
            (take (Z.to_nat (deleted offset count b))
               (drop (Z.to_nat offset) (data b))) [])).
Proof.
  intros Hfit Hoff Hcnt Hov. unfold Delete, MaxInt64 in *.
  pose proof maxAlloc_eq as HM. unfold fits in Hfit.
  rewrite bool_decide_eq_false_2 by lia.
  rewrite (add64_id offset count) by lia.
  rewrite sub64_id by lia.
  set (n := if bool_decide (len (data b) < _) then _ else _).
  assert (n = deleted offset count b) as ->.
  { subst n. unfold deleted. case_bool_decide; lia. }
  assert (0 < deleted offset count b ≤ len (data b) - offset) by (unfold deleted; lia).
  rewrite (make_Ret (deleted offset count b)) by lia. cbn [mbind go_bind].
  rewrite add64_id by lia.
  rewrite slice_Ret by lia. cbn [mbind go_bind].
  rewrite copy_exact by len_solve.
  rewrite <- (add64_id offset (deleted offset count b)) by lia.
  rewrite (cut_code (data b) offset (deleted offset count b)) by lia.
  rewrite (add64_id offset (deleted offset count b)) by lia.
  unfold edited. by replace (offset + deleted offset count b - offset)
    with (deleted offset count b) by lia.
Qed.

Lemma Replace_noop offset newByte b :
  offset < 0 ∨ len (data b) ≤ offset → Replace offset newByte b = Ret b.
Proof. intros H. unfold Replace. by rewrite bool_decide_eq_true_2. Qed.

Lemma Replace_Ret offset newByte b old :
  0 ≤ offset → data b !! Z.to_nat offset = Some old →
  Replace offset newByte b =
  Ret (edited b (<[Z.to_nat offset := newByte]> (data b))
         (mkOperation OpReplace offset [old] [newByte])).
Proof.
  intros Hoff Hold. unfold Replace.
  pose proof (lookup_lt_Some _ _ _ Hold) as Hlt.
  rewrite bool_decide_eq_false_2 by (unfold len; lia).
  rewrite (index_Ret _ _ old) by done. cbn [mbind go_bind].
  by rewrite store_Ret by (unfold len; lia).
Qed.

(** ** An Operation and the two contents it relates *)

Lemma cut_spliced off new X :
  0 ≤ off ≤ len X → cut off (len new) (spliced off new X) = X.
Proof.
  intros H. unfold cut, spliced.
  rewrite take_app_length' by len_solve.
  rewrite app_assoc, drop_app_length' by len_solve.
  apply take_drop.
Qed.

Lemma spliced_cut off n X :
  0 ≤ off → 0 ≤ n → off + n ≤ len X →
  spliced off (take (Z.to_nat n) (drop (Z.to_nat off) X)) (cut off n X) = X.
Proof.
  intros H1 H2 H3. unfold cut, spliced.
  rewrite take_app_length', drop_app_length' by len_solve.
  rewrite Z2Nat.inj_add, <- drop_drop by lia.
  by rewrite take_drop, take_drop.
Qed.

Lemma len_spliced off new X :
  0 ≤ off ≤ len X → len (spliced off new X) = len X + len new.
Proof. intros H. unfold spliced. len_solve. Qed.

Lemma len_cut off n X :
  0 ≤ off → 0 ≤ n → off + n ≤ len X → len (cut off n X) = len X - n.
Proof. intros H1 H2 H3. unfold cut. len_solve. Qed.

Lemma links_Insert off new X :
  0 ≤ off ≤ len X → len X + len new ≤ maxAlloc →
  links (mkOperation OpInsert off [] new) X (spliced off new X).
Proof.
  intros Hoff Hfit. pose proof (len_nonneg new) as Hn.
  pose proof (len_spliced off new X Hoff) as Hl.
  unfold links, fits. split_and!; [lia | lia | | |].
  - unfold Redo_switch. cbn [Type_ Offset NewData OldData].
    by rewrite splice_code by lia.
  - unfold Undo_switch. cbn [Type_ Offset NewData OldData].
    rewrite cut_code by lia. by rewrite cut_spliced.
  - unfold reverse_applied. cbn [Type_ Offset NewData OldData].
    by apply cut_spliced.
Qed.

Lemma links_Delete off n X :
  fits X → 0 ≤ off → 0 ≤ n → off + n ≤ len X →
  links (mkOperation OpDelete off (take (Z.to_nat n) (drop (Z.to_nat off) X)) [])
    X (cut off n X).
Proof.
  intros Hfit Hoff Hn Hle. unfold fits in Hfit.
  pose proof (len_cut off n X Hoff Hn Hle) as Hl.
  assert (len (take (Z.to_nat n) (drop (Z.to_nat off) X)) = n) as Hold by len_solve.
  unfold links, fits. split_and!; [lia | lia | | |].
  - unfold Redo_switch. cbn [Type_ Offset NewData OldData].
    rewrite Hold. by rewrite cut_code by lia.
  - unfold Undo_switch. cbn [Type_ Offset NewData OldData].
    rewrite splice_code by lia. by rewrite spliced_cut.
  - unfold reverse_applied. cbn [Type_ Offset NewData OldData].
    by apply spliced_cut.
Qed.

Lemma links_Replace off old new X :
  fits X → 0 ≤ off → X !! Z.to_nat off = Some old →
  links (mkOperation OpReplace off [old] [new]) X (<[Z.to_nat off := new]> X).
Proof.
  intros Hfit Hoff Hold. pose proof (lookup_lt_Some _ _ _ Hold) as Hlt.
  unfold links, fits in *. split_and!; [done | len_solve | | |].
  - unfold Redo_switch. cbn [Type_ Offset NewData OldData].
    rewrite (index_Ret _ _ new) by done. cbn [mbind go_bind].
    by rewrite store_Ret by len_solve.
  - unfold Undo_switch. cbn [Type_ Offset NewData OldData].
    rewrite (index_Ret _ _ old) by done. cbn [mbind go_bind].
    rewrite store_Ret by len_solve.
    by rewrite list_insert_insert_eq, list_insert_id.
  - unfold reverse_applied. cbn [Type_ Offset NewData OldData].
    by rewrite list_insert_insert_eq, list_insert_id.
Qed.

(** ** The undo/redo log *)

Lemma Undo_empty b : undoStack b = [] → Undo b = Ret (false, b).
Proof. intros H. unfold Undo. by rewrite H. Qed.

Lemma Undo_pop b ops op X :
  undoStack b = ops ++ [op] → Undo_switch op (data b) = Ret X →
  Undo b = Ret (true, undone b ops op X).
Proof.
  intros Hstack Hsw. unfold Undo. rewrite Hstack.
  rewrite bool_decide_eq_false_2 by len_solve.
  rewrite (index_Ret _ _ op).
  - cbn [mbind go_bind]. rewrite slice_hi_Ret by len_solve.
    cbn [mbind go_bind]. rewrite Hsw. cbn [mbind go_bind].
    unfold undone. do 3 f_equal.
    all: rewrite take_app_length' by len_solve; done.
  - len_solve.
  - rewrite lookup_app_r by len_solve.
    by replace (_ - _)%nat with 0%nat by len_solve.
Qed.

Lemma Redo_empty b : redoStack b = [] → Redo b = Ret (false, b).
Proof. intros H. unfold Redo. by rewrite H. Qed.

Lemma Redo_pop b ops op Y :
  redoStack b = ops ++ [op] → Redo_switch op (data b) = Ret Y →
  Redo b = Ret (true, redone b ops op Y).
Proof.
  intros Hstack Hsw. unfold Redo. rewrite Hstack.
  rewrite bool_decide_eq_false_2 by len_solve.
  rewrite (index_Ret _ _ op).
  - cbn [mbind go_bind]. rewrite slice_hi_Ret by len_solve.
    cbn [mbind go_bind]. rewrite Hsw. cbn [mbind go_bind].
    unfold redone. do 3 f_equal.
    rewrite take_app_length' by len_solve; done.
  - len_solve.
  - rewrite lookup_app_r by len_solve.
    by replace (_ - _)%nat with 0%nat by len_solve.
Qed.

(** ** What a returning edit tells about its arguments *)

Lemma make_Ret_inv n s : make n = Ret s → 0 ≤ n ≤ maxAlloc.
Proof. unfold make. by case_bool_decide. Qed.

Lemma Insert_inv offset new b b' :
  fits (data b) → Insert offset new b = Ret b' →
  len (data b) + len new ≤ maxAlloc.
Proof.
  unfold fits, Insert. intros Hfit H. pose proof maxAlloc_eq as HM.
  pose proof (len_nonneg (data b)). pose proof (len_nonneg new).
  destruct (make (len new)) as [s| |] eqn:E1; try done.
  apply make_Ret_inv in E1. cbn [mbind go_bind] in H.
  rewrite (add64_id (len (data b)) (len new)) in H by lia.
  destruct (make (len (data b) + len new)) as [s'| |] eqn:E2; try done.
  apply make_Ret_inv in E2. lia.
Qed.

Lemma Delete_inv offset count b b' :
  fits (data b) → int64_range offset → int64_range count →
  Delete offset count b = Ret b' →
  b' = b ∨ (0 ≤ offset < len (data b) ∧ 0 < count ∧ offset + count ≤ MaxInt64).
Proof.
  unfold fits, int64_range, MinInt64, MaxInt64. intros Hfit Ho Hc H.
  pose proof maxAlloc_eq as HM.
  destruct (decide (offset < 0 ∨ len (data b) ≤ offset ∨ count ≤ 0)) as [Hn|Hn].
  { rewrite Delete_noop in H by done. left. congruence. }
  right. split_and!; [lia..|].
  destruct (decide (offset + count ≤ 2 ^ 63 - 1)) as [|Hov]; [done|exfalso].
  unfold Delete in H. rewrite bool_decide_eq_false_2 in H by done.
  assert (add64 offset count = offset + count - 18446744073709551616) as Hw.
  { unfold add64, wrap64. change (2 ^ 63) with 9223372036854775808.
    change (2 ^ 64) with 18446744073709551616.
    replace (offset + count + 9223372036854775808)
      with (offset + count - 9223372036854775808 + 1 * 18446744073709551616) by lia.
    rewrite Z.mod_add by lia. rewrite Z.mod_small; lia. }
  rewrite Hw in H. rewrite bool_decide_eq_false_2 in H by lia.
  destruct (make count) as [s| |] eqn:E; try done.
  apply make_Ret_inv in E. lia.
Qed.

(** ** Reachable buffers are consistent *)

Lemma History_length ops ps cur : History ops ps cur → length ps = length ops.
Proof. induction 1; [done|]. rewrite !length_app. cbn. lia. Qed.

Lemma shadow_push b b' ps op :
  undoStack b' = undoStack b ++ [op] → shadow b b' ps = ps ++ [data b].
Proof.
  intros H. unfold shadow. rewrite H, length_app. cbn [length].
  by rewrite bool_decide_eq_true_2 by lia.
Qed.

Lemma shadow_keep b b' ps cur :
  History (undoStack b) ps cur → undoStack b' = undoStack b →
  shadow b b' ps = ps.
Proof.
  intros Hh H. unfold shadow. rewrite H.
  rewrite bool_decide_eq_false_2 by lia.
  apply take_ge. by rewrite (History_length _ _ _ Hh).
Qed.

Lemma shadow_pop b b' ops op ps prior cur :
  History ops ps cur → undoStack b = ops ++ [op] → undoStack b' = ops →
  shadow b b' (ps ++ [prior]) = ps.
Proof.
  intros Hh H1 H2. unfold shadow. rewrite H1, H2, length_app. cbn [length].
  rewrite bool_decide_eq_false_2 by lia.
  rewrite <- (History_length _ _ _ Hh). apply take_app_length.
Qed.

Lemma shadow_clear b b' ps : undoStack b' = [] → shadow b b' ps = [].
Proof.
  intros H. unfold shadow. rewrite H. cbn [length].
  by rewrite bool_decide_eq_false_2 by lia.
Qed.

Lemma consistent_edited Sum256 b g d op :
  consistent Sum256 b g → links op (data b) d →
  consistent Sum256 (edited b d op) (after b (edited b d op) g).
Proof.
  intros (Hfit & Hh & Hf & Hhash) Hl. unfold consistent, after.
  cbn [data undoStack redoStack originalHash priors synced].
  rewrite (shadow_push _ _ _ op) by done.
  split_and!; [apply Hl | by eapply History_snoc | constructor | done].
Qed.

Lemma consistent_same Sum256 b g :
  consistent Sum256 b g → consistent Sum256 b (after b b g).
Proof.
  intros (Hfit & Hh & Hf & Hhash). unfold consistent, after.
  cbn [priors synced]. by rewrite (shadow_keep _ _ _ _ Hh).
Qed.

Lemma Reach_consistent Sum256 b g : Reach Sum256 b g → consistent Sum256 b g.
Proof.
  induction 1 as
    [ | disk name b HO Hfit | b g name _ IH
    | b g offset new b' _ IH Hr HI | b g offset count b' _ IH Hro Hrc HD
    | b g offset newByte b' _ IH Hr HR
    | b g r b' _ IH HU | b g r b' _ IH HR
    | b g disk disk' b' err _ IH HS | b g disk name disk' b' err _ IH HS ].
  - repeat split; try constructor. unfold fits, len. cbn. by rewrite maxAlloc_eq.
  - unfold Open in HO.
    destruct (os_Open disk name) as [|f]; [done|].
    destruct (ReadAll f) as [|d]; [done|].
    injection HO as <-. repeat split; try constructor; done.
  - destruct IH as (? & ? & ? & ?). by repeat split.
  - pose proof IH as (Hfit & _).
    pose proof (Insert_inv _ _ _ _ Hfit HI) as Hb.
    rewrite Insert_Ret in HI by done. injection HI as <-.
    apply consistent_edited; [done|].
    apply links_Insert; [|done]. unfold clamped.
    pose proof (len_nonneg (data b)). lia.
  - pose proof IH as (Hfit & _).
    destruct (Delete_inv _ _ _ _ Hfit Hro Hrc HD) as [->|(Ho & Hc & Hov)].
    { by apply consistent_same. }
    rewrite Delete_Ret in HD by done. injection HD as <-.
    apply consistent_edited; [done|].
    apply links_Delete; unfold deleted; [done|lia..].
  - pose proof IH as (Hfit & _).
    destruct (decide (offset < 0 ∨ len (data b) ≤ offset)) as [Hn|Hn].
    { rewrite Replace_noop in HR by done. injection HR as <-.
      by apply consistent_same. }
    destruct (lookup_lt_is_Some_2 (data b) (Z.to_nat offset)) as [old Hold].
    { unfold len in Hn. lia. }
    rewrite (Replace_Ret _ _ _ old) in HR by (done || lia). injection HR as <-.
    apply consistent_edited; [done|].
    apply links_Replace; [done|lia|done].
  - pose proof IH as (Hfit & Hh & Hf & Hhash).
    inversion Hh as [cur Hs Hp|ops ps prev op cur Hh' Hl Hs Hp]; subst cur.
    { rewrite Undo_empty in HU by done. injection HU as <- <-.
      by apply consistent_same. }
    pose proof Hl as (Hfp & _ & Hre & Hun & _).
    rewrite (Undo_pop _ ops op prev) in HU by done. injection HU as <- <-.
    unfold consistent, after. cbn [data undoStack redoStack originalHash priors synced].
    rewrite <- Hp.
    rewrite (shadow_pop _ _ ops op ps prev prev) by done.
    split_and!; [done|done| |done].
    by eapply Future_snoc.
  - pose proof IH as (Hfit & Hh & Hf & Hhash).
    inversion Hf as [cur Hs|ops op cur next Hl Hf' Hs]; subst cur.
    { rewrite Redo_empty in HR by done. injection HR as <- <-.
      by apply consistent_same. }
    pose proof Hl as (_ & Hfn & Hre & Hun & _).
    rewrite (Redo_pop _ ops op next) in HR by done. injection HR as <- <-.
    unfold consistent, after. cbn [data undoStack redoStack originalHash priors synced].
    rewrite (shadow_push _ _ _ op) by done.
    split_and!; [done| |done|done].
    by eapply History_snoc.
  - pose proof IH as (Hfit & Hh & Hf & Hhash).
    unfold Save in HS. case_bool_decide.
    { injection HS as <- <- <-. by apply consistent_same. }
    destruct (os_WriteFile disk (filename b) (data b)) as [d' [e|]].
    { injection HS as <- <- <-. by apply consistent_same. }
    injection HS as <- <- <-.
    unfold consistent, after_save.
    cbn [data undoStack redoStack originalHash priors synced].
    rewrite shadow_clear by done.
    split_and!; [done|constructor|constructor|done].
  - pose proof IH as (Hfit & Hh & Hf & Hhash).
    unfold SaveAs, Save in HS. cbn [filename data] in HS. case_bool_decide.
    { injection HS as <- <- <-. unfold consistent, after_save.
      cbn [data undoStack redoStack originalHash priors synced].
      by rewrite (shadow_keep _ _ _ _ Hh). }
    destruct (os_WriteFile disk name (data b)) as [d' [e|]].
    { injection HS as <- <- <-. unfold consistent, after_save.
      cbn [data undoStack redoStack originalHash priors synced].
      by rewrite (shadow_keep _ _ _ _ Hh). }
    injection HS as <- <- <-.
    unfold consistent, after_save.
    cbn [data undoStack redoStack originalHash priors synced].
    rewrite shadow_clear by done.
    split_and!; [done|constructor|constructor|done].
Qed.

(** ** The loop of ReplaceBytes *)

Lemma ReplaceBytes_from_app i offset ds1 ds2 b :
  ReplaceBytes_from i offset (ds1 ++ ds2) b =
  b1 ← ReplaceBytes_from i offset ds1 b;
  ReplaceBytes_from (i + len ds1) offset ds2 b1.
Proof.
  revert i b. induction ds1 as [|d ds1 IH]; intros i b.
  - cbn. by rewrite Z.add_0_r.
  - cbn [app ReplaceBytes_from].
    destruct (ReplaceBytes_body offset i d b) as [b'| |]; cbn [mbind go_bind]; [|done..].
    rewrite IH. by replace (i + 1 + len ds1) with (i + len (d :: ds1)) by len_solve.
Qed.

Lemma ReplaceBytes_body_Ret offset i d b :
  len (data b) + 1 ≤ maxAlloc →
  ∃ b', ReplaceBytes_body offset i d b = Ret b' ∧
        len (data b) ≤ len (data b') ≤ len (data b) + 1 ∧
        (0 ≤ add64 offset i → redoStack b' = []) ∧
        (add64 offset i < 0 → b' = b).
Proof.
  intros Hfit. unfold ReplaceBytes_body.
  pose proof (len_nonneg (data b)) as Hd.
  case_bool_decide as Hpos.
  - rewrite Insert_Ret by (cbn; len_solve).
    eexists. split; [done|]. cbn [edited data redoStack].
    rewrite len_spliced by (unfold clamped; lia).
    split_and!; [len_solve|len_solve|done|intros; lia].
  - destruct (decide (add64 offset i < 0)) as [Hneg|Hneg].
    + rewrite Replace_noop by lia. exists b. split_and!; [done|lia|lia|intros; lia|done].
    + destruct (lookup_lt_is_Some_2 (data b) (Z.to_nat (add64 offset i))) as [old Hold].
      { unfold len in *. lia. }
      rewrite (Replace_Ret _ _ _ old) by (done || lia).
      eexists. split; [done|]. cbn [edited data redoStack].
      split_and!; [len_solve|len_solve|done|intros; lia].
Qed.

Lemma ReplaceBytes_from_Ret offset ds i b :
  len (data b) + len ds ≤ maxAlloc →
  ∃ b', ReplaceBytes_from i offset ds b = Ret b' ∧
        len (data b) ≤ len (data b') ≤ len (data b) + len ds.
Proof.
  revert i b. induction ds as [|d ds IH]; intros i b Hfit.
  - exists b. split; [done|]. len_solve.
  - rewrite len_cons in Hfit. pose proof (len_nonneg ds).
    destruct (ReplaceBytes_body_Ret offset i d b) as (b1 & E1 & Hl1 & _); [lia|].
    destruct (IH (i + 1) b1) as (b2 & E2 & Hl2); [lia|].
    exists b2. cbn [ReplaceBytes_from]. rewrite E1. cbn [mbind go_bind].
    split; [done|]. rewrite len_cons. lia.
Qed.

Lemma ReplaceBytes_from_negative offset ds i b :
  MinInt64 ≤ offset → 0 ≤ i → offset + i + len ds ≤ 0 →
  ReplaceBytes_from i offset ds b = Ret b.
Proof.
  unfold MinInt64. revert i. induction ds as [|d ds IH]; intros i Ho Hi Hneg; [done|].
  rewrite len_cons in Hneg. pose proof (len_nonneg ds). pose proof (len_nonneg (data b)).
  cbn [ReplaceBytes_from]. unfold ReplaceBytes_body.
  rewrite add64_id by lia.
  rewrite bool_decide_eq_false_2 by lia.
  rewrite Replace_noop by lia. cbn [mbind go_bind].
  apply IH; lia.
Qed.

Lemma wrap64_range z : int64_range (wrap64 z).
Proof.
  unfold int64_range, wrap64, MinInt64, MaxInt64.
  change (2 ^ 63) with 9223372036854775808.
  change (2 ^ 64) with 18446744073709551616.
  pose proof (Z.mod_pos_bound (z + 9223372036854775808) 18446744073709551616).
  lia.
Qed.

(** [ReplaceBytes] stays inside the reachable states, and neither opens nor
    saves. *)
Lemma Reach_ReplaceBytes Sum256 b g offset ds b' :
  Reach Sum256 b g → ReplaceBytes offset ds b = Ret b' →
  ∃ g', Reach Sum256 b' g' ∧ synced g' = synced g.
Proof.
  unfold ReplaceBytes. generalize 0 as i. revert b g.
  induction ds as [|d ds IH]; intros b g i HR H.
  - injection H as <-. by exists g.
  - cbn [ReplaceBytes_from] in H.
    destruct (ReplaceBytes_body offset i d b) as [b1| |] eqn:E; [|done..].
    cbn [mbind go_bind] in H.
    assert (Reach Sum256 b1 (after b b1 g)) as HR1.
    { unfold ReplaceBytes_body in E. case_bool_decide.
      - eapply Reach_Insert; [done| |done].
        destruct (Reach_consistent _ _ _ HR) as (Hfit & _).
        unfold fits in Hfit. pose proof (len_nonneg (data b)).
        rewrite maxAlloc_eq in Hfit. unfold int64_range, MinInt64, MaxInt64. lia.
      - eapply Reach_Replace; [done|apply wrap64_range|done]. }
    destruct (IH _ _ _ HR1 H) as (g' & HR' & Hs). by exists g'.
Qed.

(** * The claims *)

(** C1.  In every reachable buffer whose undo stack is not empty, [Undo]
    pops the top Operation, returns [true], pushes that Operation unchanged
    onto the redo stack, and leaves as content the reverse application of
    the Operation to the present content, which is byte for byte the content
    the Operation had been applied to. *)
Theorem Undo_restores_prior Sum256 b g :
  Reach Sum256 b g → undoStack b ≠ [] →
  ∃ ops op ps prior,
    undoStack b = ops ++ [op] ∧
    priors g = ps ++ [prior] ∧
    Undo b = Ret (true, undone b ops op prior) ∧
    prior = reverse_applied op (data b).
Proof.
  intros HR Hne. destruct (Reach_consistent _ _ _ HR) as (Hfit & Hh & _ & _).
  inversion Hh as [cur Hs Hp|ops ps prev op cur Hh' Hl Hs Hp]; subst cur.
  { by destruct Hne. }
  destruct Hl as (_ & _ & _ & Hun & Hrev).
  exists ops, op, ps, prev. split_and!; [done|done| |done].
  by apply Undo_pop.
Qed.

Lemma Reach_inserted_sample : Reach first_byte_digest inserted_sample inserted_ghost.
Proof.
  apply (Reach_Insert first_byte_digest New _ 0 (bytes_of "ab")).
  - apply Reach_New.
  - by vm_compute.
  - reflexivity.
Defined.

Lemma Undo_restores_prior_witness :
  ∃ ops op ps prior,
    undoStack inserted_sample = ops ++ [op] ∧
    priors inserted_ghost = ps ++ [prior] ∧
    Undo inserted_sample = Ret (true, undone inserted_sample ops op prior) ∧
    prior = reverse_applied op (data inserted_sample).
Proof.
  apply (Undo_restores_prior first_byte_digest inserted_sample inserted_ghost).
  - apply Reach_inserted_sample.
  - discriminate.
Defined.

(** C2.  [Insert(offset, data)] splices [data] in at the offset clamped into
    [0, size]: the size grows by [len(data)], and [GetBytes] at the clamped
    offset, which is [offset] itself when [offset] is valid, returns exactly
    [data]. *)
Theorem Insert_grows_and_reads_back offset new b :
  len (data b) + len new ≤ maxAlloc →
  ∃ b', Insert offset new b = Ret b' ∧
        Size b' = Size b + len new ∧
        (0 ≤ offset ≤ Size b → GetBytes offset (len new) b' = Ret new) ∧
        0 ≤ clamped offset b ≤ Size b ∧
        (offset < 0 → clamped offset b = 0) ∧
        (Size b < offset → clamped offset b = Size b) ∧
        data b' = spliced (clamped offset b) new (data b) ∧
        GetBytes (clamped offset b) (len new) b' = Ret new.
Proof.
  intros Hfit. pose proof maxAlloc_eq as HM.
  pose proof (len_nonneg (data b)) as Hd. pose proof (len_nonneg new) as Hn.
  assert (0 ≤ clamped offset b ≤ len (data b)) as Hc by (unfold clamped; lia).
  eexists. split; [by apply Insert_Ret|].
  assert (GetBytes (clamped offset b) (len new)
            (edited b (spliced (clamped offset b) new (data b))
               (mkOperation OpInsert (clamped offset b) [] new)) = Ret new) as HG.
  { unfold GetBytes. cbn [edited data].
    rewrite len_spliced by done.
    case_bool_decide as Hout.
    { assert (length new = 0%nat) as Hz by (unfold len in *; lia).
      by destruct new. }
    rewrite add64_id by lia.
    rewrite bool_decide_eq_false_2 by lia.
    rewrite sub64_id by lia.
    rewrite make_Ret by lia. cbn [mbind go_bind].
    rewrite slice_Ret by (rewrite ?len_spliced; lia). cbn [mbind go_bind].
    f_equal. unfold spliced.
    rewrite drop_app_length' by len_solve.
    rewrite take_app_length' by len_solve.
    apply copy_exact. len_solve. }
  unfold Size. cbn [edited data]. rewrite len_spliced by done.
  split_and!; try done; try (unfold clamped; lia).
  intros Hv. replace offset with (clamped offset b) at 1; [done|].
  unfold clamped. lia.
Qed.

Lemma Insert_grows_and_reads_back_witness :
  ∃ b', Insert 1 (bytes_of "XY") (buffer_of "abc") = Ret b' ∧
        Size b' = Size (buffer_of "abc") + len (bytes_of "XY") ∧
        (0 ≤ 1 ≤ Size (buffer_of "abc") →
         GetBytes 1 (len (bytes_of "XY")) b' = Ret (bytes_of "XY")) ∧
        0 ≤ clamped 1 (buffer_of "abc") ≤ Size (buffer_of "abc") ∧
        (1 < 0 → clamped 1 (buffer_of "abc") = 0) ∧
        (Size (buffer_of "abc") < 1 →
         clamped 1 (buffer_of "abc") = Size (buffer_of "abc")) ∧
        data b' = spliced (clamped 1 (buffer_of "abc")) (bytes_of "XY")
                    (data (buffer_of "abc")) ∧
        GetBytes (clamped 1 (buffer_of "abc")) (len (bytes_of "XY")) b'
        = Ret (bytes_of "XY").
Proof.
  apply (Insert_grows_and_reads_back 1 (bytes_of "XY") (buffer_of "abc")).
  by vm_compute.
Defined.

Example undone_sample_history :
  (b ← Insert 0 (bytes_of "ab") New;
   b ← Insert 2 (bytes_of "c") b;
   Undo b) = Ret (true, undone_sample).
Proof. reflexivity. Qed.

(** C3, as stated, fails: on a buffer with a redo stack, a [Delete] whose
    offset is out of range or whose count is not positive, a [Replace] out
    of range, and a [ReplaceBytes] with nothing to place all return the
    buffer as it is, redo stack included. *)
Lemma noop_edits_keep_redo :
  CanRedo undone_sample = true ∧
  (Delete 5 1 undone_sample = Ret undone_sample ∧
   Delete 0 0 undone_sample = Ret undone_sample ∧
   Delete 0 (-3) undone_sample = Ret undone_sample ∧
   Replace 2 "x" undone_sample = Ret undone_sample ∧
   ReplaceBytes 0 [] undone_sample = Ret undone_sample ∧
   ReplaceBytes (-2) (bytes_of "xy") undone_sample = Ret undone_sample).
Proof. by vm_compute. Qed.

(** C3, amended.  [Insert] always leaves the redo stack empty.  [Delete]
    and [Replace] leave it empty when they apply (offset in [0, size), and a
    positive count for [Delete]) and return the buffer untouched otherwise.
    [ReplaceBytes] leaves it empty when its last position
    [offset+len(data)-1] is not negative, and returns the buffer untouched
    when [data] is empty or all its positions are negative. *)
Theorem edits_clear_redo_when_applied offset count newByte new b :
  fits (data b) → int64_range offset →
  (len (data b) + len new ≤ maxAlloc →
     ∃ b', Insert offset new b = Ret b' ∧ CanRedo b' = false) ∧
  (0 ≤ offset < Size b → 0 < count → offset + count ≤ MaxInt64 →
     ∃ b', Delete offset count b = Ret b' ∧ CanRedo b' = false) ∧
  (offset < 0 ∨ Size b ≤ offset ∨ count ≤ 0 →
     Delete offset count b = Ret b) ∧
  (0 ≤ offset < Size b →
     ∃ b', Replace offset newByte b = Ret b' ∧ CanRedo b' = false) ∧
  (offset < 0 ∨ Size b ≤ offset →
     Replace offset newByte b = Ret b) ∧
  (new ≠ [] → 0 ≤ offset + len new - 1 ≤ MaxInt64 →
   len (data b) + len new ≤ maxAlloc →
     ∃ b', ReplaceBytes offset new b = Ret b' ∧ CanRedo b' = false) ∧
  (new = [] ∨ offset + len new ≤ 0 →
     ReplaceBytes offset new b = Ret b).
Proof.
  intros Hfit [Hlo Hhi]. unfold Size. split_and!.
  - intros Hb. eexists. split; [by apply Insert_Ret|done].
  - intros Ho Hc Hov. eexists. split; [by apply Delete_Ret|done].
  - apply Delete_noop.
  - intros Ho.
    destruct (lookup_lt_is_Some_2 (data b) (Z.to_nat offset)) as [old Hold].
    { unfold len in Ho. lia. }
    eexists. split; [apply (Replace_Ret _ _ _ old); [lia|done]|done].
  - apply Replace_noop.
  - intros Hne Hlast Hb. unfold ReplaceBytes, MaxInt64 in *.
    destruct new as [|d0 new0] using rev_ind; [done|clear IHnew0].
    rewrite len_app, len_cons, len_nil in *.
    pose proof (len_nonneg new0) as Hn.
    rewrite ReplaceBytes_from_app.
    destruct (ReplaceBytes_from_Ret offset new0 0 b) as (b1 & -> & Hl1); [lia|].
    cbn [mbind go_bind ReplaceBytes_from].
    destruct (ReplaceBytes_body_Ret offset (0 + len new0) d0 b1) as (b2 & -> & _ & Hredo & _).
    { lia. }
    cbn [mbind go_bind]. exists b2. split; [done|].
    unfold CanRedo. rewrite Hredo; [done|].
    rewrite add64_id by lia. lia.
  - intros [->|Hneg]; [done|].
    apply ReplaceBytes_from_negative; [done|lia|lia].
Qed.

Lemma edits_clear_redo_when_applied_witness :
  (len (data undone_sample) + len (bytes_of "xy") ≤ maxAlloc →
     ∃ b', Insert 1 (bytes_of "xy") undone_sample = Ret b' ∧ CanRedo b' = false) ∧
  (0 ≤ 1 < Size undone_sample → 0 < 1 → 1 + 1 ≤ MaxInt64 →
     ∃ b', Delete 1 1 undone_sample = Ret b' ∧ CanRedo b' = false) ∧
  (1 < 0 ∨ Size undone_sample ≤ 1 ∨ 1 ≤ 0 →
     Delete 1 1 undone_sample = Ret undone_sample) ∧
  (0 ≤ 1 < Size undone_sample →
     ∃ b', Replace 1 "x" undone_sample = Ret b' ∧ CanRedo b' = false) ∧
  (1 < 0 ∨ Size undone_sample ≤ 1 →
     Replace 1 "x" undone_sample = Ret undone_sample) ∧
  (bytes_of "xy" ≠ [] → 0 ≤ 1 + len (bytes_of "xy") - 1 ≤ MaxInt64 →
   len (data undone_sample) + len (bytes_of "xy") ≤ maxAlloc →
     ∃ b', ReplaceBytes 1 (bytes_of "xy") undone_sample = Ret b' ∧ CanRedo b' = false) ∧
  (bytes_of "xy" = [] ∨ 1 + len (bytes_of "xy") ≤ 0 →
     ReplaceBytes 1 (bytes_of "xy") undone_sample = Ret undone_sample).
Proof.
  apply (edits_clear_redo_when_applied 1 1 "x" (bytes_of "xy") undone_sample).
  - by vm_compute.
  - by vm_compute.
Defined.

(** C4, at inputs where the code panics: [GetBytes] with a negative count,
    [Find] forward from a negative start, and [Delete] with a count that
    makes [offset+count] overflow. *)
Theorem out_of_range_arguments_panic :
  GetBytes 0 (-1) (buffer_of "a") = Panic MakesliceLenOutOfRange ∧
  Find (bytes_of "a") (-1) true (buffer_of "a") = Panic IndexOutOfRange ∧
  Delete 1 MaxInt64 (buffer_of "ab") = Panic MakesliceLenOutOfRange.
Proof. by vm_compute. Qed.

(** ** Search *)

Lemma match_from_Ret d i j pat :
  fits d → 0 ≤ i → 0 ≤ j → i + j + len pat ≤ len d →
  match_from d i j pat =
  Ret (bool_decide (take (length pat) (drop (Z.to_nat (i + j)) d) = pat)).
Proof.
  unfold fits. pose proof maxAlloc_eq as HM.
  revert j. induction pat as [|p pat IH]; intros j Hfit Hi Hj Hle.
  - cbn. by rewrite bool_decide_eq_true_2.
  - rewrite len_cons in Hle. pose proof (len_nonneg pat) as Hp.
    cbn [match_from]. rewrite add64_id by lia.
    destruct (lookup_lt_is_Some_2 d (Z.to_nat (i + j))) as [x Hx].
    { unfold len in *. lia. }
    rewrite (index_Ret _ _ x) by (done || lia). cbn [mbind go_bind].
    rewrite (drop_S _ x) by done. cbn [length take].
    case_bool_decide as Hxp.
    + rewrite bool_decide_eq_false_2; [done|]. congruence.
    + subst x.
      rewrite IH by lia.
      replace (Z.to_nat (i + (j + 1))) with (S (Z.to_nat (i + j))) by lia.
      f_equal. apply bool_decide_ext. split; [congruence|].
      intros [= ?]. done.
Qed.

Lemma match_from_occurs d i pat :
  fits d → 0 ≤ i → i + len pat ≤ len d →
  match_from d i 0 pat = Ret (bool_decide (occurs_at pat d i)).
Proof.
  intros Hfit Hi Hle. rewrite match_from_Ret by (done || lia).
  rewrite Z.add_0_r. f_equal. apply bool_decide_ext.
  unfold occurs_at. tauto.
Qed.

Lemma Find_forward_Ret d pat budget i :
  fits d → fits pat → 0 ≤ i →
  len d - len pat + 1 - i ≤ Z.of_nat budget →
  ∃ r, Find_forward budget d pat i = Ret r ∧
       ((r = -1 ∧ ∀ k, i ≤ k ≤ len d - len pat → ¬ occurs_at pat d k) ∨
        (i ≤ r ≤ len d - len pat ∧ occurs_at pat d r ∧
         ∀ k, i ≤ k < r → ¬ occurs_at pat d k)).
Proof.
  unfold fits. pose proof maxAlloc_eq as HM.
  pose proof (len_nonneg d) as Hd. pose proof (len_nonneg pat) as Hp.
  intros Hfd Hfp. revert i. induction budget as [|budget IH]; intros i Hi Hb.
  - exists (-1). cbn [Find_forward]. rewrite sub64_id by lia.
    rewrite bool_decide_eq_false_2 by lia. split; [done|]. left. split; [done|]. lia.
  - cbn [Find_forward]. rewrite sub64_id by lia.
    case_bool_decide as Hin.
    + rewrite match_from_occurs by (done || lia). cbn [mbind go_bind].
      case_bool_decide as Hocc.
      * exists i. split; [done|]. right. split_and!; [lia|lia|done|lia].
      * rewrite add64_id by lia.
        destruct (IH (i + 1)) as (r & -> & Hr); [lia|lia|].
        exists r. split; [done|].
        destruct Hr as [[-> Hnone]|(Hrange & Hocc' & Hnone)].
        -- left. split; [done|]. intros k Hk.
           destruct (decide (k = i)) as [->|]; [done|]. apply Hnone. lia.
        -- right. split_and!; [lia|lia|done|]. intros k Hk.
           destruct (decide (k = i)) as [->|]; [done|]. apply Hnone. lia.
    + exists (-1). split; [done|]. left. split; [done|]. lia.
Qed.

Lemma Find_backward_Ret d pat budget i :
  fits d → fits pat → -1 ≤ i → i ≤ len d - len pat →
  i + 1 ≤ Z.of_nat budget →
  ∃ r, Find_backward budget d pat i = Ret r ∧
       ((r = -1 ∧ ∀ k, 0 ≤ k ≤ i → ¬ occurs_at pat d k) ∨
        (0 ≤ r ≤ i ∧ occurs_at pat d r ∧
         ∀ k, r < k ≤ i → ¬ occurs_at pat d k)).
Proof.
  unfold fits. pose proof maxAlloc_eq as HM.
  pose proof (len_nonneg d) as Hd. pose proof (len_nonneg pat) as Hp.
  intros Hfd Hfp. revert i. induction budget as [|budget IH]; intros i Hlo Hhi Hb.
  - exists (-1). cbn [Find_backward].
    rewrite bool_decide_eq_false_2 by lia. split; [done|]. left. split; [done|]. lia.
  - cbn [Find_backward].
    case_bool_decide as Hin.
    + rewrite match_from_occurs by (done || lia). cbn [mbind go_bind].
      case_bool_decide as Hocc.
      * exists i. split; [done|]. right. split_and!; [lia|lia|done|lia].
      * rewrite sub64_id by lia.
        destruct (IH (i - 1)) as (r & -> & Hr); [lia|lia|lia|].
        exists r. split; [done|].
        destruct Hr as [[-> Hnone]|(Hrange & Hocc' & Hnone)].
        -- left. split; [done|]. intros k Hk.
           destruct (decide (k = i)) as [->|]; [done|]. apply Hnone. lia.
        -- right. split_and!; [lia|lia|done|]. intros k Hk.
           destruct (decide (k = i)) as [->|]; [done|]. apply Hnone. lia.
    + exists (-1). split; [done|]. left. split; [done|]. lia.
Qed.

(** C5.  For a start offset that is not negative, [Find] returns [-1] when
    the pattern or the content is empty; otherwise, forward, the lowest
    index in [startOffset, size-len(pattern)] where the pattern occurs, and
    backward, the highest index in [0, min(startOffset-1, size-len(pattern))]
    where it occurs; [-1] when there is none. *)
Theorem Find_lowest_or_highest pattern startOffset forward b :
  fits (data b) → fits pattern → 0 ≤ startOffset ≤ MaxInt64 →
  ∃ r, Find pattern startOffset forward b = Ret r ∧
    (pattern = [] ∨ data b = [] → r = -1) ∧
    (pattern ≠ [] → data b ≠ [] → forward = true →
       (r = -1 ∧
        ∀ i, startOffset ≤ i ≤ Size b - len pattern →
             ¬ occurs_at pattern (data b) i) ∨
       (startOffset ≤ r ≤ Size b - len pattern ∧
        occurs_at pattern (data b) r ∧
        ∀ i, startOffset ≤ i < r → ¬ occurs_at pattern (data b) i)) ∧
    (pattern ≠ [] → data b ≠ [] → forward = false →
       let start := Z.min (startOffset - 1) (Size b - len pattern) in
       (r = -1 ∧
        ∀ i, 0 ≤ i ≤ start → ¬ occurs_at pattern (data b) i) ∨
       (0 ≤ r ≤ start ∧
        occurs_at pattern (data b) r ∧
        ∀ i, r < i ≤ start → ¬ occurs_at pattern (data b) i)).
Proof.
  intros Hfd Hfp Hs. unfold Find, Size, MaxInt64 in *.
  pose proof maxAlloc_eq as HM. unfold fits in Hfd, Hfp.
  pose proof (len_nonneg (data b)) as Hd. pose proof (len_nonneg pattern) as Hp.
  case_bool_decide as Hempty.
  { exists (-1). split; [done|]. split; [done|].
    assert (pattern = [] ∨ data b = []) as He.
    { destruct Hempty as [H|H]; [left; by destruct pattern|right; by destruct (data b)]. }
    split; intros ? ?; by destruct He. }
  assert (0 < len pattern ∧ 0 < len (data b)) as [Hp1 Hd1] by lia.
  destruct forward.
  - destruct (Find_forward_Ret (data b) pattern (length (data b)) startOffset)
      as (r & -> & Hr); [done|done|lia|unfold len in *; lia|].
    exists r. split; [done|]. split_and!; [|done|done].
    intros [H|H]; [rewrite H in Hp1|rewrite H in Hd1]; unfold len in *; cbn in *; lia.
  - rewrite !sub64_id by lia.
    set (start := if bool_decide _ then _ else _).
    assert (start = Z.min (startOffset - 1) (len (data b) - len pattern)) as Hst.
    { subst start. case_bool_decide; lia. }
    rewrite Hst.
    destruct (decide (-1 ≤ len (data b) - len pattern)) as [Hge|Hlt].
    + destruct (Find_backward_Ret (data b) pattern (length (data b))
                  (Z.min (startOffset - 1) (len (data b) - len pattern)))
        as (r & -> & Hr); [done|done|lia|lia|unfold len in *; lia|].
      exists r. split; [done|]. split_and!; [|done|done].
      intros [H|H]; [rewrite H in Hp1|rewrite H in Hd1]; unfold len in *; cbn in *; lia.
    + exists (-1). destruct (length (data b)) eqn:E; [unfold len in *; lia|].
      cbn [Find_backward]. rewrite bool_decide_eq_false_2 by lia.
      split; [done|]. split_and!; [done|done|].
      intros _ _ _. left. split; [done|]. lia.
Qed.

Lemma Find_lowest_or_highest_witness :
  ∃ r, Find (bytes_of "World") 0 true (buffer_of "Hello, World!") = Ret r ∧
    (bytes_of "World" = [] ∨ data (buffer_of "Hello, World!") = [] → r = -1) ∧
    (bytes_of "World" ≠ [] → data (buffer_of "Hello, World!") ≠ [] → true = true →
       (r = -1 ∧
        ∀ i, 0 ≤ i ≤ Size (buffer_of "Hello, World!") - len (bytes_of "World") →
             ¬ occurs_at (bytes_of "World") (data (buffer_of "Hello, World!")) i) ∨
       (0 ≤ r ≤ Size (buffer_of "Hello, World!") - len (bytes_of "World") ∧
        occurs_at (bytes_of "World") (data (buffer_of "Hello, World!")) r ∧
        ∀ i, 0 ≤ i < r →
             ¬ occurs_at (bytes_of "World") (data (buffer_of "Hello, World!")) i)) ∧
    (bytes_of "World" ≠ [] → data (buffer_of "Hello, World!") ≠ [] → true = false →
       let start := Z.min (0 - 1)
                      (Size (buffer_of "Hello, World!") - len (bytes_of "World")) in
       (r = -1 ∧
        ∀ i, 0 ≤ i ≤ start →
             ¬ occurs_at (bytes_of "World") (data (buffer_of "Hello, World!")) i) ∨
       (0 ≤ r ≤ start ∧
        occurs_at (bytes_of "World") (data (buffer_of "Hello, World!")) r ∧
        ∀ i, r < i ≤ start →
             ¬ occurs_at (bytes_of "World") (data (buffer_of "Hello, World!")) i)).
Proof.
  apply (Find_lowest_or_highest (bytes_of "World") 0 true (buffer_of "Hello, World!")).
  - by vm_compute.
  - by vm_compute.
  - by vm_compute.
Defined.

Example Find_World : Find (bytes_of "World") 0 true (buffer_of "Hello, World!") = Ret 7.
Proof. reflexivity. Qed.

Example Find_xyz : Find (bytes_of "xyz") 0 true (buffer_of "Hello, World!") = Ret (-1).
Proof. reflexivity. Qed.

Example CountMatches_overlap : CountMatches (bytes_of "aa") (buffer_of "aaa") = Ret 2.
Proof. reflexivity. Qed.

(** ** ReplaceBytes in closed form *)

Lemma replace_ops_snoc offset olds news old new :
  length olds = length news →
  replace_ops offset (olds ++ [old]) (news ++ [new]) =
  replace_ops offset olds news ++ [mkOperation OpReplace (offset + len news) [old] [new]].
Proof.
  intros Hl. unfold replace_ops.
  rewrite zip_with_app by done. rewrite imap_app. cbn.
  rewrite length_zip_with, Hl, Nat.min_id, Nat.add_0_r. done.
Qed.

Lemma append_ops_snoc size news new :
  append_ops size (news ++ [new]) =
  append_ops size news ++ [mkOperation OpInsert (size + len news) [] [new]].
Proof. unfold append_ops. rewrite imap_app. cbn. by rewrite Nat.add_0_r. Qed.

(** The content after [m] bytes [ds] were placed from position [o] on, [k]
    of them on existing positions. *)
Lemma pasted_data_replace (d0 ds : list byte) o d old :
  d0 !! (o + length ds)%nat = Some old →
  <[(o + length ds)%nat := d]>
    (take o d0 ++ take (length ds) ds ++ drop (o + length ds) d0 ++ drop (length ds) ds)
  = take o d0 ++ take (S (length ds)) (ds ++ [d])
      ++ drop (o + S (length ds)) d0 ++ drop (S (length ds)) (ds ++ [d]).
Proof.
  intros Hold. pose proof (lookup_lt_Some _ _ _ Hold) as Hlt.
  rewrite (take_ge ds), (drop_ge ds) by lia.
  rewrite (take_ge (ds ++ [d])), (drop_ge (ds ++ [d])) by (rewrite length_app; cbn; lia).
  rewrite !app_nil_r.
  rewrite insert_app_r_alt by (rewrite length_take; lia).
  rewrite insert_app_r_alt by (rewrite length_take; lia).
  rewrite length_take.
  replace (o + length ds - o `min` length d0 - length ds)%nat with 0%nat by lia.
  rewrite (drop_S _ old) by done. cbn [insert list_insert].
  rewrite <- app_assoc. cbn [app].
  by replace (o + S (length ds))%nat with (S (o + length ds)) by lia.
Qed.

Lemma ReplaceBytes_pasted offset new b :
  0 ≤ offset → offset + len new - 1 ≤ MaxInt64 →
  len (data b) + len new ≤ maxAlloc →
  ReplaceBytes offset new b =
  Ret (if decide (new = []) then b else pasted offset new b).
Proof.
  unfold MaxInt64. pose proof maxAlloc_eq as HM.
  pose proof (len_nonneg (data b)) as Hd.
  intros Ho. induction new as [|d ds IH] using rev_ind; intros Hov Hfit; [done|].
  rewrite len_app, len_cons, len_nil in Hov, Hfit. pose proof (len_nonneg ds) as Hm.
  rewrite decide_False by (by destruct ds).
  unfold ReplaceBytes in *. rewrite ReplaceBytes_from_app, IH by lia.
  cbn [mbind go_bind ReplaceBytes_from].
  set (b1 := if decide (ds = []) then b else pasted offset ds b).
  set (o := Z.to_nat offset). set (m := length ds).
  set (k := Z.to_nat (overwritten offset ds b)).
  assert (data b1 = take o (data b) ++ take k ds ++ drop (o + k) (data b) ++ drop k ds)
    as Hdata.
  { subst b1 k. destruct (decide (ds = [])) as [->|]; [|done].
    replace (Z.to_nat (overwritten offset [] b)) with 0%nat
      by (unfold overwritten, len; cbn; lia).
    cbn. by rewrite app_nil_r, Nat.add_0_r, take_drop. }
  assert (undoStack b1 = undoStack b
            ++ replace_ops offset (take k (drop o (data b))) (take k ds)
            ++ append_ops (len (data b)) (drop k ds)) as Hundo.
  { subst b1 k. destruct (decide (ds = [])) as [->|]; [|done].
    replace (Z.to_nat (overwritten offset [] b)) with 0%nat
      by (unfold overwritten, len; cbn; lia).
    cbn. by rewrite app_nil_r. }
  assert (filename b1 = filename b ∧ originalHash b1 = originalHash b ∧
          isNew b1 = isNew b) as (Hfn & Hoh & Hnew).
  { subst b1. by destruct (decide (ds = [])). }
  assert (len (data b1) = len (data b) + len ds - Z.of_nat k) as Hlen.
  { rewrite Hdata. subst k o. unfold overwritten. len_solve. }
  assert (match ReplaceBytes_body offset (0 + len ds) d b1 with
          | Ret b2 => b2 = pasted offset (ds ++ [d]) b
          | _ => False
          end) as Hstep.
  2:{ destruct (ReplaceBytes_body offset (0 + len ds) d b1); [|done..].
      cbn [mbind go_bind]. by subst. }
  unfold ReplaceBytes_body. rewrite Z.add_0_l, add64_id by lia.
  case_bool_decide as Hpos.
  - (* the position has reached the end: a one-byte Insert *)
    rewrite Insert_Ret by (cbn; len_solve).
    assert (clamped (len (data b1)) b1 = len (data b1)) as -> by (unfold clamped; lia).
    assert (Z.to_nat (overwritten offset (ds ++ [d]) b) = k) as Hk.
    { subst k. unfold overwritten in *. rewrite len_app, len_cons, len_nil. lia. }
    assert (k ≤ m)%nat as Hkm by (subst k m; unfold overwritten, len; lia).
    unfold pasted, edited. rewrite Hk. fold o.
    rewrite Hfn, Hoh, Hnew, Hundo. f_equal.
    + unfold spliced, len. rewrite Nat2Z.id, take_ge, drop_ge by lia.
      rewrite Hdata, take_app_le, drop_app_le by done.
      by rewrite <- !app_assoc.
    + rewrite drop_app_le, take_app_le by done.
      rewrite append_ops_snoc, <- !app_assoc. do 3 f_equal.
      do 2 f_equal. rewrite Hlen. unfold len. rewrite length_drop. subst m. lia.
  - (* the position is inside: a Replace *)
    assert (k = m ∧ (o + m < length (data b))%nat) as [Hk Hin].
    { subst k m o. unfold overwritten, len in *. lia. }
    destruct (lookup_lt_is_Some_2 (data b) (o + m)) as [old Hold]; [done|].
    assert (Z.to_nat (offset + len ds) = (o + m)%nat) as Hnat by (subst o m; unfold len; lia).
    rewrite (Replace_Ret _ _ _ old); [|lia|].
    2:{ rewrite Hnat, Hdata, Hk.
        rewrite lookup_app_r by (rewrite length_take; lia).
        rewrite lookup_app_r by (rewrite !length_take; lia).
        rewrite lookup_app_l by (rewrite !length_take, length_drop; lia).
        rewrite lookup_drop, <- Hold. f_equal. rewrite !length_take. lia. }
    assert (Z.to_nat (overwritten offset (ds ++ [d]) b) = S m) as Hk'.
    { subst k m o. unfold overwritten, len in *. rewrite length_app. cbn. lia. }
    unfold pasted, edited. rewrite Hk'. fold o.
    rewrite Hfn, Hoh, Hnew, Hundo, Hnat, Hdata, Hk. f_equal.
    + by apply (pasted_data_replace _ _ _ _ old).
    + subst m. rewrite (take_ge ds), (drop_ge ds) by lia.
      rewrite (take_ge (ds ++ [d])), (drop_ge (ds ++ [d])) by (rewrite length_app; cbn; lia).
      rewrite (take_S_r _ _ old) by (by rewrite lookup_drop).
      rewrite replace_ops_snoc by (rewrite length_take, length_drop; lia).
      unfold append_ops. cbn. by rewrite !app_nil_r, <- !app_assoc.
Qed.

Lemma ReplaceBytes_body_links offset i d b :
  fits (data b) → len (data b) + 1 ≤ maxAlloc → 0 ≤ add64 offset i →
  ∃ dnew op, ReplaceBytes_body offset i d b = Ret (edited b dnew op) ∧
             links op (data b) dnew.
Proof.
  intros Hf Hfit Hpos. unfold ReplaceBytes_body.
  pose proof (len_nonneg (data b)) as Hd.
  case_bool_decide as Hend.
  - rewrite Insert_Ret by (cbn; len_solve).
    eexists _, _. split; [done|].
    apply links_Insert; [unfold clamped; lia|cbn; len_solve].
  - destruct (lookup_lt_is_Some_2 (data b) (Z.to_nat (add64 offset i))) as [old Hold].
    { unfold len in *. lia. }
    rewrite (Replace_Ret _ _ _ old) by done.
    eexists _, _. split; [done|]. by apply links_Replace.
Qed.

(** C6, as stated, fails at the top of the offset range: with
    [offset = MaxInt64] the second position [offset+1] wraps around to a
    negative number, and the second byte is neither written nor appended. *)
Lemma ReplaceBytes_wraps_past_MaxInt64 :
  ∃ b', ReplaceBytes MaxInt64 (bytes_of "AB") New = Ret b' ∧
        data b' = bytes_of "A" ∧
        undoStack b' = [mkOperation OpInsert 0 [] (bytes_of "A")].
Proof. eexists. by vm_compute. Qed.

(** C6, amended: for [offset >= 0] whose last position [offset+len(data)-1]
    is still an int64.  [ReplaceBytes] overwrites the positions below the
    size and appends the remaining bytes; the undo stack receives one Replace
    per overwritten byte and then one single-byte Insert per appended byte,
    at consecutive offsets from the old size on; and one [Undo] afterwards
    takes back the last byte only, leaving content and undo stack as
    [ReplaceBytes] of all bytes but the last leaves them. *)
Theorem ReplaceBytes_byte_by_byte offset new b :
  0 ≤ offset → offset + len new - 1 ≤ MaxInt64 →
  len (data b) + len new ≤ maxAlloc →
  ReplaceBytes offset new b =
    Ret (if decide (new = []) then b else pasted offset new b) ∧
  (∀ ds d, new = ds ++ [d] →
     ∃ b1 b2, ReplaceBytes offset ds b = Ret b1 ∧
              Undo (pasted offset new b) = Ret (true, b2) ∧
              data b2 = data b1 ∧ undoStack b2 = undoStack b1).
Proof.
  intros Ho Hov Hfit. split; [by apply ReplaceBytes_pasted|].
  intros ds d ->. unfold MaxInt64 in *. pose proof maxAlloc_eq as HM.
  rewrite len_app, len_cons, len_nil in Hov, Hfit.
  pose proof (len_nonneg ds) as Hm. pose proof (len_nonneg (data b)) as Hd.
  pose proof (ReplaceBytes_pasted offset (ds ++ [d]) b Ho) as Hall.
  rewrite len_app, len_cons, len_nil in Hall. specialize (Hall Hov Hfit).
  rewrite decide_False in Hall by (by destruct ds).
  unfold ReplaceBytes in *. rewrite ReplaceBytes_from_app in Hall.
  destruct (ReplaceBytes_from_Ret offset ds 0 b) as (b1 & E1 & Hl1); [lia|].
  rewrite E1 in Hall. cbn [mbind go_bind ReplaceBytes_from] in Hall.
  destruct (ReplaceBytes_body_links offset (0 + len ds) d b1)
    as (dnew & op & E2 & Hl); [unfold fits; lia|lia|rewrite add64_id; lia|].
  rewrite E2 in Hall. cbn [mbind go_bind] in Hall.
  assert (edited b1 dnew op = pasted offset (ds ++ [d]) b) as <- by congruence.
  exists b1. eexists. split; [done|].
  split; [apply (Undo_pop _ (undoStack b1) op (data b1)); [done|apply Hl]|done].
Qed.

Lemma ReplaceBytes_byte_by_byte_witness :
  ReplaceBytes 2 (bytes_of "XYZ") (buffer_of "abc") =
    Ret (if decide (bytes_of "XYZ" = []) then buffer_of "abc"
         else pasted 2 (bytes_of "XYZ") (buffer_of "abc")) ∧
  (∀ ds d, bytes_of "XYZ" = ds ++ [d] →
     ∃ b1 b2, ReplaceBytes 2 ds (buffer_of "abc") = Ret b1 ∧
              Undo (pasted 2 (bytes_of "XYZ") (buffer_of "abc")) = Ret (true, b2) ∧
              data b2 = data b1 ∧ undoStack b2 = undoStack b1).
Proof.
  apply (ReplaceBytes_byte_by_byte 2 (bytes_of "XYZ") (buffer_of "abc")).
  - by vm_compute.
  - by vm_compute.
  - by vm_compute.
Defined.

Example ReplaceBytes_straddling :
  ReplaceBytes 2 (bytes_of "XYZ") (buffer_of "abc") =
  Ret {| filename := ""; data := bytes_of "abXYZ"; originalHash := "";
         modified := true;
         undoStack := [mkOperation OpReplace 2 (bytes_of "c") (bytes_of "X");
                       mkOperation OpInsert 3 [] (bytes_of "Y");
                       mkOperation OpInsert 4 [] (bytes_of "Z")];
         redoStack := []; isNew := true |}.
Proof. reflexivity. Qed.

(** ** Persistence *)

Lemma hex_EncodeToString_length src :
  String.length (hex_EncodeToString src) = (2 * length src)%nat.
Proof. induction src as [|v src IH]; [done|]. cbn. rewrite IH. lia. Qed.

Lemma fingerprint_not_empty Sum256 d : fingerprint Sum256 d ≠ "".
Proof.
  intros H. apply (f_equal String.length) in H.
  unfold fingerprint in H.
  rewrite hex_EncodeToString_length, length_vec_to_list in H. done.
Qed.

(** C7.  [Save] returns the unbound-path error exactly when the filename is
    empty; whenever it returns an error the buffer is unchanged; when it
    returns none, the file at the bound path reads back as exactly the
    content, the stored digest is the fingerprint of that content,
    [modified] and [isNew] are false and both stacks are empty. *)
Theorem Save_all_or_nothing Sum256 disk b :
  ∃ disk' b' err,
    Save Sum256 disk b = (disk', b', err) ∧
    (err = Some ErrNoFilename ↔ filename b = "") ∧
    (err ≠ None → b' = b) ∧
    (err = None →
       (∃ f, os_Open disk' (filename b) = inr f ∧ ReadAll f = inr (data b)) ∧
       b' = {| filename := filename b; data := data b;
               originalHash := fingerprint Sum256 (data b);
               modified := false; undoStack := []; redoStack := [];
               isNew := false |}).
Proof.
  unfold Save. case_bool_decide as Hname.
  { eexists _, _, _. split; [done|]. split_and!; done. }
  unfold os_WriteFile.
  destruct (writes disk (filename b) (data b)) as [|e residue].
  - eexists _, _, _. split; [done|]. split_and!; [done|done|].
    intros _. split; [|done]. cbn [os_Open].
    rewrite decide_True by done. by eexists.
  - eexists _, _, _. split; [done|]. split_and!; [|done|done].
    split; [done|]. intros H. by destruct Hname.
Qed.

Lemma Reach_opened_sample : Reach first_byte_digest opened_sample opened_ghost.
Proof. by apply (Reach_Open first_byte_digest sample_disk "f"). Defined.

(** C8.  [HasChangedOnDisk] answers [(false, nil)] for a new or unbound
    buffer.  Otherwise, when the bound file can be read, it answers with a
    nil error and with [true] exactly when the fingerprint of what was read
    differs from the fingerprint of the content captured at the last [Open]
    or successful [Save]; when opening or reading fails, it returns that
    error. *)
Theorem HasChangedOnDisk_compares_fingerprints Sum256 disk b g :
  Reach Sum256 b g →
  (isNew b = true ∨ filename b = "" →
     HasChangedOnDisk Sum256 disk b = (false, None)) ∧
  (isNew b = false → filename b ≠ "" →
     (∀ f current captured,
        os_Open disk (filename b) = inr f → ReadAll f = inr current →
        synced g = Some captured →
        ∃ changed, HasChangedOnDisk Sum256 disk b = (changed, None) ∧
                   (changed = true ↔
                    fingerprint Sum256 current ≠ fingerprint Sum256 captured)) ∧
     (∀ e, os_Open disk (filename b) = inl e →
        snd (HasChangedOnDisk Sum256 disk b) = Some (ErrOS e)) ∧
     (∀ f e, os_Open disk (filename b) = inr f → ReadAll f = inl e →
        snd (HasChangedOnDisk Sum256 disk b) = Some (ErrOS e))).
Proof.
  intros HR. destruct (Reach_consistent _ _ _ HR) as (_ & _ & _ & Hhash).
  unfold HasChangedOnDisk. split.
  - intros H. by rewrite bool_decide_eq_true_2.
  - intros Hnew Hname.
    rewrite bool_decide_eq_false_2 by (intros [H|H]; congruence).
    split_and!.
    + intros f current captured -> -> Hs. rewrite Hs in Hhash.
      eexists. split; [done|]. rewrite Hhash. apply bool_decide_eq_true.
    + by intros e ->.
    + by intros f e -> ->.
Qed.

Lemma HasChangedOnDisk_compares_fingerprints_witness :
  (isNew opened_sample = true ∨ filename opened_sample = "" →
     HasChangedOnDisk first_byte_digest sample_disk opened_sample = (false, None)) ∧
  (isNew opened_sample = false → filename opened_sample ≠ "" →
     (∀ f current captured,
        os_Open sample_disk (filename opened_sample) = inr f →
        ReadAll f = inr current →
        synced opened_ghost = Some captured →
        ∃ changed,
          HasChangedOnDisk first_byte_digest sample_disk opened_sample = (changed, None) ∧
          (changed = true ↔
           fingerprint first_byte_digest current ≠ fingerprint first_byte_digest captured)) ∧
     (∀ e, os_Open sample_disk (filename opened_sample) = inl e →
        snd (HasChangedOnDisk first_byte_digest sample_disk opened_sample)
        = Some (ErrOS e)) ∧
     (∀ f e, os_Open sample_disk (filename opened_sample) = inr f →
        ReadAll f = inl e →
        snd (HasChangedOnDisk first_byte_digest sample_disk opened_sample)
        = Some (ErrOS e))).
Proof.
  apply (HasChangedOnDisk_compares_fingerprints first_byte_digest sample_disk
           opened_sample opened_ghost).
  apply Reach_opened_sample.
Defined.

(** C9.  [Insert] with empty data leaves the content as it is, yet pushes
    an Insert Operation with empty [NewData], empties the redo stack and
    sets [modified]; the [Undo] that follows returns [true] and leaves the
    same content again.  So a buffer that a successful [Save] has just left
    unmodified is modified afterwards although its content is still the
    saved one. *)
Theorem Insert_empty_is_recorded offset b :
  fits (data b) →
  ∃ b1 b2,
    Insert offset [] b = Ret b1 ∧
    data b1 = data b ∧
    undoStack b1 = undoStack b ++ [mkOperation OpInsert (clamped offset b) [] []] ∧
    redoStack b1 = [] ∧
    IsModified b1 = true ∧
    Undo b1 = Ret (true, b2) ∧
    data b2 = data b ∧
    (∀ Sum256 disk b0 disk',
       Save Sum256 disk b0 = (disk', b, None) →
       IsModified b = false ∧ data b1 = data b0 ∧ IsModified b1 = true).
Proof.
  intros Hfit. unfold fits in Hfit.
  pose proof (len_nonneg (data b)) as Hd.
  assert (0 ≤ clamped offset b ≤ len (data b)) as Hc by (unfold clamped; lia).
  assert (spliced (clamped offset b) [] (data b) = data b) as Hsame.
  { unfold spliced. cbn [app]. apply take_drop. }
  destruct (links_Insert (clamped offset b) [] (data b)) as (_ & _ & _ & Hun & _);
    [done|cbn; len_solve|].
  rewrite Hsame in Hun.
  set (op := mkOperation OpInsert (clamped offset b) [] []) in *.
  exists (edited b (data b) op),
    (undone (edited b (data b) op) (undoStack b) op (data b)).
  split; [rewrite <- Hsame at 1; apply Insert_Ret; cbn; len_solve|].
  split_and!; [done|done|done|done| |done|].
  - by apply (Undo_pop _ (undoStack b) _ (data b)).
  - intros Sum256 disk b0 disk' HS. unfold Save in HS.
    case_bool_decide; [done|].
    destruct (os_WriteFile disk (filename b0) (data b0)) as [? [?|]]; [done|].
    injection HS as _ <-. done.
Qed.

Lemma Insert_empty_is_recorded_witness :
  ∃ b1 b2,
    Insert 1 [] opened_sample = Ret b1 ∧
    data b1 = data opened_sample ∧
    undoStack b1 = undoStack opened_sample
                     ++ [mkOperation OpInsert (clamped 1 opened_sample) [] []] ∧
    redoStack b1 = [] ∧
    IsModified b1 = true ∧
    Undo b1 = Ret (true, b2) ∧
    data b2 = data opened_sample ∧
    (∀ Sum256 disk b0 disk',
       Save Sum256 disk b0 = (disk', opened_sample, None) →
       IsModified opened_sample = false ∧ data b1 = data b0 ∧ IsModified b1 = true).
Proof.
  apply (Insert_empty_is_recorded 1 opened_sample).
  by vm_compute.
Defined.

(** C10.  [SetFilename] sets the filename and clears [isNew] and touches
    nothing else.  A buffer that was never opened nor saved holds no
    fingerprint, so once it is bound to a name by [SetFilename],
    [HasChangedOnDisk] answers [true] for any file that can be read. *)
Theorem SetFilename_binds_without_fingerprint Sum256 name b g :
  Reach Sum256 b g →
  (filename (SetFilename name b) = name ∧
   isNew (SetFilename name b) = false ∧
   data (SetFilename name b) = data b ∧
   modified (SetFilename name b) = modified b ∧
   originalHash (SetFilename name b) = originalHash b ∧
   undoStack (SetFilename name b) = undoStack b ∧
   redoStack (SetFilename name b) = redoStack b) ∧
  (synced g = None → name ≠ "" →
     originalHash (SetFilename name b) = "" ∧
     ∀ disk f current,
       os_Open disk name = inr f → ReadAll f = inr current →
       HasChangedOnDisk Sum256 disk (SetFilename name b) = (true, None)).
Proof.
  intros HR. split; [done|]. intros Hs Hname.
  destruct (Reach_consistent _ _ _ HR) as (_ & _ & _ & Hhash).
  rewrite Hs in Hhash. split; [done|].
  intros disk f current Ho Hr. unfold HasChangedOnDisk.
  cbn [SetFilename isNew filename originalHash].
  rewrite bool_decide_eq_false_2 by (intros [H|H]; congruence).
  rewrite Ho, Hr, Hhash.
  rewrite bool_decide_eq_true_2; [done|].
  apply fingerprint_not_empty.
Qed.

Lemma SetFilename_binds_without_fingerprint_witness :
  (filename (SetFilename "f" inserted_sample) = "f" ∧
   isNew (SetFilename "f" inserted_sample) = false ∧
   data (SetFilename "f" inserted_sample) = data inserted_sample ∧
   modified (SetFilename "f" inserted_sample) = modified inserted_sample ∧
   originalHash (SetFilename "f" inserted_sample) = originalHash inserted_sample ∧
   undoStack (SetFilename "f" inserted_sample) = undoStack inserted_sample ∧
   redoStack (SetFilename "f" inserted_sample) = redoStack inserted_sample) ∧
  (synced inserted_ghost = None → "f" ≠ "" →
     originalHash (SetFilename "f" inserted_sample) = "" ∧
     ∀ disk f current,
       os_Open disk "f" = inr f → ReadAll f = inr current →
       HasChangedOnDisk first_byte_digest disk (SetFilename "f" inserted_sample)
       = (true, None)).
Proof.
  apply (SetFilename_binds_without_fingerprint first_byte_digest "f"
           inserted_sample inserted_ghost).
  apply Reach_inserted_sample.
Defined.

Example HasChangedOnDisk_after_SetFilename :
  HasChangedOnDisk first_byte_digest sample_disk (SetFilename "f" New) = (true, None).
Proof. reflexivity. Qed.

(** * Further properties of the buffer *)

(** ** An edit, its undo and its redo *)

Lemma Undo_Redo_of_edit b d op :
  links op (data b) d →
  Undo (edited b d op) = Ret (true, undone (edited b d op) (undoStack b) op (data b)) ∧
  Redo (undone (edited b d op) (undoStack b) op (data b)) = Ret (true, edited b d op).
Proof.
  intros (_ & _ & Hre & Hun & _). split.
  - by apply Undo_pop.
  - by rewrite (Redo_pop _ [] op d).
Qed.

(** X1.  [Insert] followed by [Undo] gives back the content and the undo
    stack from before the [Insert], with [modified] telling whether
    Operations remain; the inserted Operation waits on the redo stack, and
    [Redo] brings back exactly the buffer [Insert] had produced. *)
Theorem Insert_Undo_Redo offset new b :
  len (data b) + len new ≤ maxAlloc →
  ∃ b1 b2,
    Insert offset new b = Ret b1 ∧
    Undo b1 = Ret (true, b2) ∧
    data b2 = data b ∧ undoStack b2 = undoStack b ∧
    redoStack b2 = [mkOperation OpInsert (clamped offset b) [] new] ∧
    IsModified b2 = CanUndo b ∧
    Redo b2 = Ret (true, b1).
Proof.
  intros Hfit. pose proof (len_nonneg (data b)) as Hd.
  destruct (Undo_Redo_of_edit b (spliced (clamped offset b) new (data b))
              (mkOperation OpInsert (clamped offset b) [] new)) as [HU HR].
  { apply links_Insert; [unfold clamped; lia|done]. }
  eexists _, _. split; [by apply Insert_Ret|]. split; [exact HU|].
  split_and!; done.
Qed.

Lemma Insert_Undo_Redo_witness :
  ∃ b1 b2,
    Insert 1 (bytes_of "XY") (buffer_of "abc") = Ret b1 ∧
    Undo b1 = Ret (true, b2) ∧
    data b2 = data (buffer_of "abc") ∧ undoStack b2 = undoStack (buffer_of "abc") ∧
    redoStack b2 = [mkOperation OpInsert (clamped 1 (buffer_of "abc")) [] (bytes_of "XY")] ∧
    IsModified b2 = CanUndo (buffer_of "abc") ∧
    Redo b2 = Ret (true, b1).
Proof.
  apply (Insert_Undo_Redo 1 (bytes_of "XY") (buffer_of "abc")).
  by vm_compute.
Defined.

(** X2.  A [Delete] that applies removes [min(count, size-offset)] bytes at
    [offset]: the size shrinks by that number, the content is what was
    before and after the span, and the Operation it records holds exactly
    the removed bytes.  [Undo] puts them back where they were, and [Redo]
    removes them again. *)
Theorem Delete_Undo_Redo offset count b :
  fits (data b) → 0 ≤ offset < Size b → 0 < count → offset + count ≤ MaxInt64 →
  ∃ b1 b2 removed,
    Delete offset count b = Ret b1 ∧
    len removed = Z.min count (Size b - offset) ∧
    data b = take (Z.to_nat offset) (data b) ++ removed
               ++ drop (Z.to_nat offset) (data b1) ∧
    data b1 = take (Z.to_nat offset) (data b)
               ++ drop (Z.to_nat offset + length removed) (data b) ∧
    Size b1 = Size b - len removed ∧
    undoStack b1 = undoStack b ++ [mkOperation OpDelete offset removed []] ∧
    Undo b1 = Ret (true, b2) ∧
    data b2 = data b ∧ undoStack b2 = undoStack b ∧
    Redo b2 = Ret (true, b1).
Proof.
  unfold Size. intros Hfit Ho Hc Hov.
  set (n := deleted offset count b).
  assert (0 < n ≤ len (data b) - offset) as Hn by (subst n; unfold deleted; lia).
  set (removed := take (Z.to_nat n) (drop (Z.to_nat offset) (data b))).
  assert (len removed = n) as Hlen by (subst removed; len_solve).
  destruct (Undo_Redo_of_edit b (cut offset n (data b))
              (mkOperation OpDelete offset removed [])) as [HU HR].
  { apply links_Delete; [done|lia..]. }
  eexists _, _, removed. split; [by apply Delete_Ret|].
  split; [by rewrite Hlen|].
  cbn [edited data undoStack].
  split_and!; [| |rewrite len_cut by lia; lia|done|exact HU|done|done|exact HR].
  - unfold cut. rewrite drop_app_length' by len_solve.
    subst removed. rewrite <- (take_drop (Z.to_nat offset) (data b)) at 1.
    f_equal. rewrite <- (take_drop (Z.to_nat n) (drop (Z.to_nat offset) (data b))) at 1.
    f_equal. rewrite drop_drop. f_equal. lia.
  - unfold cut. do 2 f_equal. unfold len in Hlen. lia.
Qed.

Lemma Delete_Undo_Redo_witness :
  ∃ b1 b2 removed,
    Delete 1 5 (buffer_of "abc") = Ret b1 ∧
    len removed = Z.min 5 (Size (buffer_of "abc") - 1) ∧
    data (buffer_of "abc") = take (Z.to_nat 1) (data (buffer_of "abc")) ++ removed
               ++ drop (Z.to_nat 1) (data b1) ∧
    data b1 = take (Z.to_nat 1) (data (buffer_of "abc"))
               ++ drop (Z.to_nat 1 + length removed) (data (buffer_of "abc")) ∧
    Size b1 = Size (buffer_of "abc") - len removed ∧
    undoStack b1 = undoStack (buffer_of "abc") ++ [mkOperation OpDelete 1 removed []] ∧
    Undo b1 = Ret (true, b2) ∧
    data b2 = data (buffer_of "abc") ∧ undoStack b2 = undoStack (buffer_of "abc") ∧
    Redo b2 = Ret (true, b1).
Proof.
  apply (Delete_Undo_Redo 1 5 (buffer_of "abc")); by vm_compute.
Defined.

(** ** Reading bytes *)

Lemma GetByte_byte_at offset b : GetByte offset b = Ret (byte_at (data b) offset).
Proof.
  unfold GetByte, byte_at. case_bool_decide as Hout.
  - case_bool_decide; [|done].
    rewrite lookup_ge_None_2; [done|]. unfold len in Hout. lia.
  - destruct (lookup_lt_is_Some_2 (data b) (Z.to_nat offset)) as [v Hv].
    { unfold len in Hout. lia. }
    rewrite (index_Ret _ _ v) by (done || lia). cbn [mbind go_bind].
    rewrite bool_decide_eq_true_2 by lia. by rewrite Hv.
Qed.

(** X3.  [GetByte] returns for every offset: with [true] and the byte at
    that index exactly when [0 <= offset < size], and with [false] and a
    zero byte otherwise. *)
Theorem GetByte_in_and_out_of_range offset b :
  ∃ v ok,
    GetByte offset b = Ret (v, ok) ∧
    (ok = true ↔ 0 ≤ offset < Size b) ∧
    (ok = true → data b !! Z.to_nat offset = Some v) ∧
    (ok = false → v = x00).
Proof.
  rewrite GetByte_byte_at. unfold byte_at, Size, len.
  case_bool_decide as Hneg.
  - destruct (data b !! Z.to_nat offset) as [v|] eqn:E.
    + pose proof (lookup_lt_Some _ _ _ E).
      exists v, true. split_and!; [done| |done|done]. split; [lia|done].
    + apply lookup_ge_None in E.
      exists x00, false. split_and!; [done| |done|done]. split; [done|lia].
  - exists x00, false. split_and!; [done| |done|done]. split; [done|lia].
Qed.

(** X4.  [GetBytes] with a count that is not negative returns the bytes
    from [offset] on, at most [count] of them and never past the end of
    the content; it returns nothing when [offset] is outside [0, size). *)
Theorem GetBytes_clipped offset count b :
  fits (data b) → 0 ≤ count → offset + count ≤ MaxInt64 →
  ∃ r, GetBytes offset count b = Ret r ∧
       (0 ≤ offset < Size b →
          r = take (Z.to_nat count) (drop (Z.to_nat offset) (data b)) ∧
          len r = Z.min count (Size b - offset)) ∧
       (offset < 0 ∨ Size b ≤ offset → r = []).
Proof.
  unfold fits, Size, MaxInt64, GetBytes. intros Hfit Hc Hov.
  pose proof maxAlloc_eq as HM. pose proof (len_nonneg (data b)) as Hd.
  case_bool_decide as Hout.
  { exists []. split; [done|]. split; [lia|done]. }
  rewrite add64_id by lia.
  set (e := if bool_decide _ then _ else _).
  assert (e = Z.min (offset + count) (len (data b))) as ->
    by (subst e; case_bool_decide; lia).
  rewrite sub64_id by lia.
  rewrite make_Ret by lia. cbn [mbind go_bind].
  rewrite slice_Ret by lia. cbn [mbind go_bind].
  rewrite copy_exact by len_solve.
  eexists. split; [done|]. split; [|lia]. intros _. split; [|len_solve].
  destruct (decide (offset + count ≤ len (data b))) as [Hle|Hgt].
  - by rewrite Z.min_l, Z.add_simpl_l by lia.
  - rewrite Z.min_r by lia. rewrite !take_ge; [done|len_solve..].
Qed.

Lemma GetBytes_clipped_witness :
  ∃ r, GetBytes 7 9 (buffer_of "Hello, World!") = Ret r ∧
       (0 ≤ 7 < Size (buffer_of "Hello, World!") →
          r = take (Z.to_nat 9) (drop (Z.to_nat 7) (data (buffer_of "Hello, World!"))) ∧
          len r = Z.min 9 (Size (buffer_of "Hello, World!") - 7)) ∧
       (7 < 0 ∨ Size (buffer_of "Hello, World!") ≤ 7 → r = []).
Proof.
  apply (GetBytes_clipped 7 9 (buffer_of "Hello, World!")); by vm_compute.
Defined.

(** X5.  A [Replace] inside the content keeps the size, makes [GetByte]
    at [offset] return the new byte, leaves every other index as it was,
    and records the old and the new byte; [Undo] restores the old byte and
    [Redo] writes the new one again. *)
Theorem Replace_Undo_Redo offset newByte b :
  fits (data b) → 0 ≤ offset < Size b →
  ∃ b1 b2 old,
    GetByte offset b = Ret (old, true) ∧
    Replace offset newByte b = Ret b1 ∧
    Size b1 = Size b ∧
    GetByte offset b1 = Ret (newByte, true) ∧
    (∀ i, i ≠ offset → GetByte i b1 = GetByte i b) ∧
    undoStack b1 = undoStack b ++ [mkOperation OpReplace offset [old] [newByte]] ∧
    Undo b1 = Ret (true, b2) ∧
    data b2 = data b ∧ undoStack b2 = undoStack b ∧
    Redo b2 = Ret (true, b1).
Proof.
  unfold Size. intros Hfit Ho.
  destruct (lookup_lt_is_Some_2 (data b) (Z.to_nat offset)) as [old Hold].
  { unfold len in Ho. lia. }
  destruct (Undo_Redo_of_edit b (<[Z.to_nat offset := newByte]> (data b))
              (mkOperation OpReplace offset [old] [newByte])) as [HU HR].
  { apply links_Replace; [done|lia|done]. }
  eexists _, _, old.
  split. { rewrite GetByte_byte_at. unfold byte_at.
           rewrite bool_decide_eq_true_2 by lia. by rewrite Hold. }
  split; [apply Replace_Ret; [lia|done]|].
  cbn [edited data undoStack].
  split_and!; [len_solve| | |done|exact HU|done|done|exact HR].
  - rewrite GetByte_byte_at. unfold byte_at. cbn [edited data].
    rewrite bool_decide_eq_true_2 by lia.
    rewrite list_lookup_insert_eq; [done|]. unfold len in Ho. lia.
  - intros i Hi. rewrite !GetByte_byte_at. unfold byte_at. cbn [edited data].
    case_bool_decide; [|done].
    rewrite list_lookup_insert_ne by lia. done.
Qed.

Lemma Replace_Undo_Redo_witness :
  ∃ b1 b2 old,
    GetByte 1 (buffer_of "abc") = Ret (old, true) ∧
    Replace 1 "x" (buffer_of "abc") = Ret b1 ∧
    Size b1 = Size (buffer_of "abc") ∧
    GetByte 1 b1 = Ret ("x"%byte, true) ∧
    (∀ i, i ≠ 1 → GetByte i b1 = GetByte i (buffer_of "abc")) ∧
    undoStack b1 = undoStack (buffer_of "abc")
                     ++ [mkOperation OpReplace 1 [old] ["x"%byte]] ∧
    Undo b1 = Ret (true, b2) ∧
    data b2 = data (buffer_of "abc") ∧ undoStack b2 = undoStack (buffer_of "abc") ∧
    Redo b2 = Ret (true, b1).
Proof.
  apply (Replace_Undo_Redo 1 "x" (buffer_of "abc")); by vm_compute.
Defined.

(** ** Counting matches *)

Lemma occurrences_step pat d i n :
  0 < n →
  occurrences pat d i n =
  (if bool_decide (occurs_at pat d i) then 1 else 0) + occurrences pat d (i + 1) (n - 1).
Proof.
  intros Hn. unfold occurrences. rewrite seqZ_cons by done.
  replace (Z.succ i) with (i + 1) by lia. replace (Z.pred n) with (n - 1) by lia.
  case_bool_decide.
  - rewrite filter_cons_True by done. rewrite len_cons. lia.
  - by rewrite filter_cons_False by done.
Qed.

Lemma occurrences_none pat d i n : n ≤ 0 → occurrences pat d i n = 0.
Proof. intros Hn. unfold occurrences. by rewrite seqZ_nil by done. Qed.

Lemma occurrences_nonneg pat d i n : 0 ≤ occurrences pat d i n.
Proof. apply len_nonneg. Qed.

Lemma occurrences_zero pat d lo n :
  occurrences pat d lo n = 0 ↔ ∀ k, lo ≤ k < lo + n → ¬ occurs_at pat d k.
Proof.
  unfold occurrences, len. split.
  - intros H k Hk Hocc.
    assert (k ∈ filter (occurs_at pat d) (seqZ lo n)) as Hin.
    { apply list_elem_of_filter. split; [done|]. apply elem_of_seqZ. lia. }
    destruct (filter (occurs_at pat d) (seqZ lo n)); [by apply elem_of_nil in Hin|].
    cbn in H. lia.
  - intros H. destruct (filter (occurs_at pat d) (seqZ lo n)) as [|k l] eqn:E; [done|].
    assert (k ∈ filter (occurs_at pat d) (seqZ lo n)) as Hin by (rewrite E; apply list_elem_of_here).
    apply list_elem_of_filter in Hin as [Hocc Hin]. apply elem_of_seqZ in Hin.
    destruct (H k); [lia|done].
Qed.

Lemma CountMatches_from_Ret d pat budget i c :
  fits d → fits pat → 0 ≤ c ≤ i →
  len d - len pat + 1 - i ≤ Z.of_nat budget →
  CountMatches_from budget d pat i c =
  Ret (c + occurrences pat d i (len d - len pat + 1 - i)).
Proof.
  unfold fits. pose proof maxAlloc_eq as HM.
  pose proof (len_nonneg d) as Hd. pose proof (len_nonneg pat) as Hp.
  intros Hfd Hfp. revert i c. induction budget as [|budget IH]; intros i c Hc Hb.
  - cbn [CountMatches_from]. rewrite sub64_id by lia.
    rewrite bool_decide_eq_false_2 by lia.
    rewrite occurrences_none by lia. f_equal. lia.
  - cbn [CountMatches_from]. rewrite sub64_id by lia.
    case_bool_decide as Hin.
    + rewrite match_from_occurs by (done || lia). cbn [mbind go_bind].
      rewrite (add64_id i 1) by lia.
      rewrite occurrences_step by lia.
      replace (len d - len pat + 1 - i - 1) with (len d - len pat + 1 - (i + 1)) by lia.
      case_bool_decide.
      * rewrite add64_id by lia. rewrite IH by lia. f_equal. lia.
      * rewrite IH by lia. f_equal.
    + rewrite occurrences_none by lia. f_equal. lia.
Qed.

Lemma CountMatches_Ret pattern b :
  fits (data b) → fits pattern →
  CountMatches pattern b =
  Ret (if bool_decide (pattern = [] ∨ data b = []) then 0
       else occurrences pattern (data b) 0 (len (data b) - len pattern + 1)).
Proof.
  intros Hfd Hfp. unfold CountMatches.
  case_bool_decide as Hempty.
  - rewrite bool_decide_eq_true_2; [done|].
    destruct Hempty as [H|H]; [left; by destruct pattern|right; by destruct (data b)].
  - rewrite bool_decide_eq_false_2.
    2:{ intros [H|H]; rewrite H in Hempty; cbn in Hempty; tauto. }
    rewrite CountMatches_from_Ret; [|done|done|lia|].
    + f_equal. by rewrite Z.sub_0_r.
    + pose proof (len_nonneg pattern). assert (len pattern ≠ 0) by tauto.
      unfold len in *. lia.
Qed.

(** X6.  [CountMatches] returns 0 when the pattern or the content is empty,
    and otherwise the number of indices in [0, size-len(pattern)] at which
    the pattern occurs, overlapping occurrences counted one by one. *)
Theorem CountMatches_counts_occurrences pattern b :
  fits (data b) → fits pattern →
  CountMatches pattern b =
  Ret (if bool_decide (pattern = [] ∨ data b = []) then 0
       else occurrences pattern (data b) 0 (Size b - len pattern + 1)).
Proof. apply CountMatches_Ret. Qed.

Lemma CountMatches_counts_occurrences_witness :
  CountMatches (bytes_of "aa") (buffer_of "aaa") =
  Ret (if bool_decide (bytes_of "aa" = [] ∨ data (buffer_of "aaa") = []) then 0
       else occurrences (bytes_of "aa") (data (buffer_of "aaa")) 0
              (Size (buffer_of "aaa") - len (bytes_of "aa") + 1)).
Proof.
  apply (CountMatches_counts_occurrences (bytes_of "aa") (buffer_of "aaa"));
    by vm_compute.
Defined.

(** X7.  [CountMatches] and [Find] agree: the count is 0 exactly when a
    forward [Find] from offset 0 returns -1, and when the count is positive
    [Find] returns an index at which the pattern occurs. *)
Theorem CountMatches_zero_iff_Find_fails pattern b :
  fits (data b) → fits pattern →
  ∃ n r,
    CountMatches pattern b = Ret n ∧
    Find pattern 0 true b = Ret r ∧
    0 ≤ n ∧
    (n = 0 ↔ r = -1) ∧
    (0 < n → occurs_at pattern (data b) r).
Proof.
  intros Hfd Hfp. rewrite CountMatches_Ret by done.
  unfold Find.
  pose proof (len_nonneg (data b)) as Hd. pose proof (len_nonneg pattern) as Hp.
  assert ((pattern = [] ∨ data b = []) ↔ (len pattern = 0 ∨ len (data b) = 0)) as Heq.
  { split; intros [H|H].
    - left. by rewrite H.
    - right. by rewrite H.
    - left. by destruct pattern.
    - right. by destruct (data b). }
  destruct (decide (pattern = [] ∨ data b = [])) as [Hempty|Hempty].
  - rewrite (bool_decide_eq_true_2 (pattern = [] ∨ data b = [])) by done.
    rewrite (bool_decide_eq_true_2 (len pattern = 0 ∨ len (data b) = 0)) by tauto.
    exists 0, (-1). split_and!; [done|done|done|done|lia].
  - rewrite (bool_decide_eq_false_2 (pattern = [] ∨ data b = [])) by done.
    rewrite (bool_decide_eq_false_2 (len pattern = 0 ∨ len (data b) = 0)) by tauto.
    assert (0 < len pattern) by (assert (len pattern ≠ 0) by tauto; lia).
    destruct (Find_forward_Ret (data b) pattern (length (data b)) 0)
      as (r & -> & Hr); [done|done|lia|unfold len in *; lia|].
    eexists _, r. split_and!; [done|done|apply occurrences_nonneg| |].
    + rewrite occurrences_zero.
      destruct Hr as [[-> Hnone]|(Hrange & Hocc & _)].
      * split; [done|]. intros _ k Hk. apply Hnone. lia.
      * split; [|lia]. intros Hnone. destruct (Hnone r); [lia|done].
    + intros Hpos. destruct Hr as [[-> Hnone]|(Hrange & Hocc & _)]; [|done].
      assert (occurrences pattern (data b) 0 (len (data b) - len pattern + 1) = 0); [|lia].
      apply occurrences_zero. intros k Hk. apply Hnone. lia.
Qed.

Lemma CountMatches_zero_iff_Find_fails_witness :
  ∃ n r,
    CountMatches (bytes_of "ab") (buffer_of "ababab") = Ret n ∧
    Find (bytes_of "ab") 0 true (buffer_of "ababab") = Ret r ∧
    0 ≤ n ∧
    (n = 0 ↔ r = -1) ∧
    (0 < n → occurs_at (bytes_of "ab") (data (buffer_of "ababab")) r).
Proof.
  apply (CountMatches_zero_iff_Find_fails (bytes_of "ab") (buffer_of "ababab"));
    by vm_compute.
Defined.

(** ** Reachable buffers, case by case *)

Lemma after_same b g cur :
  History (undoStack b) (priors g) cur → after b b g = g.
Proof.
  intros Hh. destruct g as [ps s]. unfold after. cbn [priors synced] in *.
  by rewrite (shadow_keep _ _ _ _ Hh).
Qed.

Lemma renamed_same b : renamed (filename b) b = b.
Proof. by destruct b. Qed.

(** Every reachable buffer is new, in sync, or comes from a reachable one
    by a renaming, an applied edit, a popping [Undo] or a popping [Redo]. *)
Lemma Reach_cases Sum256 (P : Buffer → Ghost → Prop) :
  P New {| priors := []; synced := None |} →
  (∀ name d, fits d →
     P (in_sync Sum256 name d) {| priors := []; synced := Some d |}) →
  (∀ b g name, Reach Sum256 b g → P b g → P (SetFilename name b) g) →
  (∀ b g name, Reach Sum256 b g → P b g → P (renamed name b) g) →
  (∀ b g d op, Reach Sum256 b g → P b g → links op (data b) d →
     P (edited b d op) {| priors := priors g ++ [data b]; synced := synced g |}) →
  (∀ b g ops op ps prior, Reach Sum256 b g → P b g →
     undoStack b = ops ++ [op] → priors g = ps ++ [prior] →
     links op prior (data b) →
     P (undone b ops op prior) {| priors := ps; synced := synced g |}) →
  (∀ b g ops op next, Reach Sum256 b g → P b g →
     redoStack b = ops ++ [op] → links op (data b) next →
     P (redone b ops op next)
       {| priors := priors g ++ [data b]; synced := synced g |}) →
  ∀ b g, Reach Sum256 b g → P b g.
Proof.
  intros HNew HSync HSet HRen HEdit HUndo HRedo.
  induction 1 as
    [ | disk name b HO Hfit | b g name HRb IH
    | b g offset new b' HRb IH Hr HI | b g offset count b' HRb IH Hro Hrc HD
    | b g offset newByte b' HRb IH Hr HR
    | b g r b' HRb IH HU | b g r b' HRb IH HR
    | b g disk disk' b' err HRb IH HS | b g disk name disk' b' err HRb IH HS ].
  - done.
  - unfold Open in HO.
    destruct (os_Open disk name) as [|f]; [done|].
    destruct (ReadAll f) as [|d]; [done|].
    injection HO as <-. by apply HSync.
  - by apply HSet.
  - destruct (Reach_consistent _ _ _ HRb) as (Hfit & Hh & _).
    pose proof (Insert_inv _ _ _ _ Hfit HI) as Hb.
    rewrite Insert_Ret in HI by done. injection HI as <-.
    unfold after. rewrite (shadow_push _ _ _ (mkOperation OpInsert (clamped offset b) [] new)) by done.
    apply HEdit; [done|done|].
    apply links_Insert; [|done]. unfold clamped.
    pose proof (len_nonneg (data b)). lia.
  - destruct (Reach_consistent _ _ _ HRb) as (Hfit & Hh & _).
    destruct (Delete_inv _ _ _ _ Hfit Hro Hrc HD) as [->|(Ho & Hc & Hov)].
    { by rewrite (after_same _ _ _ Hh). }
    rewrite Delete_Ret in HD by done. injection HD as <-.
    unfold after. erewrite shadow_push by done.
    apply HEdit; [done|done|].
    apply links_Delete; unfold deleted; [done|lia..].
  - destruct (Reach_consistent _ _ _ HRb) as (Hfit & Hh & _).
    destruct (decide (offset < 0 ∨ len (data b) ≤ offset)) as [Hn|Hn].
    { rewrite Replace_noop in HR by done. injection HR as <-.
      by rewrite (after_same _ _ _ Hh). }
    destruct (lookup_lt_is_Some_2 (data b) (Z.to_nat offset)) as [old Hold].
    { unfold len in Hn. lia. }
    rewrite (Replace_Ret _ _ _ old) in HR by (done || lia). injection HR as <-.
    unfold after. erewrite shadow_push by done.
    apply HEdit; [done|done|].
    apply links_Replace; [done|lia|done].
  - destruct (Reach_consistent _ _ _ HRb) as (Hfit & Hh & _).
    inversion Hh as [cur Hs Hp|ops ps prev op cur Hh' Hl Hs Hp]; subst cur.
    { rewrite Undo_empty in HU by done. injection HU as <- <-.
      by rewrite (after_same _ _ _ Hh). }
    pose proof Hl as (_ & _ & _ & Hun & _).
    rewrite (Undo_pop _ ops op prev) in HU by done. injection HU as <- <-.
    unfold after. rewrite <- Hp.
    rewrite (shadow_pop _ _ ops op ps prev prev) by done.
    by apply HUndo.
  - destruct (Reach_consistent _ _ _ HRb) as (Hfit & Hh & Hf & _).
    inversion Hf as [cur Hs|ops op cur next Hl Hf' Hs]; subst cur.
    { rewrite Redo_empty in HR by done. injection HR as <- <-.
      by rewrite (after_same _ _ _ Hh). }
    pose proof Hl as (_ & _ & Hre & _).
    rewrite (Redo_pop _ ops op next) in HR by done. injection HR as <- <-.
    unfold after. rewrite (shadow_push _ _ _ op) by done.
    by apply HRedo.
  - destruct (Reach_consistent _ _ _ HRb) as (Hfit & Hh & _).
    assert (∀ e, after_save b b (Some e) g = g) as Hsame.
    { intros e. destruct g. unfold after_save. cbn [priors synced] in *.
      by rewrite (shadow_keep _ _ _ _ Hh). }
    unfold Save in HS. case_bool_decide.
    { injection HS as <- <- <-. by rewrite Hsame. }
    destruct (os_WriteFile disk (filename b) (data b)) as [d' [e|]].
    { injection HS as <- <- <-. by rewrite Hsame. }
    injection HS as <- <- <-.
    unfold after_save. rewrite shadow_clear by done.
    by apply (HSync (filename b) (data b)).
  - destruct (Reach_consistent _ _ _ HRb) as (Hfit & Hh & _).
    unfold SaveAs, Save in HS. cbn [filename data] in HS.
    assert (∀ e, after_save b (renamed name b) (Some e) g = g) as Hsame.
    { intros e. destruct g. unfold after_save. cbn [priors synced] in *.
      by rewrite (shadow_keep _ _ _ _ Hh). }
    case_bool_decide.
    { injection HS as <- <- <-. fold (renamed name b). rewrite Hsame. by apply HRen. }
    destruct (os_WriteFile disk name (data b)) as [d' [e|]].
    { injection HS as <- <- <-. fold (renamed name b). rewrite Hsame. by apply HRen. }
    injection HS as <- <- <-.
    unfold after_save. rewrite shadow_clear by done.
    by apply (HSync name (data b)).
Qed.

Lemma hd_snoc {A} (x y : A) l : hd x (l ++ [y]) = hd y l.
Proof. by destruct l. Qed.

Lemma Reach_tidy Sum256 b g :
  Reach Sum256 b g →
  IsModified b = CanUndo b ∧ hd (data b) (priors g) = base g.
Proof.
  revert b g. apply Reach_cases; unfold IsModified, CanUndo.
  - done.
  - done.
  - done.
  - done.
  - intros b g d op _ [IH1 IH2] _. cbn [edited modified undoStack data priors].
    split; [by rewrite bool_decide_eq_true_2 by len_solve|].
    by rewrite hd_snoc.
  - intros b g ops op ps prior _ [IH1 IH2] Hs Hp _.
    cbn [undone modified undoStack data priors]. split; [done|].
    rewrite Hp, hd_snoc in IH2. done.
  - intros b g ops op next _ [IH1 IH2] Hs _.
    cbn [redone modified undoStack data priors].
    split; [by rewrite bool_decide_eq_true_2 by len_solve|].
    by rewrite hd_snoc.
Qed.

Lemma Reach_undone_sample : Reach first_byte_digest undone_sample undone_ghost.
Proof.
  apply (Reach_Undo first_byte_digest appended_sample _ true).
  - apply (Reach_Insert first_byte_digest inserted_sample _ 2 (bytes_of "c")).
    + apply Reach_inserted_sample.
    + by vm_compute.
    + reflexivity.
  - reflexivity.
Defined.

(** X8.  On every reachable buffer [IsModified] and [CanUndo] agree: the
    buffer counts as modified exactly while an Operation can be undone. *)
Theorem IsModified_is_CanUndo Sum256 b g :
  Reach Sum256 b g → IsModified b = CanUndo b.
Proof. intros HR. by destruct (Reach_tidy _ _ _ HR). Qed.

Lemma IsModified_is_CanUndo_witness :
  IsModified undone_sample = CanUndo undone_sample.
Proof.
  apply (IsModified_is_CanUndo first_byte_digest undone_sample undone_ghost).
  apply Reach_undone_sample.
Defined.

Lemma Reach_unmodified Sum256 b g :
  Reach Sum256 b g → IsModified b = false →
  data b = base g ∧ undoStack b = [].
Proof.
  intros HR Hm. destruct (Reach_tidy _ _ _ HR) as [H1 H2].
  destruct (Reach_consistent _ _ _ HR) as (_ & Hh & _).
  rewrite H1 in Hm. unfold CanUndo in Hm. apply bool_decide_eq_false in Hm.
  assert (undoStack b = []) as Hu.
  { destruct (undoStack b); [done|]. rewrite len_cons in Hm.
    pose proof (len_nonneg l). lia. }
  split; [|done]. rewrite Hu in Hh. inversion Hh as [cur Hs Hp|]; subst.
  - by rewrite <- Hp in H2.
  - by destruct ops.
Qed.

(** X9.  A reachable buffer that is not modified holds exactly the content
    of the last [Open] or successful [Save], and no content at all when
    there was neither. *)
Theorem unmodified_content_is_synced Sum256 b g :
  Reach Sum256 b g → IsModified b = false →
  data b = base g ∧ undoStack b = [].
Proof. apply Reach_unmodified. Qed.

Lemma unmodified_content_is_synced_witness :
  data opened_sample = base opened_ghost ∧ undoStack opened_sample = [].
Proof.
  apply (unmodified_content_is_synced first_byte_digest opened_sample opened_ghost).
  - apply Reach_opened_sample.
  - reflexivity.
Defined.

(** X10.  On a reachable buffer neither [Undo] nor [Redo] panics; each
    returns whether there was an Operation to take, and leaves the buffer
    as it is when there was none. *)
Theorem Undo_Redo_return Sum256 b g :
  Reach Sum256 b g →
  ∃ b1 b2,
    Undo b = Ret (CanUndo b, b1) ∧ (CanUndo b = false → b1 = b) ∧
    Redo b = Ret (CanRedo b, b2) ∧ (CanRedo b = false → b2 = b).
Proof.
  intros HR. destruct (Reach_consistent _ _ _ HR) as (_ & Hh & Hf & _).
  assert (∃ b1, Undo b = Ret (CanUndo b, b1) ∧ (CanUndo b = false → b1 = b))
    as (b1 & HU & HU').
  { unfold CanUndo.
    inversion Hh as [cur Hs Hp|ops ps prev op cur Hh' Hl Hs Hp]; subst cur.
    - exists b. by rewrite Undo_empty.
    - pose proof Hl as (_ & _ & _ & Hun & _).
      rewrite bool_decide_eq_true_2 by len_solve.
      eexists. split; [by apply Undo_pop|done]. }
  assert (∃ b2, Redo b = Ret (CanRedo b, b2) ∧ (CanRedo b = false → b2 = b))
    as (b2 & HRe & HRe').
  { unfold CanRedo.
    inversion Hf as [cur Hs|ops op cur next Hl Hf' Hs]; subst cur.
    - exists b. by rewrite Redo_empty.
    - pose proof Hl as (_ & _ & Hre & _).
      rewrite bool_decide_eq_true_2 by len_solve.
      eexists. split; [by apply Redo_pop|done]. }
  by exists b1, b2.
Qed.

Lemma Undo_Redo_return_witness :
  ∃ b1 b2,
    Undo undone_sample = Ret (CanUndo undone_sample, b1) ∧
    (CanUndo undone_sample = false → b1 = undone_sample) ∧
    Redo undone_sample = Ret (CanRedo undone_sample, b2) ∧
    (CanRedo undone_sample = false → b2 = undone_sample).
Proof.
  apply (Undo_Redo_return first_byte_digest undone_sample undone_ghost).
  apply Reach_undone_sample.
Defined.

(** X11.  On a reachable buffer, [Undo] followed by [Redo] gives back the
    very same buffer, and so does [Redo] followed by [Undo]. *)
Theorem Undo_Redo_inverse Sum256 b g :
  Reach Sum256 b g →
  (CanUndo b = true → ∃ b1, Undo b = Ret (true, b1) ∧ Redo b1 = Ret (true, b)) ∧
  (CanRedo b = true → ∃ b1, Redo b = Ret (true, b1) ∧ Undo b1 = Ret (true, b)).
Proof.
  intros HR. destruct (Reach_consistent _ _ _ HR) as (_ & Hh & Hf & _).
  destruct (Reach_tidy _ _ _ HR) as [Hm _]. unfold IsModified in Hm.
  split; intros Hcan.
  - inversion Hh as [cur Hs Hp|ops ps prev op cur Hh' Hl Hs Hp]; subst cur.
    { unfold CanUndo in Hcan. by rewrite <- Hs in Hcan. }
    pose proof Hl as (_ & _ & Hre & Hun & _).
    eexists. split; [by apply Undo_pop|].
    rewrite (Redo_pop _ (redoStack b) op (data b)) by done.
    do 2 f_equal. unfold redone. cbn [undone filename originalHash undoStack isNew].
    rewrite Hcan in Hm. destruct b. cbn in *. by subst.
  - inversion Hf as [cur Hs|ops op cur next Hl Hf' Hs]; subst cur.
    { unfold CanRedo in Hcan. by rewrite <- Hs in Hcan. }
    pose proof Hl as (_ & _ & Hre & Hun & _).
    eexists. split; [by apply Redo_pop|].
    rewrite (Undo_pop _ (undoStack b) op (data b)) by done.
    do 2 f_equal. unfold undone. cbn [redone filename originalHash redoStack isNew].
    unfold CanUndo in Hm. destruct b. cbn in *. by subst.
Qed.

Lemma Undo_Redo_inverse_witness :
  (CanUndo undone_sample = true →
     ∃ b1, Undo undone_sample = Ret (true, b1) ∧ Redo b1 = Ret (true, undone_sample)) ∧
  (CanRedo undone_sample = true →
     ∃ b1, Redo undone_sample = Ret (true, b1) ∧ Undo b1 = Ret (true, undone_sample)).
Proof.
  apply (Undo_Redo_inverse first_byte_digest undone_sample undone_ghost).
  apply Reach_undone_sample.
Defined.



(** ** Opening and saving *)

Lemma HasChangedOnDisk_in_sync Sum256 disk name d f :
  os_Open disk name = inr f → ReadAll f = inr d →
  HasChangedOnDisk Sum256 disk (in_sync Sum256 name d) = (false, None).
Proof.
  intros Ho Hr. unfold HasChangedOnDisk. cbn [in_sync isNew filename originalHash].
  case_bool_decide; [done|]. rewrite Ho, Hr.
  by rewrite bool_decide_eq_false_2 by (intros H'; by apply H').
Qed.

(** X13.  [Open] either fails with the error of opening or reading the file
    and returns no buffer, or returns a buffer that holds the file's bytes
    under the given name, with their fingerprint, no history, neither new
    nor modified; asked right away, [HasChangedOnDisk] says that nothing
    changed. *)
Theorem Open_result Sum256 disk name :
  (∃ f d, os_Open disk name = inr f ∧ ReadAll f = inr d ∧
          Open Sum256 disk name = (Some (in_sync Sum256 name d), None) ∧
          HasChangedOnDisk Sum256 disk (in_sync Sum256 name d) = (false, None)) ∨
  (∃ e, (os_Open disk name = inl e ∨
         ∃ f, os_Open disk name = inr f ∧ ReadAll f = inl e) ∧
        Open Sum256 disk name = (None, Some (ErrOS e))).
Proof.
  unfold Open. destruct (os_Open disk name) as [e|f] eqn:Ho.
  - right. exists e. split; [by left|done].
  - destruct (ReadAll f) as [e|d] eqn:Hr.
    + right. exists e. split; [right; by exists f|done].
    + left. exists f, d. split_and!; [done|done|done|].
      by apply (HasChangedOnDisk_in_sync _ _ _ _ f).
Qed.

(** X14.  After a successful [Save], opening the saved path on the disk as
    the write left it returns a buffer equal to the saved one, content
    included, and [HasChangedOnDisk] says that nothing changed. *)
Theorem Save_then_Open Sum256 disk b disk' b' :
  Save Sum256 disk b = (disk', b', None) →
  b' = in_sync Sum256 (filename b) (data b) ∧
  Open Sum256 disk' (filename b) = (Some b', None) ∧
  HasChangedOnDisk Sum256 disk' b' = (false, None).
Proof.
  unfold Save. case_bool_decide as Hname; [done|].
  unfold os_WriteFile.
  destruct (writes disk (filename b) (data b)) as [|e residue]; [|done].
  intros [= <- <-]. split; [done|].
  assert (os_Open
            {| os_Open := λ n, if decide (n = filename b)
                               then inr {| ReadAll := inr (data b) |}
                               else os_Open disk n;
               writes := writes disk |} (filename b)
          = inr {| ReadAll := inr (data b) |}) as Ho.
  { cbn [os_Open]. by rewrite decide_True. }
  split.
  - unfold Open. by rewrite Ho.
  - by apply (HasChangedOnDisk_in_sync _ _ _ _ {| ReadAll := inr (data b) |}).
Qed.

Lemma Save_then_Open_witness :
  in_sync first_byte_digest "f" (bytes_of "abc")
  = in_sync first_byte_digest (filename opened_sample) (data opened_sample) ∧
  Open first_byte_digest (fst (fst (Save first_byte_digest sample_disk opened_sample)))
    (filename opened_sample)
  = (Some (in_sync first_byte_digest "f" (bytes_of "abc")), None) ∧
  HasChangedOnDisk first_byte_digest
    (fst (fst (Save first_byte_digest sample_disk opened_sample)))
    (in_sync first_byte_digest "f" (bytes_of "abc")) = (false, None).
Proof.
  apply (Save_then_Open first_byte_digest sample_disk opened_sample).
  reflexivity.
Defined.

(** X15.  [SaveAs] always leaves the buffer bound to the new name.  When
    the write fails, or the name is empty, nothing else changes: the buffer
    keeps its content, digest, flags and history under the new name.  When
    it succeeds the buffer is in sync under the new name and the file holds
    the content.  The error is the unbound-path error exactly when the name
    is empty. *)
Theorem SaveAs_rebinds Sum256 disk name b :
  ∃ disk' b' err,
    SaveAs Sum256 disk name b = (disk', b', err) ∧
    filename b' = name ∧
    (err = Some ErrNoFilename ↔ name = "") ∧
    (err ≠ None → b' = renamed name b) ∧
    (err = None →
       b' = in_sync Sum256 name (data b) ∧
       ∃ f, os_Open disk' name = inr f ∧ ReadAll f = inr (data b)).
Proof.
  unfold SaveAs, Save. cbn [filename data].
  case_bool_decide as Hname.
  { eexists _, _, _. split; [done|]. split_and!; done. }
  unfold os_WriteFile.
  destruct (writes disk name (data b)) as [|e residue].
  - eexists _, _, _. split; [done|]. split_and!; [done| |done|].
    + split; [done|]. intros H. by destruct Hname.
    + intros _. split; [done|]. cbn [os_Open].
      rewrite decide_True by done. by eexists.
  - eexists _, _, _. split; [done|]. split_and!; [done| |done|done].
    split; [done|]. intros H. by destruct Hname.
Qed.

(** * Properties of the editor *)

(** ** Writing through the current tab *)

Lemma currentTab_Some m t :
  editor.currentTab m = Some t →
  0 ≤ editor.activeTab m ∧
  (Z.to_nat (editor.activeTab m) < length (editor.tabs m))%nat ∧
  editor.tabs m !! Z.to_nat (editor.activeTab m) = Some t.
Proof.
  unfold editor.currentTab. case_bool_decide as H; [done|]. intros Ht.
  unfold len in H. split_and!; [lia|lia|done].
Qed.

Lemma put_current m t : editor.currentTab m = Some t → put t m = m.
Proof.
  intros (_ & _ & Ht)%currentTab_Some. unfold put.
  rewrite list_insert_id by done. by destruct m.
Qed.

Lemma currentTab_put m t0 t :
  editor.currentTab m = Some t0 → editor.currentTab (put t m) = Some t.
Proof.
  intros (Ha & Hl & Ht)%currentTab_Some. unfold editor.currentTab, put.
  cbn [editor.set_tabs editor.tabs editor.activeTab].
  rewrite bool_decide_eq_false_2 by (unfold len; rewrite length_insert; lia).
  by apply list_lookup_insert_eq.
Qed.

Lemma put_put m t1 t2 : put t2 (put t1 m) = put t2 m.
Proof.
  unfold put. cbn [editor.set_tabs editor.tabs editor.activeTab].
  by rewrite list_insert_insert_eq.
Qed.

Lemma on_tab_current f m t :
  editor.currentTab m = Some t → editor.on_tab f m = put (f t) m.
Proof. intros Ht. unfold editor.on_tab. by rewrite Ht. Qed.

Lemma on_tab_put f m t0 t :
  editor.currentTab m = Some t0 → editor.on_tab f (put t m) = put (f t) m.
Proof.
  intros Ht. rewrite (on_tab_current _ _ t) by by eapply currentTab_put.
  apply put_put.
Qed.

Lemma on_tab_go_current f m t t' :
  editor.currentTab m = Some t → f t = Ret t' →
  editor.on_tab_go f m = Ret (put t' m).
Proof. intros Ht Hf. unfold editor.on_tab_go. by rewrite Ht, Hf. Qed.

Lemma on_tab_go_put f m t0 t t' :
  editor.currentTab m = Some t0 → f t = Ret t' →
  editor.on_tab_go f (put t m) = Ret (put t' m).
Proof.
  intros Ht Hf.
  rewrite (on_tab_go_current _ _ t t') by (done || by eapply currentTab_put).
  by rewrite put_put.
Qed.

Lemma visibleRows_put t m : editor.visibleRows (put t m) = editor.visibleRows m.
Proof. done. Qed.

(** ** Cursor movement *)

Lemma clampPos_in_range pos t :
  fits (data (editor.Buffer_ t)) →
  0 ≤ editor.clampPos pos t ≤ Z.max 0 (Size (editor.Buffer_ t) - 1) ∧
  (0 ≤ pos ≤ Z.max 0 (Size (editor.Buffer_ t) - 1) → editor.clampPos pos t = pos).
Proof.
  unfold editor.clampPos, fits, Size. intros Hfit. pose proof maxAlloc_eq.
  pose proof (len_nonneg (data (editor.Buffer_ t))).
  rewrite sub64_id by lia. repeat case_bool_decide; lia.
Qed.

Lemma visibleRows_bounds m :
  1 ≤ editor.visibleRows m ∧
  (- 2 ^ 62 ≤ editor.height m ≤ 2 ^ 62 → editor.visibleRows m ≤ 2 ^ 62).
Proof.
  unfold editor.visibleRows.
  change (2 ^ 62) with 4611686018427387904.
  split; [case_bool_decide; lia|]. intros Hh.
  rewrite sub64_id by lia. case_bool_decide; lia.
Qed.

Lemma cursor_row_bounds c :
  int64_range c → - 2 ^ 60 ≤ c `quot` editor.bytesPerRow ≤ 2 ^ 60.
Proof.
  unfold int64_range, MinInt64, MaxInt64, editor.bytesPerRow.
  change (2 ^ 63) with 9223372036854775808. change (2 ^ 60) with 1152921504606846976.
  intros Hc. pose proof (Z.quot_rem' c 16). pose proof (Z.rem_bound_abs c 16). lia.
Qed.

Lemma ensureCursorVisible_put m t :
  editor.currentTab m = Some t →
  ∃ y, editor.ensureCursorVisible m = put (editor.set_ScrollY y t) m ∧
       (scroll_in_range m t →
        cursor_visible m (editor.set_ScrollY y t) ∧
        (cursor_visible m t → y = editor.ScrollY t)).
Proof.
  intros Ht. unfold editor.ensureCursorVisible, cursor_visible, scroll_in_range.
  rewrite Ht.
  destruct (visibleRows_bounds m) as [Hv1 Hv2].
  pose proof (cursor_row_bounds (editor.Cursor t)) as Hrow.
  set (row := editor.Cursor t `quot` editor.bytesPerRow) in *.
  change (2 ^ 62) with 4611686018427387904 in *.
  change (2 ^ 60) with 1152921504606846976 in *.
  case_bool_decide as H1.
  - exists row. rewrite (on_tab_current _ _ t) by done. split; [done|].
    intros (Hc & Hs & Hh). specialize (Hv2 Hh). specialize (Hrow Hc).
    cbn [editor.set_ScrollY editor.ScrollY editor.Cursor]. fold row. lia.
  - case_bool_decide as H2.
    + exists (add64 (sub64 row (editor.visibleRows m)) 1).
      rewrite (on_tab_current _ _ t) by done. split; [done|].
      intros (Hc & Hs & Hh). specialize (Hv2 Hh). specialize (Hrow Hc).
      cbn [editor.set_ScrollY editor.ScrollY editor.Cursor]. fold row.
      rewrite add64_id in H2 by lia.
      rewrite sub64_id, add64_id by (rewrite ?sub64_id; lia). lia.
    + exists (editor.ScrollY t).
      replace (editor.set_ScrollY (editor.ScrollY t) t) with t by (by destruct t).
      split; [by rewrite put_current|].
      intros (Hc & Hs & Hh). specialize (Hv2 Hh). specialize (Hrow Hc).
      fold row. rewrite add64_id in H2 by lia. lia.
Qed.

Lemma clampPos_Buffer pos t t' :
  editor.Buffer_ t' = editor.Buffer_ t → editor.clampPos pos t' = editor.clampPos pos t.
Proof. unfold editor.clampPos. by intros ->. Qed.

(** The tab [moveCursor] and [selectMove] leave, before scrolling. *)
Lemma moveCursor_put delta clearSel m t :
  editor.currentTab m = Some t →
  ∃ y, let t1 := if clearSel || negb (editor.Active (editor.Selection t))
                 then editor.set_Active false t else t in
       let t2 := editor.set_Cursor
                   (editor.clampPos (add64 (editor.Cursor t) delta) t) t1 in
       editor.moveCursor delta clearSel m = put (editor.set_ScrollY y t2) m ∧
       (scroll_in_range m t2 →
        cursor_visible m (editor.set_ScrollY y t2) ∧
        (cursor_visible m t2 → y = editor.ScrollY t)).
Proof.
  intros Ht. unfold editor.moveCursor. rewrite Ht.
  set (t1 := if clearSel || negb (editor.Active (editor.Selection t))
             then editor.set_Active false t else t).
  assert ((if clearSel || negb (editor.Active (editor.Selection t))
           then editor.clearSelection m else m) = put t1 m) as ->.
  { subst t1. unfold editor.clearSelection.
    destruct (clearSel || negb _); [by apply on_tab_current|by rewrite put_current]. }
  rewrite (on_tab_put _ _ t) by done.
  assert (editor.Cursor t1 = editor.Cursor t ∧ editor.Buffer_ t1 = editor.Buffer_ t
          ∧ editor.ScrollY t1 = editor.ScrollY t) as (Hc & Hb & Hy).
  { subst t1. by destruct (clearSel || negb _). }
  rewrite Hc, (clampPos_Buffer _ t t1) by done.
  set (t2 := editor.set_Cursor _ t1).
  destruct (ensureCursorVisible_put (put t2 m) t2) as (y & -> & Hvis).
  { by eapply currentTab_put. }
  exists y. cbn zeta. rewrite put_put. split; [done|].
  intros Hs. destruct Hvis as [H1 H2]; [done|]. split; [done|].
  intros Hv. rewrite H2 by done. exact Hy.
Qed.

Lemma setCursor_put pos m t :
  editor.currentTab m = Some t →
  ∃ y, let t2 := editor.set_Cursor (editor.clampPos pos t)
                   (editor.set_Active false t) in
       editor.setCursor pos m = put (editor.set_ScrollY y t2) m ∧
       (scroll_in_range m t2 →
        cursor_visible m (editor.set_ScrollY y t2) ∧
        (cursor_visible m t2 → y = editor.ScrollY t)).
Proof.
  intros Ht. unfold editor.setCursor. rewrite Ht. cbn zeta.
  unfold editor.clearSelection.
  rewrite (on_tab_current (editor.set_Active false) m t) by done.
  rewrite (on_tab_put _ _ t) by done.
  rewrite (clampPos_Buffer _ t (editor.set_Active false t)) by done.
  set (t2 := editor.set_Cursor _ _).
  destruct (ensureCursorVisible_put (put t2 m) t2) as (y & -> & Hvis).
  { by eapply currentTab_put. }
  exists y. cbn zeta. rewrite put_put. split; [done|].
  intros Hs. destruct Hvis as [H1 H2]; [done|]. split; [done|].
  intros Hv. by rewrite H2.
Qed.

Lemma selectMove_put delta m t :
  editor.currentTab m = Some t →
  ∃ y, let anchor := if editor.Active (editor.Selection t)
                     then editor.Start (editor.Selection t) else editor.Cursor t in
       let c := editor.clampPos (add64 (editor.Cursor t) delta) t in
       let t2 := editor.set_Selection
                   {| editor.Active := true; editor.Start := anchor; editor.End_ := c |}
                   (editor.set_Cursor c t) in
       editor.selectMove delta m = put (editor.set_ScrollY y t2) m ∧
       (scroll_in_range m t2 →
        cursor_visible m (editor.set_ScrollY y t2) ∧
        (cursor_visible m t2 → y = editor.ScrollY t)).
Proof.
  intros Ht. unfold editor.selectMove. rewrite Ht.
  set (t1 := if editor.Active (editor.Selection t) then t
             else editor.set_Selection
                    {| editor.Active := true; editor.Start := editor.Cursor t;
                       editor.End_ := editor.Cursor t |} t).
  assert ((if negb (editor.Active (editor.Selection t))
           then editor.on_tab (λ tab, editor.set_Selection
                  {| editor.Active := true; editor.Start := editor.Cursor tab;
                     editor.End_ := editor.Cursor tab |} tab) m
           else m) = put t1 m) as ->.
  { subst t1. destruct (editor.Active _); cbn [negb];
      [by rewrite put_current|by rewrite (on_tab_current _ m t)]. }
  rewrite (on_tab_put _ _ t) by done.
  assert (editor.Cursor t1 = editor.Cursor t ∧ editor.Buffer_ t1 = editor.Buffer_ t)
    as (Hc & Hb).
  { subst t1. by destruct (editor.Active _). }
  rewrite Hc, (clampPos_Buffer _ t t1) by done.
  set (c := editor.clampPos _ t).
  set (t2 := editor.set_End c (editor.set_Cursor c t1)).
  destruct (ensureCursorVisible_put (put t2 m) t2) as (y & -> & Hvis).
  { by eapply currentTab_put. }
  exists y. cbn zeta. rewrite put_put.
  assert (t2 = editor.set_Selection
                 {| editor.Active := true;
                    editor.Start := if editor.Active (editor.Selection t)
                                    then editor.Start (editor.Selection t)
                                    else editor.Cursor t;
                    editor.End_ := c |} (editor.set_Cursor c t)) as <-.
  { subst t2 t1. destruct t as [tb tc ty [[] ts te]]; done. }
  split; [done|].
  intros Hs. destruct Hvis as [H1 H2]; [done|]. split; [done|].
  intros Hv. rewrite H2 by done. subst t2 t1. by destruct (editor.Active _).
Qed.

(** X16.  Whatever delta or position they are given, [moveCursor],
    [setCursor] and [selectMove] leave the cursor of the current tab
    between 0 and [max(size-1, 0)], change no other tab, and do not touch
    the buffer. *)
Theorem cursor_stays_in_range m t delta pos clearSel m' :
  editor.currentTab m = Some t → fits (data (editor.Buffer_ t)) →
  m' = editor.moveCursor delta clearSel m ∨ m' = editor.setCursor pos m ∨
  m' = editor.selectMove delta m →
  ∃ t', editor.currentTab m' = Some t' ∧ m' = put t' m ∧
        editor.Buffer_ t' = editor.Buffer_ t ∧ cursor_in_range t'.
Proof.
  intros Ht Hfit Hm'. unfold cursor_in_range.
  destruct Hm' as [->|[->| ->]].
  - destruct (moveCursor_put delta clearSel m t Ht) as (y & -> & _).
    eexists. split; [by eapply currentTab_put|]. split; [done|].
    cbn [editor.set_ScrollY editor.set_Cursor editor.Buffer_ editor.Cursor].
    split; [by destruct (clearSel || negb _)|].
    assert (editor.Buffer_ (if clearSel || negb (editor.Active (editor.Selection t))
                            then editor.set_Active false t else t) = editor.Buffer_ t) as ->
      by (by destruct (clearSel || negb _)).
    by apply clampPos_in_range.
  - destruct (setCursor_put pos m t Ht) as (y & -> & _).
    eexists. split; [by eapply currentTab_put|]. split; [done|].
    cbn [editor.set_ScrollY editor.set_Cursor editor.Buffer_ editor.Cursor editor.set_Active editor.set_Selection].
    split; [done|]. by apply clampPos_in_range.
  - destruct (selectMove_put delta m t Ht) as (y & -> & _).
    eexists. split; [by eapply currentTab_put|]. split; [done|].
    cbn [editor.set_ScrollY editor.set_Cursor editor.Buffer_ editor.Cursor editor.set_Selection].
    split; [done|]. by apply clampPos_in_range.
Qed.

Lemma cursor_stays_in_range_witness :
  ∃ t', editor.currentTab
          (editor.moveCursor 100 false
             (sample_model "abc" 1 editor.ModeNormal [] "ascii" [] true)) = Some t' ∧
        editor.moveCursor 100 false
          (sample_model "abc" 1 editor.ModeNormal [] "ascii" [] true)
        = put t' (sample_model "abc" 1 editor.ModeNormal [] "ascii" [] true) ∧
        editor.Buffer_ t' = editor.Buffer_ (sample_tab "abc" 1) ∧ cursor_in_range t'.
Proof.
  apply (cursor_stays_in_range
           (sample_model "abc" 1 editor.ModeNormal [] "ascii" [] true)
           (sample_tab "abc" 1) 100 0 false).
  - reflexivity.
  - by vm_compute.
  - by left.
Defined.

Lemma scroll_in_range_moved m t t2 :
  scroll_in_range m t → fits (data (editor.Buffer_ t)) →
  editor.ScrollY t2 = editor.ScrollY t →
  0 ≤ editor.Cursor t2 ≤ Z.max 0 (Size (editor.Buffer_ t) - 1) →
  scroll_in_range m t2.
Proof.
  unfold scroll_in_range, int64_range, MinInt64, MaxInt64, fits, Size.
  intros (Hc & Hs & Hh) Hfit -> Hr. pose proof maxAlloc_eq.
  change (2 ^ 63) with 9223372036854775808 in *.
  split_and!; [lia|lia|lia|lia|lia|lia].
Qed.

(** X17.  After [ensureCursorVisible], [moveCursor], [setCursor] or
    [selectMove] the row of the cursor lies inside the window of
    [visibleRows] rows that starts at [ScrollY]; and when it already does,
    [ensureCursorVisible] changes nothing. *)
Theorem cursor_row_stays_visible m t delta pos clearSel m' :
  editor.currentTab m = Some t → fits (data (editor.Buffer_ t)) →
  scroll_in_range m t →
  (cursor_visible m t → editor.ensureCursorVisible m = m) ∧
  (m' = editor.ensureCursorVisible m ∨ m' = editor.moveCursor delta clearSel m ∨
   m' = editor.setCursor pos m ∨ m' = editor.selectMove delta m →
   ∃ t', editor.currentTab m' = Some t' ∧ cursor_visible m' t').
Proof.
  intros Ht Hfit Hs. split.
  - intros Hv. destruct (ensureCursorVisible_put m t Ht) as (y & -> & H).
    destruct (H Hs) as [_ Hy]. rewrite (Hy Hv).
    replace (editor.set_ScrollY (editor.ScrollY t) t) with t by (by destruct t).
    by apply put_current.
  - intros [->|[->|[->| ->]]].
    + destruct (ensureCursorVisible_put m t Ht) as (y & -> & H).
      eexists. split; [by eapply currentTab_put|]. by apply H.
    + destruct (moveCursor_put delta clearSel m t Ht) as (y & -> & H).
      eexists. split; [by eapply currentTab_put|]. apply H.
      apply (scroll_in_range_moved m t); [done|done| |].
      * by destruct (clearSel || negb _).
      * by apply clampPos_in_range.
    + destruct (setCursor_put pos m t Ht) as (y & -> & H).
      eexists. split; [by eapply currentTab_put|]. apply H.
      apply (scroll_in_range_moved m t); [done|done|done|].
      by apply clampPos_in_range.
    + destruct (selectMove_put delta m t Ht) as (y & -> & H).
      eexists. split; [by eapply currentTab_put|]. apply H.
      apply (scroll_in_range_moved m t); [done|done|done|].
      by apply clampPos_in_range.
Qed.

Lemma cursor_row_stays_visible_witness :
  (cursor_visible (sample_model "abc" 1 editor.ModeNormal [] "ascii" [] true)
     (sample_tab "abc" 1) →
   editor.ensureCursorVisible (sample_model "abc" 1 editor.ModeNormal [] "ascii" [] true)
   = sample_model "abc" 1 editor.ModeNormal [] "ascii" [] true) ∧
  (editor.setCursor 2 (sample_model "abc" 1 editor.ModeNormal [] "ascii" [] true)
   = editor.ensureCursorVisible (sample_model "abc" 1 editor.ModeNormal [] "ascii" [] true) ∨
   editor.setCursor 2 (sample_model "abc" 1 editor.ModeNormal [] "ascii" [] true)
   = editor.moveCursor 5 false (sample_model "abc" 1 editor.ModeNormal [] "ascii" [] true) ∨
   editor.setCursor 2 (sample_model "abc" 1 editor.ModeNormal [] "ascii" [] true)
   = editor.setCursor 2 (sample_model "abc" 1 editor.ModeNormal [] "ascii" [] true) ∨
   editor.setCursor 2 (sample_model "abc" 1 editor.ModeNormal [] "ascii" [] true)
   = editor.selectMove 5 (sample_model "abc" 1 editor.ModeNormal [] "ascii" [] true) →
   ∃ t', editor.currentTab
           (editor.setCursor 2 (sample_model "abc" 1 editor.ModeNormal [] "ascii" [] true))
         = Some t' ∧
         cursor_visible
           (editor.setCursor 2 (sample_model "abc" 1 editor.ModeNormal [] "ascii" [] true)) t').
Proof.
  apply (cursor_row_stays_visible
           (sample_model "abc" 1 editor.ModeNormal [] "ascii" [] true)
           (sample_tab "abc" 1) 5 2 false).
  - reflexivity.
  - by vm_compute.
  - by vm_compute.
Defined.

(** ** Selection *)

Lemma getSelectedRange_put m t0 t :
  editor.currentTab m = Some t0 →
  editor.getSelectedRange (put t m) =
  if negb (editor.Active (editor.Selection t)) then (-1, -1)
  else if bool_decide (editor.End_ (editor.Selection t) < editor.Start (editor.Selection t))
       then (editor.End_ (editor.Selection t), editor.Start (editor.Selection t))
       else (editor.Start (editor.Selection t), editor.End_ (editor.Selection t)).
Proof.
  intros Ht. unfold editor.getSelectedRange.
  by rewrite (currentTab_put _ t0 t).
Qed.

(** X18.  [selectMove] selects from the anchor, which is the start of the
    selection there was or else the cursor before the move, to the cursor
    after the move, and [getSelectedRange] returns the two ends in
    ascending order.  [setCursor], and [moveCursor] told to clear, leave no
    selection: [getSelectedRange] then returns [(-1, -1)]. *)
Theorem selectMove_selects m t delta pos :
  editor.currentTab m = Some t →
  (let anchor := if editor.Active (editor.Selection t)
                 then editor.Start (editor.Selection t) else editor.Cursor t in
   ∃ t', editor.currentTab (editor.selectMove delta m) = Some t' ∧
         editor.Cursor t' = editor.clampPos (add64 (editor.Cursor t) delta) t ∧
         editor.getSelectedRange (editor.selectMove delta m)
         = (Z.min anchor (editor.Cursor t'), Z.max anchor (editor.Cursor t'))) ∧
  editor.getSelectedRange (editor.setCursor pos m) = (-1, -1) ∧
  editor.getSelectedRange (editor.moveCursor delta true m) = (-1, -1).
Proof.
  intros Ht. split_and!.
  - destruct (selectMove_put delta m t Ht) as (y & -> & _). cbn zeta.
    eexists. split; [by eapply currentTab_put|]. split; [done|].
    rewrite (getSelectedRange_put _ t) by done.
    cbn [editor.set_ScrollY editor.set_Selection editor.set_Cursor editor.Selection
         editor.Active editor.Start editor.End_ editor.Cursor negb].
    generalize (editor.clampPos (add64 (editor.Cursor t) delta) t).
    generalize (if editor.Active (editor.Selection t)
                then editor.Start (editor.Selection t) else editor.Cursor t).
    intros a c. case_bool_decide; f_equal; lia.
  - destruct (setCursor_put pos m t Ht) as (y & -> & _).
    by rewrite (getSelectedRange_put _ t).
  - destruct (moveCursor_put delta true m t Ht) as (y & -> & _).
    by rewrite (getSelectedRange_put _ t).
Qed.

Lemma selectMove_selects_witness :
  (let anchor := if editor.Active (editor.Selection (sample_tab "abcd" 2))
                 then editor.Start (editor.Selection (sample_tab "abcd" 2))
                 else editor.Cursor (sample_tab "abcd" 2) in
   ∃ t', editor.currentTab
           (editor.selectMove (-1)
              (sample_model "abcd" 2 editor.ModeNormal [] "ascii" [] true)) = Some t' ∧
         editor.Cursor t'
         = editor.clampPos (add64 (editor.Cursor (sample_tab "abcd" 2)) (-1))
             (sample_tab "abcd" 2) ∧
         editor.getSelectedRange
           (editor.selectMove (-1)
              (sample_model "abcd" 2 editor.ModeNormal [] "ascii" [] true))
         = (Z.min anchor (editor.Cursor t'), Z.max anchor (editor.Cursor t'))) ∧
  editor.getSelectedRange
    (editor.setCursor 0 (sample_model "abcd" 2 editor.ModeNormal [] "ascii" [] true))
  = (-1, -1) ∧
  editor.getSelectedRange
    (editor.moveCursor (-1) true
       (sample_model "abcd" 2 editor.ModeNormal [] "ascii" [] true)) = (-1, -1).
Proof.
  apply (selectMove_selects (sample_model "abcd" 2 editor.ModeNormal [] "ascii" [] true)
           (sample_tab "abcd" 2) (-1) 0).
  reflexivity.
Defined.

(** ** Tabs *)

(** X19.  With more than one tab and [activeTab] a valid index, [nextTab]
    and [prevTab] step to the neighbouring index, wrapping around at the
    ends; each undoes the other, and the current tab stays defined.  With
    at most one tab they do nothing. *)
Theorem nextTab_prevTab m :
  fits (editor.tabs m) → 0 ≤ editor.activeTab m < len (editor.tabs m) →
  editor.prevTab (editor.nextTab m) = m ∧
  editor.nextTab (editor.prevTab m) = m ∧
  (1 < len (editor.tabs m) →
     editor.activeTab (editor.nextTab m)
     = (if bool_decide (editor.activeTab m = len (editor.tabs m) - 1) then 0
        else editor.activeTab m + 1) ∧
     editor.activeTab (editor.prevTab m)
     = (if bool_decide (editor.activeTab m = 0) then len (editor.tabs m) - 1
        else editor.activeTab m - 1)) ∧
  (len (editor.tabs m) ≤ 1 → editor.nextTab m = m ∧ editor.prevTab m = m) ∧
  is_Some (editor.currentTab (editor.nextTab m)) ∧
  is_Some (editor.currentTab (editor.prevTab m)).
Proof.
  unfold fits. intros Hfit Ha. pose proof maxAlloc_eq.
  set (n := len (editor.tabs m)) in *.
  assert (∀ a, 0 ≤ a < n → 1 < n →
            add64 a 1 `rem` n = (if bool_decide (a = n - 1) then 0 else a + 1) ∧
            add64 (sub64 a 1) n `rem` n
            = (if bool_decide (a = 0) then n - 1 else a - 1)) as Hstep.
  { intros a Ha' Hn. rewrite (add64_id a 1), sub64_id, add64_id by lia. split.
    - case_bool_decide as E.
      + replace (a + 1) with (1 * n) by lia. apply Z.rem_mul. lia.
      + apply Z.rem_small. lia.
    - case_bool_decide as E.
      + subst a. replace (0 - 1 + n) with (n - 1) by lia. apply Z.rem_small. lia.
      + rewrite Z.rem_mod_nonneg by lia.
        symmetry. apply (Z.mod_unique_pos _ _ 1); lia. }
  assert (∀ a, 0 ≤ a < n →
            is_Some (editor.currentTab (editor.set_activeTab a m))) as Hcur.
  { intros a Ha'. unfold editor.currentTab.
    cbn [editor.set_activeTab editor.tabs editor.activeTab]. fold n.
    rewrite bool_decide_eq_false_2 by lia.
    apply lookup_lt_is_Some_2. subst n. unfold len in *. lia. }
  assert (∀ a, editor.set_activeTab (editor.activeTab m) (editor.set_activeTab a m) = m)
    as Hback by (intros a; by destruct m).
  unfold editor.nextTab, editor.prevTab.
  cbn [editor.set_activeTab editor.tabs editor.activeTab]. fold n.
  destruct (decide (1 < n)) as [Hn|Hn].
  - rewrite !(bool_decide_eq_true_2 (1 < n)) by done.
    cbn [editor.set_activeTab editor.tabs editor.activeTab]. fold n.
    destruct (Hstep (editor.activeTab m) Ha Hn) as [Hnext Hprev].
    rewrite Hnext, Hprev. clear Hnext Hprev.
    set (up := if bool_decide (editor.activeTab m = n - 1) then 0
               else editor.activeTab m + 1).
    set (down := if bool_decide (editor.activeTab m = 0) then n - 1
                 else editor.activeTab m - 1).
    assert (0 ≤ up < n) as Hup by (subst up; case_bool_decide; lia).
    assert (0 ≤ down < n) as Hdown by (subst down; case_bool_decide; lia).
    split_and!.
    + destruct (Hstep up Hup Hn) as [_ ->].
      replace (if bool_decide (up = 0) then n - 1 else up - 1)
        with (editor.activeTab m) by (subst up; repeat case_bool_decide; lia).
      apply Hback.
    + destruct (Hstep down Hdown Hn) as [-> _].
      replace (if bool_decide (down = n - 1) then 0 else down + 1)
        with (editor.activeTab m) by (subst down; repeat case_bool_decide; lia).
      apply Hback.
    + done.
    + lia.
    + by apply Hcur.
    + by apply Hcur.
  - rewrite !(bool_decide_eq_false_2 (1 < n)) by done.
    split_and!; [done|done|lia|done| |].
    all: rewrite <- (Hback 0); apply Hcur; lia.
Qed.

Lemma nextTab_prevTab_witness :
  editor.prevTab (editor.nextTab two_tabs) = two_tabs ∧
  editor.nextTab (editor.prevTab two_tabs) = two_tabs ∧
  (1 < len (editor.tabs two_tabs) →
     editor.activeTab (editor.nextTab two_tabs)
     = (if bool_decide (editor.activeTab two_tabs = len (editor.tabs two_tabs) - 1)
        then 0 else editor.activeTab two_tabs + 1) ∧
     editor.activeTab (editor.prevTab two_tabs)
     = (if bool_decide (editor.activeTab two_tabs = 0)
        then len (editor.tabs two_tabs) - 1 else editor.activeTab two_tabs - 1)) ∧
  (len (editor.tabs two_tabs) ≤ 1 →
     editor.nextTab two_tabs = two_tabs ∧ editor.prevTab two_tabs = two_tabs) ∧
  is_Some (editor.currentTab (editor.nextTab two_tabs)) ∧
  is_Some (editor.currentTab (editor.prevTab two_tabs)).
Proof.
  apply (nextTab_prevTab two_tabs).
  - by vm_compute.
  - by vm_compute.
Defined.

(** ** Hex input *)

(** The two digits [hex.EncodeToString] writes for a byte, and what
    [hexCharToNibble] and the nibble arithmetic of [handleHexInput] make of
    them. *)
Lemma hex_digits_nibbles (v : byte) :
  ∃ h l nh nl,
    bytes_of (hex_EncodeToString [v]) = [h; l] ∧
    editor.isHexChar [h] = true ∧ editor.isHexChar [l] = true ∧
    editor.hexCharToNibble [h] = Ret nh ∧ editor.hexCharToNibble [l] = Ret nl ∧
    (∀ old, z2b (Z.lor (Z.land (b2z (z2b (Z.lor (Z.shiftl (b2z nh) 4)
                                           (Z.land (b2z old) 15)))) 240)
                   (b2z nl)) = v) ∧
    z2b (Z.lor (Z.land (b2z (z2b (Z.shiftl (b2z nh) 4))) 240) (b2z nl)) = v.
Proof.
  assert (∀ nh nl : byte,
            b2z nh < 16 →
            (∀ old, z2b (Z.lor (Z.land (b2z (z2b (Z.lor (Z.shiftl (b2z nh) 4)
                                           (Z.land (b2z old) 15)))) 240)
                           (b2z nl))
                    = z2b (Z.lor (Z.land (b2z (z2b (Z.shiftl (b2z nh) 4))) 240)
                             (b2z nl)))) as Hold.
  { intros nh nl Hnh old.
    assert (Z.land (b2z (z2b (Z.lor (Z.shiftl (b2z nh) 4) (Z.land (b2z old) 15)))) 240
            = Z.land (b2z (z2b (Z.shiftl (b2z nh) 4))) 240) as ->; [|done].
    destruct nh; try (vm_compute in Hnh; discriminate Hnh);
      destruct old; reflexivity. }
  destruct v;
    (eexists _, _, _, _;
     split; [vm_compute; reflexivity|];
     split; [vm_compute; reflexivity|];
     split; [vm_compute; reflexivity|];
     split; [vm_compute; reflexivity|];
     split; [vm_compute; reflexivity|];
     split; [|vm_compute; reflexivity];
     intros old; rewrite Hold by (by vm_compute); vm_compute; reflexivity).
Qed.

(** X20.  On a one-character string that [isHexChar] accepts,
    [hexCharToNibble] returns the value of the digit, which is below 16 and
    is what [strconv.ParseUint] reads in base 16; on any other single
    character it returns 0, and on the empty string, which [isHexChar]
    rejects, it panics. *)
Theorem hexCharToNibble_value :
  (∀ s, editor.isHexChar s = true →
     ∃ c n, s = [c] ∧ editor.hexCharToNibble s = Ret n ∧ b2z n < 16 ∧
            b2z n = strconv_ParseUint s 16 8) ∧
  (∀ c, editor.isHexChar [c] = false → editor.hexCharToNibble [c] = Ret x00) ∧
  editor.isHexChar [] = false ∧
  editor.hexCharToNibble [] = Panic IndexOutOfRange.
Proof.
  split_and!; [| |done|done].
  - intros [|c [|c' s]] Hs; [done| |done]. exists c.
    destruct c; try (vm_compute in Hs; discriminate Hs);
      (eexists; split; [done|]; split; [vm_compute; reflexivity|]; by vm_compute).
  - intros c Hc. destruct c; try (vm_compute in Hc; discriminate Hc); reflexivity.
Qed.

Lemma on_tab_set_hexNibble f k m t0 t :
  editor.currentTab m = Some t0 →
  editor.on_tab f (editor.set_hexNibble k (put t m))
  = editor.set_hexNibble k (put (f t) m).
Proof.
  intros Ht. unfold editor.on_tab.
  change (editor.currentTab (editor.set_hexNibble k (put t m)))
    with (editor.currentTab (put t m)).
  rewrite (currentTab_put _ t0) by done.
  unfold put. cbn [editor.set_hexNibble editor.set_tabs editor.tabs editor.activeTab].
  by rewrite list_insert_insert_eq.
Qed.

Lemma on_tab_go_set_hexNibble f k m t0 t t' :
  editor.currentTab m = Some t0 → f t = Ret t' →
  editor.on_tab_go f (editor.set_hexNibble k (put t m))
  = Ret (editor.set_hexNibble k (put t' m)).
Proof.
  intros Ht Hf. unfold editor.on_tab_go.
  change (editor.currentTab (editor.set_hexNibble k (put t m)))
    with (editor.currentTab (put t m)).
  rewrite (currentTab_put _ t0) by done. rewrite Hf. cbn [mbind go_bind].
  f_equal. unfold put. cbn [editor.set_hexNibble editor.set_tabs editor.tabs
                             editor.activeTab].
  by rewrite list_insert_insert_eq.
Qed.

Lemma lookup_spliced c x d :
  0 ≤ c ≤ len d → spliced c [x] d !! Z.to_nat c = Some x.
Proof.
  intros Hc. unfold spliced.
  rewrite lookup_app_r by (rewrite length_take; unfold len in Hc; lia).
  rewrite length_take, Nat.min_l by (unfold len in Hc; lia).
  by rewrite Nat.sub_diag.
Qed.

Lemma insert_spliced c x y d :
  0 ≤ c ≤ len d → <[Z.to_nat c := y]> (spliced c [x] d) = spliced c [y] d.
Proof.
  intros Hc. unfold spliced.
  rewrite insert_app_r_alt by (rewrite length_take; unfold len in Hc; lia).
  rewrite length_take, Nat.min_l by (unfold len in Hc; lia).
  by rewrite Nat.sub_diag.
Qed.



(** The second digit in replace mode, on a cursor that stands on a byte. *)
Lemma second_digit_replaces m t t1 l nl x1 :
  editor.currentTab m = Some t → editor.mode m = editor.ModeReplace →
  editor.hexCharToNibble [l] = Ret nl →
  0 ≤ editor.Cursor t1 →
  data (editor.Buffer_ t1) !! Z.to_nat (editor.Cursor t1) = Some x1 →
  fits (data (editor.Buffer_ t1)) →
  let c := editor.Cursor t1 in
  let v := z2b (Z.lor (Z.land (b2z x1) 240) (b2z nl)) in
  let b2 := edited (editor.Buffer_ t1) (<[Z.to_nat c := v]> (data (editor.Buffer_ t1)))
              (mkOperation OpReplace c [x1] [v]) in
  editor.handleHexInput [l] (editor.set_hexNibble 1 (put t1 m))
  = Ret (editor.set_hexNibble 0
           (put (editor.set_Active false
                   (editor.set_Cursor (Z.min (c + 1) (Size b2 - 1))
                      (editor.set_Buffer b2 t1))) m)).
Proof.
  intros Ht Hmode Hl Hc Hx Hfit c v b2. unfold fits in Hfit.
  pose proof maxAlloc_eq as HM.
  pose proof (lookup_lt_Some _ _ _ Hx) as Hlt. fold c in Hlt, Hc, Hx.
  assert (c < len (data (editor.Buffer_ t1))) as Hlt' by (unfold len; lia).
  unfold editor.handleHexInput.
  change (editor.currentTab (editor.set_hexNibble 1 (put t1 m)))
    with (editor.currentTab (put t1 m)).
  rewrite (currentTab_put _ t) by done. rewrite Hl. cbn [mbind go_bind].
  change (editor.mode (editor.set_hexNibble 1 (put t1 m))) with (editor.mode m).
  rewrite Hmode.
  rewrite (bool_decide_eq_false_2 (editor.ModeReplace = editor.ModeInsert)) by done.
  rewrite (bool_decide_eq_true_2 (editor.ModeReplace = editor.ModeReplace)) by done.
  rewrite (bool_decide_eq_false_2 (Size _ ≤ _)) by (unfold Size; fold c; lia).
  change (editor.hexNibble (editor.set_hexNibble 1 (put t1 m))) with 1.
  rewrite (bool_decide_eq_false_2 (1 = 0)) by done.
  rewrite (on_tab_go_set_hexNibble _ _ _ t t1 (editor.set_Buffer b2 t1)); [|done|].
  - cbn [mbind go_bind]. cbn zeta.
    change (editor.set_hexNibble 0 (editor.set_hexNibble 1 ?x))
      with (editor.set_hexNibble 0 x).
    rewrite !(on_tab_set_hexNibble _ _ _ t) by done.
    unfold editor.clearSelection.
    rewrite (on_tab_set_hexNibble _ _ _ t) by done.
    do 3 f_equal.
    cbn [editor.set_Cursor editor.set_Buffer editor.Cursor editor.Buffer_].
    fold c. rewrite add64_id by lia.
    assert (Size b2 = len (data (editor.Buffer_ t1))) as HS.
    { unfold Size, b2. cbn [edited data]. unfold len. by rewrite length_insert. }
    rewrite HS. rewrite sub64_id by lia.
    case_bool_decide as E1.
    + cbn [editor.set_Cursor editor.Cursor].
      rewrite bool_decide_eq_false_2 by lia.
      replace ((c + 1) `min` (len (data (editor.Buffer_ t1)) - 1))
        with (len (data (editor.Buffer_ t1)) - 1) by lia.
      done.
    + replace ((c + 1) `min` (len (data (editor.Buffer_ t1)) - 1)) with (c + 1) by lia.
      done.
  - unfold editor.replace_at_cursor. rewrite GetByte_byte_at. fold c.
    unfold byte_at. rewrite bool_decide_eq_true_2 by lia.
    rewrite Hx. cbn [mbind go_bind].
    by rewrite (Replace_Ret _ _ _ x1) by done.
Qed.

(** X22.  In replace mode, with no digit pending, typing the two hex digits
    of a byte [v] overwrites the byte under the cursor with [v]; at the end
    of the content it appends [v] instead.  Afterwards the cursor is one
    further, but never beyond the last byte.  Two Operations are recorded
    and no selection is left. *)
Theorem typing_two_digits_overwrites m t v h l :
  editor.currentTab m = Some t → editor.mode m = editor.ModeReplace →
  editor.hexNibble m = 0 →
  0 ≤ editor.Cursor t ≤ Size (editor.Buffer_ t) →
  len (data (editor.Buffer_ t)) + 1 ≤ maxAlloc →
  bytes_of (hex_EncodeToString [v]) = [h; l] →
  ∃ m1 m2 t2,
    editor.handleHexInput [h] m = Ret m1 ∧ editor.hexNibble m1 = 1 ∧
    editor.handleHexInput [l] m1 = Ret m2 ∧ editor.hexNibble m2 = 0 ∧
    editor.currentTab m2 = Some t2 ∧
    data (editor.Buffer_ t2)
    = take (Z.to_nat (editor.Cursor t)) (data (editor.Buffer_ t)) ++ [v]
        ++ drop (Z.to_nat (editor.Cursor t + 1)) (data (editor.Buffer_ t)) ∧
    editor.Cursor t2 = Z.min (editor.Cursor t + 1) (Size (editor.Buffer_ t2) - 1) ∧
    editor.Active (editor.Selection t2) = false ∧
    len (undoStack (editor.Buffer_ t2)) = len (undoStack (editor.Buffer_ t)) + 2.
Proof.
  intros Ht Hmode Hnib Hc Hfit Hhl. unfold Size in Hc.
  destruct (hex_digits_nibbles v) as (h' & l' & nh & nl & E & _ & _ & Hh & Hl & Hv1 & Hv2).
  rewrite Hhl in E. assert (h' = h) as -> by congruence.
  assert (l' = l) as -> by congruence. clear E.
  pose proof maxAlloc_eq as HM. pose proof (len_nonneg (data (editor.Buffer_ t))) as Hd.
  set (c := editor.Cursor t) in *. set (b := editor.Buffer_ t) in *.
  assert (∃ b1 x1,
            editor.handleHexInput [h] m
            = Ret (editor.set_hexNibble 1
                     (put (editor.set_Active false (editor.set_Buffer b1 t)) m)) ∧
            data b1 !! Z.to_nat c = Some x1 ∧
            z2b (Z.lor (Z.land (b2z x1) 240) (b2z nl)) = v ∧
            len (data b1) ≤ len (data b) + 1 ∧
            <[Z.to_nat c := v]> (data b1)
            = take (Z.to_nat c) (data b) ++ [v] ++ drop (Z.to_nat (c + 1)) (data b) ∧
            len (undoStack b1) = len (undoStack b) + 1)
    as (b1 & x1 & H1 & Hx1 & Hv & Hlen & Hdata & Hundo).
  { destruct (decide (c < len (data b))) as [Hin|Hend].
    - destruct (lookup_lt_is_Some_2 (data b) (Z.to_nat c)) as [old Hold].
      { unfold len in Hin. lia. }
      eexists (edited b (<[Z.to_nat c := _]> (data b)) _), _. split_and!.
      + unfold editor.handleHexInput. rewrite Ht, Hh. cbn [mbind go_bind].
        rewrite Hmode.
        rewrite (bool_decide_eq_false_2 (editor.ModeReplace = editor.ModeInsert)) by done.
        rewrite (bool_decide_eq_true_2 (editor.ModeReplace = editor.ModeReplace)) by done.
        rewrite (bool_decide_eq_false_2 (Size _ ≤ _)) by (unfold Size; fold b c; lia).
        rewrite (bool_decide_eq_true_2 (editor.hexNibble m = 0)) by done.
        erewrite (on_tab_go_current _ m t); [|done|].
        * cbn [mbind go_bind]. unfold editor.clearSelection.
          by rewrite (on_tab_set_hexNibble _ _ _ t).
        * unfold editor.replace_at_cursor. rewrite GetByte_byte_at. fold c b.
          unfold byte_at. rewrite bool_decide_eq_true_2 by lia.
          rewrite Hold. cbn [mbind go_bind].
          by rewrite (Replace_Ret _ _ _ old) by (done || lia).
      + cbn [edited data]. apply list_lookup_insert_eq. unfold len in Hin. lia.
      + apply Hv1.
      + cbn [edited data]. unfold len. rewrite length_insert. lia.
      + cbn [edited data]. rewrite list_insert_insert_eq.
        rewrite insert_take_drop by (unfold len in Hin; lia).
        replace (Z.to_nat (c + 1)) with (S (Z.to_nat c)) by lia. done.
      + cbn [edited undoStack]. rewrite len_app, len_cons, len_nil. lia.
    - assert (c = len (data b)) as Hce by lia.
      eexists (edited b (spliced c [_] (data b)) _), _. split_and!.
      + unfold editor.handleHexInput. rewrite Ht, Hh. cbn [mbind go_bind].
        rewrite Hmode.
        rewrite (bool_decide_eq_false_2 (editor.ModeReplace = editor.ModeInsert)) by done.
        rewrite (bool_decide_eq_true_2 (editor.ModeReplace = editor.ModeReplace)) by done.
        rewrite (bool_decide_eq_true_2 (Size _ ≤ _)) by (unfold Size; fold b c; lia).
        erewrite (on_tab_go_current _ m t); [|done|].
        * cbn [mbind go_bind]. unfold editor.clearSelection.
          by rewrite (on_tab_set_hexNibble _ _ _ t).
        * fold b. rewrite Insert_Ret by (rewrite len_cons, len_nil; lia).
          unfold clamped, Size. rewrite <- Hce.
          replace (c `min` (0 `max` c)) with c by lia. done.
      + cbn [edited data]. apply lookup_spliced. lia.
      + apply Hv2.
      + cbn [edited data]. rewrite len_spliced by lia. rewrite len_cons, len_nil. lia.
      + cbn [edited data]. rewrite insert_spliced by lia. unfold spliced.
        do 2 f_equal. rewrite !drop_ge; [done| |]; unfold len in Hce; lia.
      + cbn [edited undoStack]. rewrite len_app, len_cons, len_nil. lia. }
  set (t1 := editor.set_Active false (editor.set_Buffer b1 t)) in *.
  pose proof (second_digit_replaces m t t1 l nl x1 Ht Hmode Hl) as H2.
  cbn zeta in H2. rewrite Hv in H2.
  change (editor.Cursor t1) with c in H2. change (editor.Buffer_ t1) with b1 in H2.
  eexists _, _, _. split; [exact H1|]. split; [done|].
  split; [apply H2; [lia|done|unfold fits; lia]|].
  split; [done|]. split.
  { change (editor.currentTab (editor.set_hexNibble 0 (put ?x m)))
      with (editor.currentTab (put x m)).
    by rewrite (currentTab_put _ t). }
  cbn [editor.set_Active editor.set_Selection editor.set_Cursor editor.set_Buffer
       editor.Buffer_ editor.Cursor editor.Selection editor.Active edited data
       undoStack].
  split_and!; [done|done|done|].
  rewrite len_app, len_cons, len_nil. lia.
Qed.

Lemma typing_two_digits_overwrites_witness :
  ∃ m1 m2 t2,
    editor.handleHexInput [("4")%byte]
      (sample_model "abc" 1 editor.ModeReplace [] "ascii" [] true) = Ret m1 ∧
    editor.hexNibble m1 = 1 ∧
    editor.handleHexInput [("a")%byte] m1 = Ret m2 ∧ editor.hexNibble m2 = 0 ∧
    editor.currentTab m2 = Some t2 ∧
    data (editor.Buffer_ t2)
    = take (Z.to_nat (editor.Cursor (sample_tab "abc" 1)))
        (data (editor.Buffer_ (sample_tab "abc" 1))) ++ [("J")%byte]
        ++ drop (Z.to_nat (editor.Cursor (sample_tab "abc" 1) + 1))
             (data (editor.Buffer_ (sample_tab "abc" 1))) ∧
    editor.Cursor t2
    = Z.min (editor.Cursor (sample_tab "abc" 1) + 1) (Size (editor.Buffer_ t2) - 1) ∧
    editor.Active (editor.Selection t2) = false ∧
    len (undoStack (editor.Buffer_ t2))
    = len (undoStack (editor.Buffer_ (sample_tab "abc" 1))) + 2.
Proof.
  apply (typing_two_digits_overwrites
           (sample_model "abc" 1 editor.ModeReplace [] "ascii" [] true)
           (sample_tab "abc" 1) "J" "4" "a").
  - reflexivity.
  - reflexivity.
  - reflexivity.
  - by vm_compute.
  - by vm_compute.
  - reflexivity.
Defined.

(** ** Clipboard *)

Lemma GetBytes_Ret offset count b :
  fits (data b) → 0 ≤ offset < len (data b) → 0 ≤ count →
  offset + count ≤ MaxInt64 →
  GetBytes offset count b
  = Ret (take (Z.to_nat count) (drop (Z.to_nat offset) (data b))).
Proof.
  unfold fits, MaxInt64, GetBytes. intros Hfit Ho Hc Hov.
  pose proof maxAlloc_eq as HM.
  rewrite bool_decide_eq_false_2 by lia.
  rewrite add64_id by lia.
  set (e := if bool_decide _ then _ else _).
  assert (e = Z.min (offset + count) (len (data b))) as ->
    by (subst e; case_bool_decide; lia).
  rewrite sub64_id by lia.
  rewrite make_Ret by lia. cbn [mbind go_bind].
  rewrite slice_Ret by lia. cbn [mbind go_bind].
  rewrite copy_exact by len_solve. f_equal.
  destruct (decide (offset + count ≤ len (data b))) as [Hle|Hgt].
  - by rewrite Z.min_l, Z.add_simpl_l by lia.
  - rewrite Z.min_r by lia. rewrite !take_ge; [done|len_solve..].
Qed.

Lemma on_tab_set_clipboard f k m t0 t :
  editor.currentTab m = Some t0 →
  editor.on_tab f (editor.set_clipboard k (put t m))
  = editor.set_clipboard k (put (f t) m).
Proof.
  intros Ht. unfold editor.on_tab.
  change (editor.currentTab (editor.set_clipboard k (put t m)))
    with (editor.currentTab (put t m)).
  rewrite (currentTab_put _ t0) by done.
  unfold put. cbn [editor.set_clipboard editor.set_tabs editor.tabs editor.activeTab].
  by rewrite list_insert_insert_eq.
Qed.

Lemma on_tab_go_set_clipboard f k m t0 t t' :
  editor.currentTab m = Some t0 → f t = Ret t' →
  editor.on_tab_go f (editor.set_clipboard k (put t m))
  = Ret (editor.set_clipboard k (put t' m)).
Proof.
  intros Ht Hf. unfold editor.on_tab_go.
  change (editor.currentTab (editor.set_clipboard k (put t m)))
    with (editor.currentTab (put t m)).
  rewrite (currentTab_put _ t0) by done. rewrite Hf. cbn [mbind go_bind].
  f_equal. unfold put. cbn [editor.set_clipboard editor.set_tabs editor.tabs
                             editor.activeTab].
  by rewrite list_insert_insert_eq.
Qed.

(** The two adjustments of the cursor at the end of [delete]. *)
Lemma delete_adjusts m t :
  editor.currentTab m = Some t →
  fits (data (editor.Buffer_ t)) → 0 ≤ editor.Cursor t ≤ Size (editor.Buffer_ t) →
  editor.on_tab (λ tab, if bool_decide (editor.Cursor tab < 0)
                        then editor.set_Cursor 0 tab else tab)
    (editor.on_tab (λ tab,
       if bool_decide (Size (editor.Buffer_ tab) ≤ editor.Cursor tab
                       ∧ 0 < Size (editor.Buffer_ tab))
       then editor.set_Cursor (sub64 (Size (editor.Buffer_ tab)) 1) tab
       else tab) m)
  = put (editor.set_Cursor
           (Z.min (editor.Cursor t) (Z.max 0 (Size (editor.Buffer_ t) - 1))) t) m.
Proof.
  unfold fits, Size. intros Ht Hfit Hc. pose proof maxAlloc_eq as HM.
  rewrite (on_tab_current _ m t), (on_tab_put _ _ t) by done. f_equal.
  rewrite sub64_id by lia.
  destruct (decide (len (data (editor.Buffer_ t)) ≤ editor.Cursor t
                    ∧ 0 < len (data (editor.Buffer_ t)))) as [E1|E1].
  - rewrite (bool_decide_eq_true_2 _ E1). cbn [editor.set_Cursor editor.Cursor].
    rewrite bool_decide_eq_false_2 by lia. f_equal. lia.
  - rewrite (bool_decide_eq_false_2 _ E1).
    rewrite bool_decide_eq_false_2 by lia.
    replace (_ `min` _) with (editor.Cursor t) by lia. by destruct t.
Qed.

Lemma delete_selection m t s e backspace :
  editor.currentTab m = Some t → editor.mode m = editor.ModeNormal →
  editor.Active (editor.Selection t) = true →
  editor.getSelectedRange m = (s, e) →
  0 ≤ s → e < Size (editor.Buffer_ t) → fits (data (editor.Buffer_ t)) →
  let b' := edited (editor.Buffer_ t) (cut s (e - s + 1) (data (editor.Buffer_ t)))
              (mkOperation OpDelete s
                 (take (Z.to_nat (e - s + 1))
                    (drop (Z.to_nat s) (data (editor.Buffer_ t)))) []) in
  s ≤ e ∧
  editor.delete backspace m
  = Ret (put (editor.set_Cursor (Z.min s (Z.max 0 (Size b' - 1)))
                (editor.set_Active false (editor.set_Buffer b' t))) m).
Proof.
  intros Ht Hmode Hact Hrange Hs He Hfit b'.
  pose proof maxAlloc_eq as HM. unfold fits, Size in *.
  assert (s ≤ e) as Hse.
  { unfold editor.getSelectedRange in Hrange. rewrite Ht, Hact in Hrange.
    cbn [negb] in Hrange. case_bool_decide; simplify_eq; lia. }
  split; [done|].
  unfold editor.delete. rewrite Ht.
  rewrite bool_decide_eq_false_2 by (by rewrite Hmode; intros []).
  rewrite Hact, Hrange.
  rewrite (sub64_id e s), add64_id by lia.
  rewrite (on_tab_go_current _ m t (editor.set_Cursor s (editor.set_Buffer b' t)));
    [|done|].
  - cbn [mbind go_bind]. unfold editor.clearSelection.
    rewrite (on_tab_put _ _ t) by done.
    rewrite (delete_adjusts _ (editor.set_Active false
                                 (editor.set_Cursor s (editor.set_Buffer b' t)))).
    + by rewrite put_put.
    + by eapply currentTab_put.
    + subst b'.
      cbn [editor.set_Active editor.set_Selection editor.set_Cursor editor.set_Buffer
           editor.Buffer_ edited data]. unfold fits.
      rewrite len_cut by lia. lia.
    + subst b'.
      cbn [editor.set_Active editor.set_Selection editor.set_Cursor editor.set_Buffer
           editor.Buffer_ editor.Cursor edited data]. unfold Size. cbn [edited data].
      rewrite len_cut by lia. lia.
  - rewrite Delete_Ret by (unfold fits, MaxInt64; lia). cbn [mbind go_bind].
    do 2 f_equal. subst b'. unfold deleted.
    by replace ((e - s + 1) `min` (len (data (editor.Buffer_ t)) - s))
      with (e - s + 1) by lia.
Qed.

(** X23.  [cut] with a selection inside the content, in normal mode: the
    clipboard holds the selected bytes, the content is what was before and
    after them, and putting the clipboard back at the start of the
    selection gives the old content.  One Delete Operation holding the
    bytes is recorded, no selection is left, and the cursor is at the
    start of what was selected, or on the last byte when that is gone. *)
Theorem cut_takes_the_selection m t s e :
  editor.currentTab m = Some t → editor.mode m = editor.ModeNormal →
  editor.Active (editor.Selection t) = true →
  editor.getSelectedRange m = (s, e) →
  0 ≤ s → e < Size (editor.Buffer_ t) → fits (data (editor.Buffer_ t)) →
  ∃ m' t',
    editor.cut m = Ret m' ∧ editor.currentTab m' = Some t' ∧
    editor.clipboard m'
    = take (Z.to_nat (e - s + 1)) (drop (Z.to_nat s) (data (editor.Buffer_ t))) ∧
    data (editor.Buffer_ t') = cut s (e - s + 1) (data (editor.Buffer_ t)) ∧
    spliced s (editor.clipboard m') (data (editor.Buffer_ t'))
    = data (editor.Buffer_ t) ∧
    undoStack (editor.Buffer_ t')
    = undoStack (editor.Buffer_ t) ++ [mkOperation OpDelete s (editor.clipboard m') []] ∧
    editor.Cursor t' = Z.min s (Z.max 0 (Size (editor.Buffer_ t') - 1)) ∧
    editor.Active (editor.Selection t') = false.
Proof.
  intros Ht Hmode Hact Hrange Hs He Hfit.
  pose proof maxAlloc_eq as HM.
  set (clip := take (Z.to_nat (e - s + 1)) (drop (Z.to_nat s) (data (editor.Buffer_ t)))).
  destruct (delete_selection (editor.set_clipboard clip m) t s e false)
    as [Hse Hdel]; [done..|].
  cbn zeta in Hdel. unfold fits, Size in *.
  eexists _, _. split_and!.
  - unfold editor.cut, editor.copy. rewrite Ht, Hact, Hrange.
    rewrite (sub64_id e s), add64_id by lia.
    rewrite GetBytes_Ret by (unfold fits, MaxInt64; lia).
    cbn [mbind go_bind]. exact Hdel.
  - by eapply currentTab_put.
  - done.
  - done.
  - cbn [editor.set_Cursor editor.set_Active editor.set_Selection editor.set_Buffer
         editor.Buffer_ edited data editor.clipboard editor.set_clipboard put
         editor.set_tabs].
    apply spliced_cut; lia.
  - done.
  - done.
  - done.
Qed.

Lemma cut_takes_the_selection_witness :
  ∃ m' t',
    editor.cut (editor.selectMove 1
                  (sample_model "abcd" 1 editor.ModeNormal [] "ascii" [] true)) = Ret m' ∧
    editor.currentTab m' = Some t' ∧
    editor.clipboard m'
    = take (Z.to_nat (2 - 1 + 1))
        (drop (Z.to_nat 1)
           (data (editor.Buffer_
                    (editor.set_Selection (editor.mkSelection true 1 2)
                       (sample_tab "abcd" 2))))) ∧
    data (editor.Buffer_ t')
    = cut 1 (2 - 1 + 1)
        (data (editor.Buffer_
                 (editor.set_Selection (editor.mkSelection true 1 2)
                    (sample_tab "abcd" 2)))) ∧
    spliced 1 (editor.clipboard m') (data (editor.Buffer_ t'))
    = data (editor.Buffer_
              (editor.set_Selection (editor.mkSelection true 1 2)
                 (sample_tab "abcd" 2))) ∧
    undoStack (editor.Buffer_ t')
    = undoStack (editor.Buffer_
                   (editor.set_Selection (editor.mkSelection true 1 2)
                      (sample_tab "abcd" 2)))
        ++ [mkOperation OpDelete 1 (editor.clipboard m') []] ∧
    editor.Cursor t' = Z.min 1 (Z.max 0 (Size (editor.Buffer_ t') - 1)) ∧
    editor.Active (editor.Selection t') = false.
Proof.
  apply (cut_takes_the_selection
           (editor.selectMove 1
              (sample_model "abcd" 1 editor.ModeNormal [] "ascii" [] true))
           (editor.set_Selection (editor.mkSelection true 1 2) (sample_tab "abcd" 2))
           1 2).
  - reflexivity.
  - reflexivity.
  - reflexivity.
  - reflexivity.
  - lia.
  - by vm_compute.
  - by vm_compute.
Defined.

(** X24.  [delete] with no selection: outside normal mode it does nothing.
    In normal mode it removes one byte, the one before the cursor for a
    backspace and the one under the cursor otherwise, and leaves the
    cursor at the place of the removed byte; where there is no such byte
    the content stays.  In both cases the cursor ends on a byte of the
    content, or at 0 when there is none. *)
Theorem delete_removes_one_byte m t backspace :
  editor.currentTab m = Some t →
  editor.Active (editor.Selection t) = false →
  0 ≤ editor.Cursor t ≤ Size (editor.Buffer_ t) →
  fits (data (editor.Buffer_ t)) →
  (editor.mode m ≠ editor.ModeNormal → editor.delete backspace m = Ret m) ∧
  (editor.mode m = editor.ModeNormal →
   let k := if backspace then editor.Cursor t - 1 else editor.Cursor t in
   ∃ t', editor.delete backspace m = Ret (put t' m) ∧
         editor.Cursor t'
         = Z.min (Z.max 0 k) (Z.max 0 (Size (editor.Buffer_ t') - 1)) ∧
         (0 ≤ k < Size (editor.Buffer_ t) →
            data (editor.Buffer_ t') = cut k 1 (data (editor.Buffer_ t)) ∧
            Size (editor.Buffer_ t') = Size (editor.Buffer_ t) - 1 ∧
            len (undoStack (editor.Buffer_ t'))
            = len (undoStack (editor.Buffer_ t)) + 1) ∧
         (¬ 0 ≤ k < Size (editor.Buffer_ t) →
            editor.Buffer_ t' = editor.Buffer_ t)).
Proof.
  intros Ht Hact Hc Hfit. pose proof maxAlloc_eq as HM.
  unfold fits, Size in Hc, Hfit. split.
  { intros Hmode. unfold editor.delete. rewrite Ht.
    by rewrite bool_decide_eq_true_2. }
  intros Hmode k. unfold editor.delete. rewrite Ht.
  rewrite bool_decide_eq_false_2 by (by rewrite Hmode; intros []).
  rewrite Hact.
  set (c := editor.Cursor t) in *. set (b := editor.Buffer_ t) in *.
  assert (∀ k', 0 ≤ k' < len (data b) →
            ∃ b1, Delete k' 1 b = Ret b1 ∧ data b1 = cut k' 1 (data b) ∧
                  len (data b1) = len (data b) - 1 ∧
                  len (undoStack b1) = len (undoStack b) + 1) as Hdel.
  { intros k' Hk'. eexists. split; [apply Delete_Ret; unfold fits, MaxInt64; lia|].
    cbn [edited data undoStack]. unfold deleted.
    replace (1 `min` (len (data b) - k')) with 1 by lia.
    split; [done|]. rewrite len_cut, len_app, len_cons, len_nil by lia. lia. }
  assert (∀ m1 t1, m1 = put t1 m → editor.Cursor t1 = Z.max 0 k →
            Z.max 0 k ≤ len (data (editor.Buffer_ t1)) →
            len (data (editor.Buffer_ t1)) ≤ len (data b) →
            ∃ t', editor.on_tab (λ tab,
                    if bool_decide (editor.Cursor tab < 0)
                    then editor.set_Cursor 0 tab else tab)
                    (editor.on_tab (λ tab,
                       if bool_decide (Size (editor.Buffer_ tab) ≤ editor.Cursor tab
                                       ∧ 0 < Size (editor.Buffer_ tab))
                       then editor.set_Cursor (sub64 (Size (editor.Buffer_ tab)) 1) tab
                       else tab) m1) = put t' m ∧
                  editor.Cursor t'
                  = Z.min (Z.max 0 k) (Z.max 0 (Size (editor.Buffer_ t') - 1)) ∧
                  editor.Buffer_ t' = editor.Buffer_ t1) as Htail.
  { intros m1 t1 -> Hc1 Hle1 Hle2.
    rewrite (delete_adjusts _ t1);
      [|by eapply currentTab_put|unfold fits; lia|unfold Size; lia].
    rewrite put_put. eexists. split; [done|].
    cbn [editor.set_Cursor editor.Cursor editor.Buffer_]. by rewrite Hc1. }
  destruct backspace.
  - case_bool_decide as Hpos.
    + destruct (Hdel (c - 1)) as (b1 & HD & Hd1 & Hl1 & Hu1); [lia|].
      rewrite (on_tab_go_current _ m t
                 (editor.set_Cursor (c - 1) (editor.set_Buffer b1 t))); [|done|].
      * cbn [mbind go_bind].
        destruct (Htail (put (editor.set_Cursor (c - 1) (editor.set_Buffer b1 t)) m)
                    (editor.set_Cursor (c - 1) (editor.set_Buffer b1 t)))
          as (t' & E & Hc' & Hb'); [done|cbn; lia|cbn; lia|cbn; lia|].
        exists t'. rewrite E. split; [done|]. split; [exact Hc'|].
        rewrite Hb'. unfold Size.
        cbn [editor.set_Cursor editor.Buffer_ editor.set_Buffer]. fold b.
        split; [done|lia].
      * fold c b. rewrite sub64_id by lia. by rewrite HD.
    + cbn [mbind go_bind].
      destruct (Htail m t) as (t' & E & Hc' & Hb');
        [symmetry; by apply put_current|subst k; fold c; lia|subst k; fold b; lia
        |fold b; lia|].
      exists t'. rewrite E. split; [done|]. split; [exact Hc'|].
      rewrite Hb'. unfold Size. fold b. split; [subst k; lia|done].
  - case_bool_decide as Hin; unfold Size in Hin; fold c b in Hin.
    + destruct (Hdel c) as (b1 & HD & Hd1 & Hl1 & Hu1); [lia|].
      rewrite (on_tab_go_current _ m t (editor.set_Buffer b1 t)); [|done|].
      * cbn [mbind go_bind].
        destruct (Htail (put (editor.set_Buffer b1 t) m) (editor.set_Buffer b1 t))
          as (t' & E & Hc' & Hb'); [done|cbn; subst k; fold c; lia|cbn; lia|cbn; lia|].
        exists t'. rewrite E. split; [done|]. split; [exact Hc'|].
        rewrite Hb'. unfold Size.
        cbn [editor.set_Cursor editor.Buffer_ editor.set_Buffer]. fold b.
        split; [done|subst k; lia].
      * fold c b. by rewrite HD.
    + cbn [mbind go_bind].
      destruct (Htail m t) as (t' & E & Hc' & Hb');
        [symmetry; by apply put_current|subst k; fold c; lia|subst k; fold b; lia
        |fold b; lia|].
      exists t'. rewrite E. split; [done|]. split; [exact Hc'|].
      rewrite Hb'. unfold Size. fold b. split; [subst k; lia|done].
Qed.

Lemma delete_removes_one_byte_witness :
  (editor.mode (sample_model "abc" 1 editor.ModeNormal [] "ascii" [] true)
   ≠ editor.ModeNormal →
   editor.delete true (sample_model "abc" 1 editor.ModeNormal [] "ascii" [] true)
   = Ret (sample_model "abc" 1 editor.ModeNormal [] "ascii" [] true)) ∧
  (editor.mode (sample_model "abc" 1 editor.ModeNormal [] "ascii" [] true)
   = editor.ModeNormal →
   let k := if true then editor.Cursor (sample_tab "abc" 1) - 1
            else editor.Cursor (sample_tab "abc" 1) in
   ∃ t', editor.delete true (sample_model "abc" 1 editor.ModeNormal [] "ascii" [] true)
         = Ret (put t' (sample_model "abc" 1 editor.ModeNormal [] "ascii" [] true)) ∧
         editor.Cursor t'
         = Z.min (Z.max 0 k) (Z.max 0 (Size (editor.Buffer_ t') - 1)) ∧
         (0 ≤ k < Size (editor.Buffer_ (sample_tab "abc" 1)) →
            data (editor.Buffer_ t')
            = cut k 1 (data (editor.Buffer_ (sample_tab "abc" 1))) ∧
            Size (editor.Buffer_ t') = Size (editor.Buffer_ (sample_tab "abc" 1)) - 1 ∧
            len (undoStack (editor.Buffer_ t'))
            = len (undoStack (editor.Buffer_ (sample_tab "abc" 1))) + 1) ∧
         (¬ 0 ≤ k < Size (editor.Buffer_ (sample_tab "abc" 1)) →
            editor.Buffer_ t' = editor.Buffer_ (sample_tab "abc" 1))).
Proof.
  apply (delete_removes_one_byte
           (sample_model "abc" 1 editor.ModeNormal [] "ascii" [] true)
           (sample_tab "abc" 1) true).
  - reflexivity.
  - reflexivity.
  - by vm_compute.
  - by vm_compute.
Defined.





(** X26.  [copy] changes nothing but the clipboard.  With a selection
    inside the content the clipboard becomes the selected bytes, both ends
    included; with no selection it becomes the one byte under the cursor,
    and stays what it was when the cursor is on no byte. *)
Theorem copy_fills_the_clipboard m t :
  editor.currentTab m = Some t → fits (data (editor.Buffer_ t)) →
  (editor.Active (editor.Selection t) = true →
   ∀ s e, editor.getSelectedRange m = (s, e) → 0 ≤ s → e < Size (editor.Buffer_ t) →
     editor.copy m
     = Ret (editor.set_clipboard
              (take (Z.to_nat (e - s + 1))
                 (drop (Z.to_nat s) (data (editor.Buffer_ t)))) m) ∧
     len (take (Z.to_nat (e - s + 1)) (drop (Z.to_nat s) (data (editor.Buffer_ t))))
     = e - s + 1) ∧
  (editor.Active (editor.Selection t) = false →
   editor.copy m
   = Ret (match byte_at (data (editor.Buffer_ t)) (editor.Cursor t) with
          | (v, true) => editor.set_clipboard [v] m
          | (_, false) => m
          end)).
Proof.
  intros Ht Hfit. pose proof maxAlloc_eq as HM. unfold fits, Size in *. split.
  - intros Hact s e Hrange Hs He.
    assert (s ≤ e) as Hse.
    { unfold editor.getSelectedRange in Hrange. rewrite Ht, Hact in Hrange.
      cbn [negb] in Hrange. case_bool_decide; simplify_eq; lia. }
    split.
    + unfold editor.copy. rewrite Ht, Hact, Hrange.
      rewrite (sub64_id e s), add64_id by lia.
      by rewrite GetBytes_Ret by (unfold fits, MaxInt64; lia).
    + len_solve.
  - intros Hact. unfold editor.copy. rewrite Ht, Hact, GetByte_byte_at.
    cbn [mbind go_bind]. by destruct (byte_at _ _) as [v []].
Qed.

Lemma copy_fills_the_clipboard_witness :
  (editor.Active (editor.Selection (sample_tab "abc" 1)) = true →
   ∀ s e, editor.getSelectedRange
            (sample_model "abc" 1 editor.ModeNormal [] "ascii" [] true) = (s, e) →
     0 ≤ s → e < Size (editor.Buffer_ (sample_tab "abc" 1)) →
     editor.copy (sample_model "abc" 1 editor.ModeNormal [] "ascii" [] true)
     = Ret (editor.set_clipboard
              (take (Z.to_nat (e - s + 1))
                 (drop (Z.to_nat s) (data (editor.Buffer_ (sample_tab "abc" 1)))))
              (sample_model "abc" 1 editor.ModeNormal [] "ascii" [] true)) ∧
     len (take (Z.to_nat (e - s + 1))
            (drop (Z.to_nat s) (data (editor.Buffer_ (sample_tab "abc" 1)))))
     = e - s + 1) ∧
  (editor.Active (editor.Selection (sample_tab "abc" 1)) = false →
   editor.copy (sample_model "abc" 1 editor.ModeNormal [] "ascii" [] true)
   = Ret (match byte_at (data (editor.Buffer_ (sample_tab "abc" 1)))
                 (editor.Cursor (sample_tab "abc" 1)) with
          | (v, true) =>
              editor.set_clipboard [v]
                (sample_model "abc" 1 editor.ModeNormal [] "ascii" [] true)
          | (_, false) => sample_model "abc" 1 editor.ModeNormal [] "ascii" [] true
          end)).
Proof.
  apply (copy_fills_the_clipboard
           (sample_model "abc" 1 editor.ModeNormal [] "ascii" [] true)
           (sample_tab "abc" 1)).
  - reflexivity.
  - by vm_compute.
Defined.

(** ** The find pattern *)

Lemma hex_digits_parse (v : byte) :
  ∃ h l, bytes_of (hex_EncodeToString [v]) = [h; l] ∧
         h ≠ " "%byte ∧ l ≠ " "%byte ∧
         z2b (strconv_ParseUint [h; l] 16 8) = v.
Proof.
  destruct v;
    (eexists _, _; split; [vm_compute; reflexivity|];
     split; [discriminate|]; split; [discriminate|]; vm_compute; reflexivity).
Qed.

Lemma bytes_of_hex_cons v bs :
  bytes_of (hex_EncodeToString (v :: bs))
  = bytes_of (hex_EncodeToString [v]) ++ bytes_of (hex_EncodeToString bs).
Proof. reflexivity. Qed.

Lemma hex_digits_no_space bs :
  strings_ReplaceAll_space (bytes_of (hex_EncodeToString bs))
  = bytes_of (hex_EncodeToString bs).
Proof.
  induction bs as [|v bs IH]; [done|].
  rewrite bytes_of_hex_cons.
  destruct (hex_digits_parse v) as (h & l & -> & Hh & Hl & _).
  unfold strings_ReplaceAll_space in *. cbn [app].
  rewrite !filter_cons_True by done. by rewrite IH.
Qed.

Lemma hex_pairs_digits bs : hex_pairs (bytes_of (hex_EncodeToString bs)) = bs.
Proof.
  induction bs as [|v bs IH]; [done|].
  rewrite bytes_of_hex_cons.
  destruct (hex_digits_parse v) as (h & l & -> & _ & _ & Hv).
  cbn [app hex_pairs]. by rewrite Hv, IH.
Qed.

Lemma len_hex_digits bs : len (bytes_of (hex_EncodeToString bs)) = 2 * len bs.
Proof.
  induction bs as [|v bs IH]; [done|].
  rewrite bytes_of_hex_cons.
  destruct (hex_digits_parse v) as (h & l & -> & _).
  rewrite len_app, IH, !len_cons, len_nil. lia.
Qed.

Lemma len_hex_pairs s : len (hex_pairs s) = len s `quot` 2.
Proof.
  induction s as [s IH] using (induction_ltof1 _ length); unfold ltof in *.
  destruct s as [|a [|b rest]]; [done|done|].
  cbn [hex_pairs]. rewrite !len_cons, IH by (cbn [length]; lia).
  pose proof (len_nonneg rest).
  rewrite !Z.quot_div_nonneg by lia.
  replace (len rest + 1 + 1) with (len rest + 1 * 2) by lia.
  rewrite Z.div_add by lia. lia.
Qed.

(** The loop of the hex mode, with [pre] read and [done] written. *)
Lemma hex_pattern_loop_Ret todo : ∀ budget pre rest done,
  len pre = 2 * len done → len rest = 2 * len todo →
  len (pre ++ rest) ≤ 2 ^ 62 → (length todo ≤ budget)%nat →
  editor.hex_pattern_loop budget (pre ++ rest) (len pre) (done ++ todo)
  = Ret (done ++ hex_pairs rest).
Proof.
  induction todo as [|x todo IH]; intros budget pre rest done Hpre Hrest Hfit Hb.
  - destruct rest; [|unfold len in Hrest; cbn [length] in Hrest; lia].
    rewrite !app_nil_r.
    destruct budget; cbn [editor.hex_pattern_loop];
      by rewrite bool_decide_eq_false_2 by lia.
  - destruct rest as [|a [|b rest]];
      [unfold len in Hrest; cbn [length] in Hrest; lia
      |unfold len in Hrest; cbn [length] in Hrest; lia|].
    destruct budget as [|budget]; [cbn [length] in Hb; lia|].
    rewrite !len_cons in Hrest. rewrite len_app, !len_cons in Hfit.
    pose proof (len_nonneg pre). pose proof (len_nonneg rest).
    pose proof (len_nonneg done). pose proof (len_nonneg todo).
    cbn [editor.hex_pattern_loop].
    rewrite bool_decide_eq_true_2 by (rewrite len_app, !len_cons; lia).
    rewrite add64_id by lia.
    rewrite slice_Ret by (rewrite ?len_app, ?len_cons; lia).
    cbn [mbind go_bind].
    replace (Z.to_nat (len pre)) with (length pre) by (unfold len; lia).
    rewrite drop_app_length.
    replace (Z.to_nat (len pre + 2 - len pre)) with 2%nat by lia.
    change (take 2 (a :: b :: rest)) with [a; b].
    rewrite store_Ret.
    2:{ rewrite Z.quot_div_nonneg by lia. rewrite len_app, len_cons.
        split; [apply Z.div_pos; lia|].
        apply Z.div_lt_upper_bound; lia. }
    cbn [mbind go_bind].
    replace (Z.to_nat (len pre `quot` 2)) with (length done + 0)%nat.
    2:{ rewrite Z.quot_div_nonneg by lia. rewrite Hpre.
        rewrite Z.mul_comm, Z.div_mul by lia. unfold len. lia. }
    rewrite insert_app_r. cbn [insert list_insert].
    specialize (IH budget (pre ++ [a; b]) rest
                  (done ++ [z2b (strconv_ParseUint [a; b] 16 8)])).
    rewrite <- !app_assoc in IH. cbn [app] in IH.
    replace (len pre + 2) with (len (pre ++ [a; b]))
      by (rewrite len_app, !len_cons, len_nil; lia).
    rewrite IH; [done|..].
    + rewrite !len_app, !len_cons, !len_nil. lia.
    + lia.
    + rewrite len_app, !len_cons. lia.
    + cbn [length] in Hb. lia.
Qed.

(** X27.  The hex mode of [getFindPattern] drops the spaces, puts a "0" in
    front of an odd number of digits and reads the digits two at a time,
    so it returns half as many bytes, rounded up.  On the text that
    [hex.EncodeToString] writes for a byte sequence it returns that
    sequence. *)
Theorem getFindPattern_hex m :
  editor.findMode m = "hex" → len (editor.findInput m) ≤ maxAlloc →
  ∃ r, editor.getFindPattern m = Ret r ∧
       (let s := strings_ReplaceAll_space (editor.findInput m) in
        r = hex_pairs (if Z.odd (len s) then "0"%byte :: s else s) ∧
        len r = (len s + 1) `quot` 2) ∧
       (∀ bs, editor.findInput m = bytes_of (hex_EncodeToString bs) → r = bs).
Proof.
  intros Hmode Hfit. pose proof maxAlloc_eq as HM.
  set (s := strings_ReplaceAll_space (editor.findInput m)).
  assert (len s ≤ len (editor.findInput m)) as Hs.
  { unfold s, strings_ReplaceAll_space, len. pose proof (length_filter
      (λ c, c ≠ " "%byte) (editor.findInput m)). lia. }
  pose proof (len_nonneg s) as Hs0.
  set (s' := if Z.odd (len s) then "0"%byte :: s else s).
  assert (len s' = 2 * ((len s + 1) `quot` 2)) as Hs'.
  { unfold s'. rewrite Z.quot_div_nonneg by lia.
    destruct (Z.odd (len s)) eqn:E.
    - rewrite len_cons. apply Zodd_bool_iff, Zodd_ex in E as [k Hk].
      rewrite Hk. replace (2 * k + 1 + 1) with ((k + 1) * 2) by lia.
      rewrite Z.div_mul by lia. lia.
    - rewrite <- Z.negb_even in E. apply negb_false_iff, Zeven_bool_iff, Zeven_ex in E
        as [k Hk].
      rewrite Hk. replace (2 * k + 1) with (1 + k * 2) by lia.
      rewrite Z.div_add by lia. change (1 `div` 2) with 0. lia. }
  assert (editor.getFindPattern m = Ret (hex_pairs s')) as Hget.
  { unfold editor.getFindPattern.
    rewrite (bool_decide_eq_true_2 (editor.findMode m = "hex")) by done.
    fold s. cbn zeta.
    assert ((if bool_decide (len s `rem` 2 ≠ 0) then "0"%byte :: s else s) = s') as ->.
    { unfold s'. rewrite Z.rem_mod_nonneg, Zmod_odd by lia.
      by destruct (Z.odd (len s)). }
    rewrite Hs'. rewrite Z.quot_div_nonneg by (rewrite ?Z.quot_div_nonneg; lia || (apply Z.mul_nonneg_nonneg; [lia|apply Z.div_pos; lia])).
    rewrite (Z.mul_comm 2), Z.div_mul by lia.
    assert (0 ≤ (len s + 1) `quot` 2 ≤ maxAlloc) as Hn.
    { rewrite Z.quot_div_nonneg by lia. split; [apply Z.div_pos; lia|].
      apply Z.div_le_upper_bound; lia. }
    rewrite make_Ret by done. cbn [mbind go_bind].
    pose proof (hex_pattern_loop_Ret (replicate (Z.to_nat ((len s + 1) `quot` 2)) x00)
                  (length s') [] s' []) as H.
    cbn [app] in H. rewrite len_nil in H. apply H.
    - done.
    - rewrite Hs'. unfold len at 2. rewrite length_replicate. lia.
    - lia.
    - rewrite length_replicate.
      generalize dependent ((len s + 1) `quot` 2). intros q. unfold len. lia. }
  exists (hex_pairs s'). split; [done|]. split.
  - cbn zeta. split; [done|]. rewrite len_hex_pairs, Hs'.
    rewrite (Z.quot_div_nonneg (2 * _)).
    + by rewrite (Z.mul_comm 2), Z.div_mul by lia.
    + rewrite Z.quot_div_nonneg by lia.
      apply Z.mul_nonneg_nonneg; [lia|apply Z.div_pos; lia].
    + lia.
  - intros bs Hbs. unfold s', s. rewrite Hbs, hex_digits_no_space, len_hex_digits.
    replace (Z.odd (2 * len bs)) with false.
    + apply hex_pairs_digits.
    + symmetry. rewrite <- Z.negb_even, Z.even_mul. done.
Qed.

Lemma getFindPattern_hex_witness :
  ∃ r, editor.getFindPattern
         (sample_model "abc" 0 editor.ModeNormal [] "hex" (bytes_of "4 17") true) = Ret r ∧
       (let s := strings_ReplaceAll_space
                   (editor.findInput
                      (sample_model "abc" 0 editor.ModeNormal [] "hex" (bytes_of "4 17")
                         true)) in
        r = hex_pairs (if Z.odd (len s) then "0"%byte :: s else s) ∧
        len r = (len s + 1) `quot` 2) ∧
       (∀ bs, editor.findInput
                (sample_model "abc" 0 editor.ModeNormal [] "hex" (bytes_of "4 17") true)
              = bytes_of (hex_EncodeToString bs) → r = bs).
Proof.
  apply (getFindPattern_hex
           (sample_model "abc" 0 editor.ModeNormal [] "hex" (bytes_of "4 17") true)).
  - reflexivity.
  - by vm_compute.
Defined.

(** ** The decoder panel *)

(** The reversing loop of [getDecoderBytes], with [done] already placed. *)
Lemma reverse_into_Ret rest : ∀ done,
  len done + len rest ≤ maxAlloc →
  editor.reverse_into rest (len done) (len done + len rest)
    (replicate (length rest) x00 ++ reverse done)
  = Ret (reverse (done ++ rest)).
Proof.
  pose proof maxAlloc_eq as HM.
  induction rest as [|b rest IH]; intros done Hfit.
  - cbn [editor.reverse_into replicate length app]. by rewrite app_nil_r.
  - rewrite len_cons in Hfit |- *.
    pose proof (len_nonneg done). pose proof (len_nonneg rest).
    cbn [editor.reverse_into length].
    rewrite (sub64_id _ 1), sub64_id by lia.
    rewrite store_Ret.
    2:{ rewrite len_app. unfold len. rewrite length_replicate, length_reverse.
        unfold len in *. lia. }
    cbn [mbind go_bind].
    replace (Z.to_nat (len done + (len rest + 1) - 1 - len done))
      with (length (replicate (length rest) x00) + 0)%nat
      by (rewrite length_replicate; unfold len; lia).
    cbn [replicate]. rewrite replicate_cons_app, <- app_assoc, insert_app_r.
    cbn [app insert list_insert].
    specialize (IH (done ++ [b])).
    rewrite len_app, len_cons, len_nil, reverse_snoc, <- app_assoc in IH.
    cbn [app] in IH.
    replace (len done + (len rest + 1)) with (len done + (0 + 1) + len rest) by lia.
    replace (len done + 1) with (len done + (0 + 1)) by lia.
    replace (done ++ b :: rest) with (done ++ [b] ++ rest) by done.
    apply IH. lia.
Qed.

(** X28.  [getDecoderBytes] on a cursor that stands on a byte.  Big endian,
    it returns the bytes from the cursor on, at most [count]; little
    endian, it returns the bytes that end at the cursor, at most [count],
    in reverse order.  Either way the byte under the cursor comes
    first. *)
Theorem getDecoderBytes_endian count m t :
  editor.currentTab m = Some t → fits (data (editor.Buffer_ t)) →
  0 ≤ editor.Cursor t < Size (editor.Buffer_ t) → 0 < count ≤ 2 ^ 62 →
  ∃ r, editor.getDecoderBytes count m = Ret r ∧
       r = (if editor.bigEndian m
            then take (Z.to_nat count)
                   (drop (Z.to_nat (editor.Cursor t)) (data (editor.Buffer_ t)))
            else
              let start := Z.max 0 (editor.Cursor t - count + 1) in
              reverse (take (Z.to_nat (editor.Cursor t - start + 1))
                         (drop (Z.to_nat start) (data (editor.Buffer_ t))))) ∧
       len r = (if editor.bigEndian m
                then Z.min count (Size (editor.Buffer_ t) - editor.Cursor t)
                else Z.min count (editor.Cursor t + 1)) ∧
       r !! 0%nat = data (editor.Buffer_ t) !! Z.to_nat (editor.Cursor t).
Proof.
  intros Ht Hfit Hc Hcount. pose proof maxAlloc_eq as HM. unfold fits, Size in *.
  change (2 ^ 62) with 4611686018427387904 in Hcount.
  set (c := editor.Cursor t) in *. set (d := data (editor.Buffer_ t)) in *.
  unfold editor.getDecoderBytes. rewrite Ht. fold c.
  destruct (editor.bigEndian m).
  - rewrite GetBytes_Ret by (unfold fits, MaxInt64; fold d; lia). fold d.
    eexists. split; [done|]. split; [done|]. split; [len_solve|].
    rewrite lookup_take_lt by lia. rewrite lookup_drop. f_equal. lia.
  - rewrite (sub64_id c count), add64_id by lia.
    set (start := Z.max 0 (c - count + 1)).
    assert ((if bool_decide (c - count + 1 < 0) then 0 else c - count + 1) = start)
      as -> by (subst start; case_bool_decide; lia).
    rewrite (sub64_id c start), add64_id by lia.
    rewrite GetBytes_Ret by (unfold fits, MaxInt64; fold d; lia). fold d.
    cbn [mbind go_bind].
    set (bytes := take (Z.to_nat (c - start + 1)) (drop (Z.to_nat start) d)).
    assert (len bytes = c - start + 1) as Hlen by (subst bytes; len_solve).
    rewrite make_Ret by lia. cbn [mbind go_bind].
    pose proof (reverse_into_Ret bytes []) as H.
    rewrite len_nil in H. cbn [reverse app] in H.
    rewrite Z.add_0_l, app_nil_r in H.
    replace (Z.to_nat (len bytes)) with (length bytes) by (unfold len; lia).
    rewrite H by lia.
    eexists. split; [done|]. split; [done|]. split.
    + unfold len. rewrite length_reverse. fold (len bytes). lia.
    + rewrite reverse_lookup by (unfold len in Hlen; lia).
      subst bytes. rewrite lookup_take_lt by (unfold len in *; rewrite length_take, length_drop; lia).
      rewrite lookup_drop. f_equal.
      rewrite length_take, length_drop. unfold len in *. lia.
Qed.

Lemma getDecoderBytes_endian_witness :
  ∃ r, editor.getDecoderBytes 2
         (sample_model "abcd" 2 editor.ModeNormal [] "ascii" [] false) = Ret r ∧
       r = (if editor.bigEndian
                 (sample_model "abcd" 2 editor.ModeNormal [] "ascii" [] false)
            then take (Z.to_nat 2)
                   (drop (Z.to_nat (editor.Cursor (sample_tab "abcd" 2)))
                      (data (editor.Buffer_ (sample_tab "abcd" 2))))
            else
              let start := Z.max 0 (editor.Cursor (sample_tab "abcd" 2) - 2 + 1) in
              reverse (take (Z.to_nat (editor.Cursor (sample_tab "abcd" 2) - start + 1))
                         (drop (Z.to_nat start)
                            (data (editor.Buffer_ (sample_tab "abcd" 2)))))) ∧
       len r = (if editor.bigEndian
                     (sample_model "abcd" 2 editor.ModeNormal [] "ascii" [] false)
                then Z.min 2 (Size (editor.Buffer_ (sample_tab "abcd" 2))
                              - editor.Cursor (sample_tab "abcd" 2))
                else Z.min 2 (editor.Cursor (sample_tab "abcd" 2) + 1)) ∧
       r !! 0%nat
       = data (editor.Buffer_ (sample_tab "abcd" 2))
           !! Z.to_nat (editor.Cursor (sample_tab "abcd" 2)).
Proof.
  apply (getDecoderBytes_endian 2
           (sample_model "abcd" 2 editor.ModeNormal [] "ascii" [] false)
           (sample_tab "abcd" 2)).
  - reflexivity.
  - by vm_compute.
  - by vm_compute.
  - by vm_compute.
Defined.

(** ** Find *)

Lemma occurs_at_bound pat d k :
  pat ≠ [] → occurs_at pat d k → 0 ≤ k ≤ len d - len pat.
Proof.
  intros Hpat [Hk Htake]. split; [done|].
  assert (length (take (length pat) (drop (Z.to_nat k) d)) = length pat) as Hlen
    by (by rewrite Htake).
  rewrite length_take, length_drop in Hlen.
  assert (0 < length pat)%nat by (destruct pat; [done|cbn [length]; lia]).
  unfold len. lia.
Qed.

(** [Find] forward from the position after [c]. *)
Lemma Find_next pat c b :
  fits (data b) → fits pat → 0 ≤ c ≤ len (data b) →
  ∃ r, Find pat (c + 1) true b = Ret r ∧
       ((r = -1 ∧ (pat ≠ [] → ∀ k, c < k → ¬ occurs_at pat (data b) k)) ∨
        (c < r ≤ len (data b) ∧ occurs_at pat (data b) r ∧
         ∀ k, c < k < r → ¬ occurs_at pat (data b) k)).
Proof.
  intros Hfd Hfp Hc. unfold Find.
  pose proof maxAlloc_eq as HM. unfold fits in Hfd, Hfp.
  pose proof (len_nonneg (data b)) as Hd. pose proof (len_nonneg pat) as Hp.
  case_bool_decide as Hempty.
  { exists (-1). split; [done|]. left. split; [done|].
    intros Hpat k Hk Hocc. apply occurs_at_bound in Hocc; [|done].
    destruct pat; [done|]. rewrite len_cons in *. pose proof (len_nonneg pat). lia. }
  destruct (Find_forward_Ret (data b) pat (length (data b)) (c + 1))
    as (r & -> & Hr); [done|done|lia|unfold len in *; lia|].
  exists r. split; [done|]. destruct Hr as [[-> Hno]|(Hr & Hocc & Hno)].
  - left. split; [done|]. intros Hpat k Hk Hocc.
    pose proof (occurs_at_bound _ _ _ Hpat Hocc). apply (Hno k); [lia|done].
  - right. split; [lia|]. split; [done|]. intros k Hk. apply Hno. lia.
Qed.

(** [Find] backward from the position before [c]. *)
Lemma Find_previous pat c b :
  fits (data b) → fits pat → 0 ≤ c ≤ len (data b) →
  ∃ r, Find pat c false b = Ret r ∧
       ((r = -1 ∧ (pat ≠ [] → ∀ k, k < c → ¬ occurs_at pat (data b) k)) ∨
        (0 ≤ r < c ∧ occurs_at pat (data b) r ∧
         ∀ k, r < k < c → ¬ occurs_at pat (data b) k)).
Proof.
  intros Hfd Hfp Hc. unfold Find.
  pose proof maxAlloc_eq as HM. unfold fits in Hfd, Hfp.
  pose proof (len_nonneg (data b)) as Hd. pose proof (len_nonneg pat) as Hp.
  case_bool_decide as Hempty.
  { exists (-1). split; [done|]. left. split; [done|].
    intros Hpat k Hk Hocc. apply occurs_at_bound in Hocc; [|done].
    destruct pat; [done|]. rewrite len_cons in *. pose proof (len_nonneg pat). lia. }
  rewrite !sub64_id by lia.
  set (start := if bool_decide _ then _ else _).
  assert (start = Z.min (c - 1) (len (data b) - len pat)) as ->
    by (subst start; case_bool_decide; lia).
  destruct (decide (-1 ≤ len (data b) - len pat)) as [Hge|Hlt].
  - destruct (Find_backward_Ret (data b) pat (length (data b))
                (Z.min (c - 1) (len (data b) - len pat)))
      as (r & -> & Hr); [done|done|lia|lia|unfold len in *; lia|].
    exists r. split; [done|]. destruct Hr as [[-> Hno]|(Hr & Hocc & Hno)].
    + left. split; [done|]. intros Hpat k Hk Hocc.
      pose proof (occurs_at_bound _ _ _ Hpat Hocc). apply (Hno k); [lia|done].
    + right. split; [lia|]. split; [done|]. intros k Hk Hocck.
      assert (pat ≠ []) as Hpat by (destruct pat; [unfold len in *; cbn in *; lia|done]).
      pose proof (occurs_at_bound _ _ _ Hpat Hocck). apply (Hno k); [lia|done].
  - exists (-1). destruct (length (data b)) eqn:E; [unfold len in *; lia|].
    cbn [Find_backward]. rewrite bool_decide_eq_false_2 by lia.
    split; [done|]. left. split; [done|]. intros Hpat k Hk Hocc.
    pose proof (occurs_at_bound _ _ _ Hpat Hocc). lia.
Qed.

(** X29.  [doFind] with an empty find input does nothing.  Otherwise it
    moves the cursor to the nearest occurrence of the find pattern after
    the cursor when searching forward, before it when searching backward,
    scrolls it into view, and leaves the content and the selection alone;
    where there is no such occurrence it changes nothing. *)
Theorem doFind_moves_to_the_nearest_occurrence m t forward :
  editor.currentTab m = Some t → fits (data (editor.Buffer_ t)) →
  0 ≤ editor.Cursor t ≤ Size (editor.Buffer_ t) →
  (editor.findInput m = [] → editor.doFind forward m = Ret m) ∧
  (editor.findInput m ≠ [] →
   ∀ pattern, editor.getFindPattern m = Ret pattern → fits pattern →
     let d := data (editor.Buffer_ t) in
     let c := editor.Cursor t in
     (editor.doFind forward m = Ret m ∧
      (pattern ≠ [] →
       ∀ k, (if forward then c < k else k < c) → ¬ occurs_at pattern d k)) ∨
     (∃ t', editor.doFind forward m = Ret (put t' m) ∧
            editor.Buffer_ t' = editor.Buffer_ t ∧
            editor.Selection t' = editor.Selection t ∧
            occurs_at pattern d (editor.Cursor t') ∧
            (if forward then c < editor.Cursor t' else editor.Cursor t' < c) ∧
            (∀ k, (if forward then c < k < editor.Cursor t'
                   else editor.Cursor t' < k < c) → ¬ occurs_at pattern d k) ∧
            (scroll_in_range m t → cursor_visible m t'))).
Proof.
  intros Ht Hfit Hc. pose proof maxAlloc_eq as HM. split.
  { intros E. unfold editor.doFind. by rewrite Ht, E. }
  intros Hin pattern Hpat Hfp d c. unfold Size in Hc. fold d c in Hc.
  unfold editor.doFind. rewrite Ht.
  rewrite (bool_decide_eq_false_2 (editor.findInput m = [])) by done.
  rewrite Hpat. cbn [mbind go_bind]. fold c.
  assert (∀ pos, 0 ≤ pos ≤ len d →
            ∃ t', editor.ensureCursorVisible (editor.on_tab (editor.set_Cursor pos) m)
                  = put t' m ∧
                  editor.Buffer_ t' = editor.Buffer_ t ∧
                  editor.Selection t' = editor.Selection t ∧
                  editor.Cursor t' = pos ∧
                  (scroll_in_range m t → cursor_visible m t')) as Hmove.
  { intros pos Hpos. rewrite (on_tab_current _ m t) by done.
    destruct (ensureCursorVisible_put (put (editor.set_Cursor pos t) m)
                (editor.set_Cursor pos t)) as (y & -> & Hy);
      [by eapply currentTab_put|].
    rewrite put_put. exists (editor.set_ScrollY y (editor.set_Cursor pos t)).
    split; [done|]. split_and!; [done|done|done|].
    intros (_ & Hs & Hh). apply Hy. split; [|by split].
    cbn [editor.set_Cursor editor.Cursor].
    unfold int64_range, MinInt64, MaxInt64, fits in *. fold d in Hfit. lia. }
  destruct forward.
  - rewrite add64_id by (unfold fits in Hfit; fold d in Hfit; lia).
    destruct (Find_next pattern c (editor.Buffer_ t)) as (r & -> & Hr);
      [done|done|done|].
    cbn [mbind go_bind]. fold d in Hr.
    destruct Hr as [[-> Hno]|(Hr & Hocc & Hno)].
    + left. by rewrite bool_decide_eq_false_2 by lia.
    + right. rewrite bool_decide_eq_true_2 by lia.
      destruct (Hmove r) as (t' & -> & Hb & Hsel & Hcur & Hvis); [lia|].
      exists t'. rewrite Hcur. split_and!; [done|done|done|done|lia|done|done].
  - destruct (Find_previous pattern c (editor.Buffer_ t)) as (r & -> & Hr);
      [done|done|done|].
    cbn [mbind go_bind]. fold d in Hr.
    destruct Hr as [[-> Hno]|(Hr & Hocc & Hno)].
    + left. by rewrite bool_decide_eq_false_2 by lia.
    + right. rewrite bool_decide_eq_true_2 by lia.
      destruct (Hmove r) as (t' & -> & Hb & Hsel & Hcur & Hvis); [lia|].
      exists t'. rewrite Hcur. split_and!; [done|done|done|done|lia|done|done].
Qed.

Lemma doFind_moves_to_the_nearest_occurrence_witness :
  (editor.findInput
     (sample_model "abcabc" 1 editor.ModeNormal [] "ascii" (bytes_of "bc") true) = [] →
   editor.doFind true
     (sample_model "abcabc" 1 editor.ModeNormal [] "ascii" (bytes_of "bc") true)
   = Ret (sample_model "abcabc" 1 editor.ModeNormal [] "ascii" (bytes_of "bc") true)) ∧
  (editor.findInput
     (sample_model "abcabc" 1 editor.ModeNormal [] "ascii" (bytes_of "bc") true) ≠ [] →
   ∀ pattern,
     editor.getFindPattern
       (sample_model "abcabc" 1 editor.ModeNormal [] "ascii" (bytes_of "bc") true)
     = Ret pattern → fits pattern →
     let d := data (editor.Buffer_ (sample_tab "abcabc" 1)) in
     let c := editor.Cursor (sample_tab "abcabc" 1) in
     (editor.doFind true
        (sample_model "abcabc" 1 editor.ModeNormal [] "ascii" (bytes_of "bc") true)
      = Ret (sample_model "abcabc" 1 editor.ModeNormal [] "ascii" (bytes_of "bc") true) ∧
      (pattern ≠ [] →
       ∀ k, (if true then c < k else k < c) → ¬ occurs_at pattern d k)) ∨
     (∃ t', editor.doFind true
              (sample_model "abcabc" 1 editor.ModeNormal [] "ascii" (bytes_of "bc") true)
            = Ret (put t'
                     (sample_model "abcabc" 1 editor.ModeNormal [] "ascii"
                        (bytes_of "bc") true)) ∧
            editor.Buffer_ t' = editor.Buffer_ (sample_tab "abcabc" 1) ∧
            editor.Selection t' = editor.Selection (sample_tab "abcabc" 1) ∧
            occurs_at pattern d (editor.Cursor t') ∧
            (if true then c < editor.Cursor t' else editor.Cursor t' < c) ∧
            (∀ k, (if true then c < k < editor.Cursor t'
                   else editor.Cursor t' < k < c) → ¬ occurs_at pattern d k) ∧
            (scroll_in_range
               (sample_model "abcabc" 1 editor.ModeNormal [] "ascii" (bytes_of "bc") true)
               (sample_tab "abcabc" 1) →
             cursor_visible
               (sample_model "abcabc" 1 editor.ModeNormal [] "ascii" (bytes_of "bc") true)
               t'))).
Proof.
  apply (doFind_moves_to_the_nearest_occurrence
           (sample_model "abcabc" 1 editor.ModeNormal [] "ascii" (bytes_of "bc") true)
           (sample_tab "abcabc" 1) true).
  - reflexivity.
  - by vm_compute.
  - by vm_compute.
Defined.

Lemma ParseUint_digits_range base maxVal s : ∀ n r ok,
  0 ≤ maxVal → 0 ≤ n ≤ maxVal →
  ParseUint_digits base maxVal s n = Some (r, ok) → 0 ≤ r ≤ maxVal.
Proof.
  induction s as [|c s IH]; intros n r ok HM Hn; cbn [ParseUint_digits].
  - intros [= <- _]. done.
  - cbv zeta.
    destruct (if bool_decide (b2z "0" ≤ b2z c ≤ b2z "9") then _ else _) as [dg|];
      [|done].
    repeat case_bool_decide; try done.
    + intros [= <- _]. lia.
    + intros [= <- _]. lia.
    + apply IH; [done|]. unfold wrapU64 in *.
      pose proof (Z.mod_pos_bound (n * base + dg) (2 ^ 64)). lia.
Qed.

Lemma strconv_ParseUint_range s base bitSize :
  0 ≤ bitSize → 0 ≤ strconv_ParseUint s base bitSize < 2 ^ bitSize.
Proof.
  intros Hb. pose proof (Z.pow_pos_nonneg 2 bitSize). unfold strconv_ParseUint.
  destruct s as [|c s]; [lia|].
  destruct (ParseUint_digits _ _ _ _) as [[r ok]|] eqn:E; [|lia].
  apply ParseUint_digits_range in E; lia.
Qed.

(** The loop of the decimal mode: the bytes from [i] on are written, the
    others are left. *)
Lemma decimal_pattern_loop_Ret be w n budget : ∀ i R,
  0 ≤ i ≤ w → len R = w → w ≤ maxAlloc → (Z.to_nat (w - i) ≤ budget)%nat →
  ∃ r, editor.decimal_pattern_loop budget be w n i R = Ret r ∧ len r = w ∧
       (∀ j, i ≤ j < w →
          r !! Z.to_nat (if be then w - 1 - j else j)
          = Some (z2b (Z.shiftr n (j * 8)))) ∧
       (∀ j, 0 ≤ j < i →
          r !! Z.to_nat (if be then w - 1 - j else j)
          = R !! Z.to_nat (if be then w - 1 - j else j)).
Proof.
  pose proof maxAlloc_eq as HM.
  induction budget as [|budget IH]; intros i R Hi HR Hw Hb.
  - cbn [editor.decimal_pattern_loop]. rewrite bool_decide_eq_false_2 by lia.
    exists R. split_and!; [done|done|lia|done].
  - cbn [editor.decimal_pattern_loop]. case_bool_decide as Hlt.
    + set (p := Z.to_nat (if be then w - 1 - i else i)).
      assert ((if be then store R (sub64 (sub64 w 1) i) (z2b (Z.shiftr n (i * 8)))
               else store R i (z2b (Z.shiftr n (i * 8))))
              = Ret (<[p := z2b (Z.shiftr n (i * 8))]> R)) as ->.
      { subst p. destruct be.
        - rewrite (sub64_id w 1), sub64_id by lia. by rewrite store_Ret by lia.
        - by rewrite store_Ret by lia. }
      cbn [mbind go_bind]. rewrite add64_id by lia.
      destruct (IH (i + 1) (<[p := z2b (Z.shiftr n (i * 8))]> R))
        as (r & -> & Hlen & Hnew & Hold);
        [lia|unfold len; by rewrite length_insert|done|lia|].
      exists r. split_and!; [done|done| |].
      * intros j Hj. destruct (decide (j = i)) as [->|Hne].
        -- rewrite Hold by lia. apply list_lookup_insert_eq.
           subst p. unfold len in HR. destruct be; lia.
        -- apply Hnew. lia.
      * intros j Hj. rewrite Hold by lia. apply list_lookup_insert_ne.
        subst p. destruct be; lia.
    + exists R. split_and!; [done|done|lia|done].
Qed.

(** X30.  The decimal mode of [getFindPattern] returns [findWidth] bytes
    that hold the number read from the find input, a value below [2^64]:
    byte [i], counted from the low end, is the number shifted right by
    [8 * i] bits, reduced to eight bits.  Big endian the low end is the
    last byte, little endian the first. *)
Theorem getFindPattern_decimal m :
  editor.findMode m = "decimal" → 0 ≤ editor.findWidth m ≤ maxAlloc →
  let n := strconv_ParseUint (editor.findInput m) 10 64 in
  let w := editor.findWidth m in
  0 ≤ n < 2 ^ 64 ∧
  ∃ r, editor.getFindPattern m = Ret r ∧ len r = w ∧
       ∀ i, 0 ≤ i < w →
         r !! Z.to_nat (if editor.bigEndian m then w - 1 - i else i)
         = Some (z2b (n `div` 256 ^ i)).
Proof.
  intros Hmode Hw n w. split; [by apply strconv_ParseUint_range|].
  unfold editor.getFindPattern.
  rewrite (bool_decide_eq_false_2 (editor.findMode m = "hex")) by (by rewrite Hmode).
  rewrite (bool_decide_eq_false_2 (editor.findMode m = "bits")) by (by rewrite Hmode).
  rewrite (bool_decide_eq_true_2 (editor.findMode m = "decimal")) by done.
  cbn zeta. fold n w. rewrite make_Ret by done. cbn [mbind go_bind].
  destruct (decimal_pattern_loop_Ret (editor.bigEndian m) w n (Z.to_nat w) 0
              (replicate (Z.to_nat w) x00)) as (r & -> & Hlen & Hnew & _).
  - unfold w. lia.
  - unfold len. rewrite length_replicate. unfold w. lia.
  - unfold w. lia.
  - lia.
  - exists r. split; [done|]. split; [done|]. intros i Hi.
    rewrite Hnew by done. do 2 f_equal.
    rewrite Z.shiftr_div_pow2 by lia.
    by rewrite (Z.mul_comm i 8), Z.pow_mul_r by lia.
Qed.

Lemma getFindPattern_decimal_witness :
  let n := strconv_ParseUint
             (editor.findInput
                (sample_model "abc" 0 editor.ModeNormal [] "decimal" (bytes_of "258") true))
             10 64 in
  let w := editor.findWidth
             (sample_model "abc" 0 editor.ModeNormal [] "decimal" (bytes_of "258") true) in
  0 ≤ n < 2 ^ 64 ∧
  ∃ r, editor.getFindPattern
         (sample_model "abc" 0 editor.ModeNormal [] "decimal" (bytes_of "258") true)
       = Ret r ∧ len r = w ∧
       ∀ i, 0 ≤ i < w →
         r !! Z.to_nat
                (if editor.bigEndian
                      (sample_model "abc" 0 editor.ModeNormal [] "decimal"
                         (bytes_of "258") true)
                 then w - 1 - i else i)
         = Some (z2b (n `div` 256 ^ i)).
Proof.
  apply (getFindPattern_decimal
           (sample_model "abc" 0 editor.ModeNormal [] "decimal" (bytes_of "258") true)).
  - reflexivity.
  - by vm_compute.
Defined.
